(** * cpp-chess: bitboards, attack tables, boards and moves

    A shallow embedding of the C++ sources (BitboardNames.hpp,
    BitboardOps.hpp, scan.hpp, SquareIterator.hpp, SquareSet.hpp,
    HashCounter.hpp, Index.hpp and the main chess translation unit) together
    with the properties of the library's specification that can be settled
    on them.

    The file has three parts: the embedding of the sources, the
    definitions the statements and proofs use, and the properties.

    Conventions of the embedding:
    - [unsigned long long] values are [Z] in [0, 2^64); every operation that
      can leave that range in C++ wraps explicitly through [u64];
    - an [enum] keeps its underlying value: [Color] is [bool] (the enum is
      declared [: bool]), [PieceType] and [Square] are [Z];
    - [std::optional<T>] is [option T];
    - a member function that mutates its object returns the new object;
    - a function that can throw returns a [result]. *)

From Stdlib Require Import ZArith List Bool String Ascii Lia DecimalString.
Import ListNotations.
Local Open Scope Z_scope.

(** ** Results of functions that can throw *)

Inductive exception : Type :=
| invalid_argument (what : string)   (* std::invalid_argument *)
| EmptyMoveStack                     (* the specification's error kind of [pop] *)
| out_of_fuel.                       (* no C++ exception: a loop bound of the model was reached *)

Inductive result (A : Type) : Type :=
| Returns (a : A)
| Throws (e : exception).
Arguments Returns {A} a.
Arguments Throws {A} e.

Definition bind {A B} (r : result A) (k : A -> result B) : result B :=
  match r with
  | Returns a => k a
  | Throws e => Throws e
  end.

Notation "x <- r ;; k" := (bind r (fun x => k))
  (at level 61, r at next level, right associativity).

(** ** BitboardNames.hpp *)

Definition Bitboard := Z.
Definition Square := Z.

(** Wrap-around of [unsigned long long] arithmetic: the low 64 bits, that
    is [x mod 2^64] (lemma [u64_mod]). *)
Definition u64 (x : Z) : Z := Z.land x 0xffffffffffffffff.

(** C++ truth value of an integer used as a condition. *)
Definition nonzero (x : Z) : bool := negb (x =? 0).

(** C++ [!x] on an integer, as an integer. *)
Definition cpp_not (x : Z) : Z := if x =? 0 then 1 else 0.

(** C++ [a != b] on integers, as an integer. *)
Definition cpp_ne (a b : Z) : Z := if a =? b then 0 else 1.

(** C++ [~x] on an [unsigned long long]. *)
Definition bb_not (x : Bitboard) : Bitboard := u64 (Z.lnot x).

Definition BB_EMPTY : Bitboard := 0.
Definition BB_ALL : Bitboard := 0xffffffffffffffff.

Definition BB_SQUARES (i : Z) : Bitboard := u64 (Z.shiftl 1 i).

Definition _square_mirror_INTHACK (square : Z) : Z := Z.lxor square 0x38.

Definition BB_FILES (i : Z) : Bitboard := u64 (Z.shiftl 0x0101010101010101 i).
Definition BB_FILE_A : Bitboard := BB_FILES 0.
Definition BB_FILE_B : Bitboard := BB_FILES 1.
Definition BB_FILE_C : Bitboard := BB_FILES 2.
Definition BB_FILE_D : Bitboard := BB_FILES 3.
Definition BB_FILE_E : Bitboard := BB_FILES 4.
Definition BB_FILE_F : Bitboard := BB_FILES 5.
Definition BB_FILE_G : Bitboard := BB_FILES 6.
Definition BB_FILE_H : Bitboard := BB_FILES 7.

Definition BB_RANKS (i : Z) : Bitboard := u64 (Z.shiftl 0xff (8 * i)).
Definition BB_RANK_1 : Bitboard := BB_RANKS 0.
Definition BB_RANK_2 : Bitboard := BB_RANKS 1.
Definition BB_RANK_3 : Bitboard := BB_RANKS 2.
Definition BB_RANK_4 : Bitboard := BB_RANKS 3.
Definition BB_RANK_5 : Bitboard := BB_RANKS 4.
Definition BB_RANK_6 : Bitboard := BB_RANKS 5.
Definition BB_RANK_7 : Bitboard := BB_RANKS 6.
Definition BB_RANK_8 : Bitboard := BB_RANKS 7.

Definition BB_BACKRANKS : Bitboard := Z.lor BB_RANK_1 BB_RANK_8.

Definition BB_A1 : Bitboard := u64 (Z.shiftl 1 0).
Definition BB_B1 : Bitboard := u64 (Z.shiftl 1 1).
Definition BB_C1 : Bitboard := u64 (Z.shiftl 1 2).
Definition BB_D1 : Bitboard := u64 (Z.shiftl 1 3).
Definition BB_E1 : Bitboard := u64 (Z.shiftl 1 4).
Definition BB_F1 : Bitboard := u64 (Z.shiftl 1 5).
Definition BB_G1 : Bitboard := u64 (Z.shiftl 1 6).
Definition BB_H1 : Bitboard := u64 (Z.shiftl 1 7).
Definition BB_A8 : Bitboard := u64 (Z.shiftl 1 56).
Definition BB_B8 : Bitboard := u64 (Z.shiftl 1 57).
Definition BB_C8 : Bitboard := u64 (Z.shiftl 1 58).
Definition BB_D8 : Bitboard := u64 (Z.shiftl 1 59).
Definition BB_E8 : Bitboard := u64 (Z.shiftl 1 60).
Definition BB_F8 : Bitboard := u64 (Z.shiftl 1 61).
Definition BB_G8 : Bitboard := u64 (Z.shiftl 1 62).
Definition BB_H8 : Bitboard := u64 (Z.shiftl 1 63).

Definition BB_CORNERS : Bitboard := Z.lor (Z.lor (Z.lor BB_A1 BB_H1) BB_A8) BB_H8.

Definition BB_LIGHT_SQUARES : Bitboard := 0x55aa55aa55aa55aa.
Definition BB_DARK_SQUARES : Bitboard := 0xaa55aa55aa55aa55.

(** The [Square] enumerators are declared file by file
    ([A1, A2, ..., A8, B1, ...]), so [A2] is 1 and [H1] is 56, whereas the
    bitboard constants number the squares rank by rank ([BB_A2 = 1 << 8],
    [BB_H1 = 1 << 7]). *)
Definition A1 : Square := 0.
Definition H1 : Square := 56.

(** The squares in the order of the [SQUARES] array: the enumerators in
    declaration order, that is [0 .. 63]. *)
Definition SQUARES : list Square := map Z.of_nat (seq 0 64).

(** ** BitboardOps.hpp: bit scans *)

Fixpoint pos_ctz (p : positive) : Z :=
  match p with
  | xO q => 1 + pos_ctz q
  | _ => 0
  end.

(** [__builtin_ctzll]; the result at 0 is undefined in C++, the model gives
    64 there and no theorem below depends on that choice. *)
Definition __builtin_ctzll (x : Z) : Z :=
  match x with
  | Zpos p => pos_ctz p
  | _ => 64
  end.

(** [__builtin_clzll]: the number of leading zero bits of a 64-bit value;
    undefined at 0 in C++ (64 in the model). *)
Definition __builtin_clzll (x : Z) : Z :=
  match x with
  | Zpos _ => 63 - Z.log2 x
  | _ => 64
  end.

Fixpoint pos_popcount (p : positive) : Z :=
  match p with
  | xH => 1
  | xO q => pos_popcount q
  | xI q => 1 + pos_popcount q
  end.

Definition __builtin_popcountll (x : Z) : Z :=
  match x with
  | Zpos p => pos_popcount p
  | _ => 0
  end.

Definition lsb (bb : Bitboard) : Z := __builtin_ctzll bb.
Definition msb (bb : Bitboard) : Z := __builtin_clzll bb.
Definition popcount (bb : Bitboard) : Z := __builtin_popcountll bb.

Definition square_file (square : Square) : Z := Z.land square 7.
Definition square_rank (square : Square) : Z := Z.shiftr square 3.

Definition square_distance (a b : Square) : Z :=
  Z.max (Z.abs (square_file a - square_file b))
        (Z.abs (square_rank a - square_rank b)).

(** ** BitboardOps.hpp: sliding attacks

    The [while (true)] walk along one delta.  The loop has no bound of its
    own, so the model carries fuel and answers [None] when it runs out
    (the C++ loop would then still be running, as it does for a delta of 0
    over unoccupied squares). *)

Fixpoint _sliding_walk (fuel : nat) (occupied : Bitboard) (delta : Z)
    (sq : Z) (attacks : Bitboard) : option Bitboard :=
  match fuel with
  | O => None
  | S fuel' =>
      let sq := sq + delta in
      if negb ((0 <=? sq) && (sq <? 64)) || (2 <? square_distance sq (sq - delta))
      then Some attacks
      else
        let attacks := Z.lor attacks (BB_SQUARES sq) in
        if nonzero (Z.land occupied (BB_SQUARES sq))
        then Some attacks
        else _sliding_walk fuel' occupied delta sq attacks
  end.

(** Fuel of the walks: a walk that stays on the board visits a new square
    at every step. *)
Definition walk_fuel : nat := 65.

Fixpoint _sliding_deltas (square : Square) (occupied : Bitboard)
    (deltas : list Z) (attacks : Bitboard) : option Bitboard :=
  match deltas with
  | [] => Some attacks
  | delta :: rest =>
      match _sliding_walk walk_fuel occupied delta square attacks with
      | Some attacks' => _sliding_deltas square occupied rest attacks'
      | None => None
      end
  end.

Definition _sliding_attacks (square : Square) (occupied : Bitboard)
    (deltas : list Z) : option Bitboard :=
  _sliding_deltas square occupied deltas BB_EMPTY.

Definition _step_attacks (square : Square) (deltas : list Z) : option Bitboard :=
  _sliding_attacks square BB_ALL deltas.

Definition _edges (square : Square) : Bitboard :=
  Z.lor (Z.land (Z.lor BB_RANK_1 BB_RANK_8) (bb_not (BB_RANKS (square_rank square))))
        (Z.land (Z.lor BB_FILE_A BB_FILE_H) (bb_not (BB_FILES (square_file square)))).

Definition _DIAG : list Z := [-9; -7; 7; 9].
Definition _FILE : list Z := [-8; 8].
Definition _RANK : list Z := [-1; 1].

(** ** SquareIterator.hpp

    A 64-bit value has at most 64 set bits, so a scan takes at most 64
    turns: that is the fuel of the two scans. *)

(** [SquareIterator<Square, Forward>]: dereference is [ctz], increment is
    [bb &= bb - 1]; the range ends at the sentinel [bb == 0]. *)
Fixpoint scan_forward_loop (fuel : nat) (bb : Bitboard) : list Square :=
  match fuel with
  | O => []
  | S fuel' =>
      if bb =? BB_EMPTY then []
      else __builtin_ctzll bb :: scan_forward_loop fuel' (Z.land bb (u64 (bb - 1)))
  end.

Definition scan_forward (bb : Bitboard) : list Square := scan_forward_loop 64 bb.

(** [SquareIterator<Square, Reverse>]: dereference is [63 - clz], increment
    is [bb ^= BB_SQUARES[63 - clz]]. *)
Fixpoint scan_reversed_loop (fuel : nat) (bb : Bitboard) : list Square :=
  match fuel with
  | O => []
  | S fuel' =>
      if bb =? BB_EMPTY then []
      else (63 - __builtin_clzll bb)
           :: scan_reversed_loop fuel' (Z.lxor bb (BB_SQUARES (63 - __builtin_clzll bb)))
  end.

Definition scan_reversed (bb : Bitboard) : list Square := scan_reversed_loop 64 bb.

(** [CRGenerator] driven by a range-for: the body sees [subset], then
    [subset = (subset - mask) & mask], and the range ends when [subset]
    is back at 0.  [None] when the fuel runs out before that. *)
Fixpoint _carry_rippler_loop (fuel : nat) (mask subset : Bitboard) : option (list Bitboard) :=
  match fuel with
  | O => None
  | S fuel' =>
      let next := Z.land (u64 (subset - mask)) mask in
      if next =? 0 then Some [subset]
      else option_map (cons subset) (_carry_rippler_loop fuel' mask next)
  end.

(** A mask of [k] bits has [2^k] subsets. *)
Definition _carry_rippler (mask : Bitboard) : option (list Bitboard) :=
  _carry_rippler_loop (Z.to_nat (2 ^ popcount mask)) mask BB_EMPTY.

(** ** scan.hpp: the attack tables *)

(** [std::unordered_map<Bitboard, Bitboard>]: [m[k] = v] and [m.at(k)]
    ([None] where [at] throws [std::out_of_range]). *)
Definition umap := list (Bitboard * Bitboard).

Definition umap_set (k v : Bitboard) (m : umap) : umap := (k, v) :: m.

Fixpoint umap_at (m : umap) (k : Bitboard) : option Bitboard :=
  match m with
  | [] => None
  | (k', v) :: rest => if k' =? k then Some v else umap_at rest k
  end.

(** The inner loop of [_attack_table]:
    [for (auto subset : _carry_rippler(mask)) attacks[subset] = _sliding_attacks(square, subset, deltas)]. *)
Fixpoint _attack_table_fill (square : Square) (deltas : list Z)
    (subsets : list Bitboard) (attacks : umap) : option umap :=
  match subsets with
  | [] => Some attacks
  | subset :: rest =>
      match _sliding_attacks square subset deltas with
      | Some a => _attack_table_fill square deltas rest (umap_set subset a attacks)
      | None => None
      end
  end.

(** One turn of the outer loop: the mask and the map pushed for [square]. *)
Definition _attack_table_row (deltas : list Z) (square : Square) : option (Bitboard * umap) :=
  match _sliding_attacks square 0 deltas with
  | None => None
  | Some full =>
      let mask := Z.land full (bb_not (_edges square)) in
      match _carry_rippler mask with
      | None => None
      | Some subsets =>
          match _attack_table_fill square deltas subsets [] with
          | None => None
          | Some attacks => Some (mask, attacks)
          end
      end
  end.

Fixpoint _attack_table_rows (deltas : list Z) (squares : list Square)
    : option (list Bitboard * list umap) :=
  match squares with
  | [] => Some ([], [])
  | square :: rest =>
      match _attack_table_row deltas square with
      | None => None
      | Some (mask, attacks) =>
          match _attack_table_rows deltas rest with
          | None => None
          | Some (mask_table, attack_table) =>
              Some (mask :: mask_table, attacks :: attack_table)
          end
      end
  end.

Definition _attack_table (deltas : list Z) : option (list Bitboard * list umap) :=
  _attack_table_rows deltas SQUARES.

(** [BB_DIAG_MASKS[s]], [BB_DIAG_ATTACKS[s].at(key)] and their file and
    rank siblings, reading the pair a table construction returned. *)
Definition table_mask (table : list Bitboard * list umap) (s : Square) : option Bitboard :=
  nth_error (fst table) (Z.to_nat s).

Definition table_attacks_at (table : list Bitboard * list umap) (s : Square)
    (key : Bitboard) : option Bitboard :=
  match nth_error (snd table) (Z.to_nat s) with
  | Some m => umap_at m key
  | None => None
  end.

(** The runtime lookup of [attacks_mask] and [_attackers_mask]:
    [BB_X_ATTACKS[s].at(BB_X_MASKS[s] & occupied)]. *)
Definition table_lookup (table : list Bitboard * list umap) (s : Square)
    (occupied : Bitboard) : option Bitboard :=
  match table_mask table s with
  | Some mask => table_attacks_at table s (Z.land mask occupied)
  | None => None
  end.

(** The three tables of BitboardOps.hpp. *)
Definition _DIAG_PAIR := _attack_table _DIAG.
Definition _FILE_PAIR := _attack_table _FILE.
Definition _RANK_PAIR := _attack_table _RANK.

(** ** Index.hpp *)

(** [index(c, val)]: the position of the first element equal to [val], the
    size of the container when there is none. *)
Fixpoint index (c : list string) (val : string) : Z :=
  match c with
  | [] => 0
  | x :: rest => if String.eqb x val then 0 else 1 + index rest val
  end.

(** [std::to_string] on an integer. *)
Definition to_string (z : Z) : string := NilZero.string_of_int (Z.to_int z).

(** ** SquareSet.hpp *)

Module SquareSet.

Record t : Type := SquareSet { mask : Bitboard }.

Definition add (s : t) (square : Square) : t :=
  SquareSet (Z.lor (mask s) (BB_SQUARES square)).

Definition discard (s : t) (square : Square) : t :=
  SquareSet (Z.land (mask s) (bb_not (BB_SQUARES square))).

Definition contains (s : t) (square : Square) : bool :=
  nonzero (Z.land (BB_SQUARES square) (mask s)).

Definition remove (s : t) (square : Square) : result t :=
  let removal_mask := BB_SQUARES square in
  if nonzero (Z.land (mask s) removal_mask)
  then Returns (SquareSet (Z.lxor (mask s) removal_mask))
  else Throws (invalid_argument (to_string square)).

(** [pop]: the statement under [if (!mask)] is the expression
    [std::invalid_argument("pop from empty SquareSet");], which builds an
    exception object and drops it; there is no [throw], so control always
    reaches the scan. *)
Definition pop (s : t) : result (Square * t) :=
  let _dropped :=
    if negb (nonzero (mask s))
    then Some (invalid_argument "pop from empty SquareSet")
    else None in
  let square := lsb (mask s) in
  Returns (square, SquareSet (Z.land (mask s) (u64 (mask s - 1)))).

Definition clear (s : t) : t := SquareSet BB_EMPTY.

End SquareSet.

(** ** HashCounter.hpp *)

Module HashCounter.
Section HashCounter.

Variable Hashable : Type.
Variable eqb : Hashable -> Hashable -> bool.

(** [std::unordered_map<Hashable, int>]. *)
Definition t : Type := list (Hashable * Z).

Definition empty : t := [].

Fixpoint contains (hash_map : t) (key : Hashable) : bool :=
  match hash_map with
  | [] => false
  | (k, _) :: rest => eqb k key || contains rest key
  end.

(** [hash_map[key]] read on a key the map holds. *)
Fixpoint get (hash_map : t) (key : Hashable) : Z :=
  match hash_map with
  | [] => 0
  | (k, v) :: rest => if eqb k key then v else get rest key
  end.

(** [hash_map[key]++]. *)
Fixpoint increment (hash_map : t) (key : Hashable) : t :=
  match hash_map with
  | [] => []
  | (k, v) :: rest =>
      if eqb k key then (k, v + 1) :: rest else (k, v) :: increment rest key
  end.

(** [add]: a key the map holds is incremented, a new key is entered
    with the count 0. *)
Definition add (hash_map : t) (key : Hashable) : t :=
  if contains hash_map key
  then increment hash_map key
  else (key, 0) :: hash_map.

Definition count (hash_map : t) (key : Hashable) : Z :=
  if contains hash_map key
  then get hash_map key
  else 0.

End HashCounter.
End HashCounter.

(** ** The chess translation unit *)

(** [enum Color : bool { WHITE, BLACK }]: [WHITE] is [false] and [BLACK]
    is [true]. *)
Definition Color := bool.
Definition WHITE : Color := false.
Definition BLACK : Color := true.

(** [(Color)(x)] for an [unsigned long long] [x].  The enumeration is
    stored in one byte that holds 0 or 1; the program as the Makefile
    builds it (g++) narrows the 64-bit operand to that byte by keeping its
    lowest bit, so the result is [BLACK] for an odd value and [WHITE] for
    an even one.  In particular a single-square mask [1 << sq] gives
    [BLACK] for [sq = 0] only. *)
Definition Color_of_int (x : Z) : Color := Z.testbit x 0.

(** [enum class PieceType { PAWN = 1, ..., KING }], by underlying value
    (the sources cast search positions to it, so every [int] can occur). *)
Definition PieceType := Z.
Definition PAWN : PieceType := 1.
Definition KNIGHT : PieceType := 2.
Definition BISHOP : PieceType := 3.
Definition ROOK : PieceType := 4.
Definition QUEEN : PieceType := 5.
Definition KING : PieceType := 6.

Definition PIECE_SYMBOLS : list string := ["-"; "p"; "n"; "b"; "r"; "q"; "k"]%string.

Definition SQUARE_NAMES : list string :=
  ["A1"; "A2"; "A3"; "A4"; "A5"; "A6"; "A7"; "A8";
   "B1"; "B2"; "B3"; "B4"; "B5"; "B6"; "B7"; "B8";
   "C1"; "C2"; "C3"; "C4"; "C5"; "C6"; "C7"; "C8";
   "D1"; "D2"; "D3"; "D4"; "D5"; "D6"; "D7"; "D8";
   "E1"; "E2"; "E3"; "E4"; "E5"; "E6"; "E7"; "E8";
   "F1"; "F2"; "F3"; "F4"; "F5"; "F6"; "F7"; "F8";
   "G1"; "G2"; "G3"; "G4"; "G5"; "G6"; "G7"; "G8";
   "H1"; "H2"; "H3"; "H4"; "H5"; "H6"; "H7"; "H8"]%string.

(** [BB_PAWN_ATTACKS[2][64]], the literal of BitboardNames.hpp. *)
Definition BB_PAWN_ATTACKS_0 : list Bitboard :=
  [0; 0; 0; 0; 0; 0; 0; 0; 2; 5; 10; 20; 40; 80; 160; 64; 512; 1280; 2560;
   5120; 10240; 20480; 40960; 16384; 131072; 327680; 655360; 1310720;
   2621440; 5242880; 10485760; 4194304; 33554432; 83886080; 167772160;
   335544320; 671088640; 1342177280; 2684354560; 1073741824; 8589934592;
   21474836480; 42949672960; 85899345920; 171798691840; 343597383680;
   687194767360; 274877906944; 2199023255552; 5497558138880; 10995116277760;
   21990232555520; 43980465111040; 87960930222080; 175921860444160;
   70368744177664; 562949953421312; 1407374883553280; 2814749767106560;
   5629499534213120; 11258999068426240; 22517998136852480; 45035996273704960;
   18014398509481984].

Definition BB_PAWN_ATTACKS_1 : list Bitboard :=
  [512; 1280; 2560; 5120; 10240; 20480; 40960; 16384; 131072; 327680; 655360;
   1310720; 2621440; 5242880; 10485760; 4194304; 33554432; 83886080;
   167772160; 335544320; 671088640; 1342177280; 2684354560; 1073741824;
   8589934592; 21474836480; 42949672960; 85899345920; 171798691840;
   343597383680; 687194767360; 274877906944; 2199023255552; 5497558138880;
   10995116277760; 21990232555520; 43980465111040; 87960930222080;
   175921860444160; 70368744177664; 562949953421312; 1407374883553280;
   2814749767106560; 5629499534213120; 11258999068426240; 22517998136852480;
   45035996273704960; 18014398509481984; 144115188075855872;
   360287970189639680; 720575940379279360; 1441151880758558720;
   2882303761517117440; 5764607523034234880; 11529215046068469760;
   4611686018427387904; 0; 0; 0; 0; 0; 0; 0; 0].

(** [BB_PAWN_ATTACKS[color][square]]; a [Color] indexes as 0 or 1. *)
Definition BB_PAWN_ATTACKS (color : Color) (square : Square) : Bitboard :=
  nth (Z.to_nat square) (if color then BB_PAWN_ATTACKS_1 else BB_PAWN_ATTACKS_0) 0.

Record Piece : Type := mkPiece { piece_type : PieceType; color : Color }.

Record Move : Type := mkMove {
  from_square : Square;
  to_square : Square;
  promotion : option PieceType;
  drop : option PieceType
}.

(** [std::optional::has_value()], as the integer a [bool] promotes to. *)
Definition has_value {A} (o : option A) : Z :=
  match o with
  | Some _ => 1
  | None => 0
  end.

Module Move_.

(** [Move::null()] is [Move(A1, A1)]. *)
Definition null : Move := mkMove A1 A1 None None.

Definition __bool__ (m : Move) : bool :=
  nonzero (Z.lor (Z.lor (Z.lor (from_square m) (to_square m))
                        (has_value (promotion m)))
                 (has_value (drop m))).

(** [std::tolower] on a character. *)
Definition tolower (c : ascii) : ascii :=
  let n := N_of_ascii c in
  if ((65 <=? n) && (n <=? 90))%N then ascii_of_N (n + 32) else c.

(** [uci[i]]. *)
Definition char_at (s : string) (i : nat) : ascii :=
  match String.get i s with
  | Some c => c
  | None => zero
  end.

(** A character looked up in an array of strings matches the string made
    of that one character. *)
Definition string_of_char (c : ascii) : string := String c EmptyString.

(** [uci.substr(pos, std::string::npos)]. *)
Definition substr_from (pos : nat) (s : string) : string :=
  substring pos (String.length s - pos) s.

Definition from_uci (uci : string) : result Move :=
  if String.eqb uci "0000" then
    Returns null
  else if Nat.eqb (String.length uci) 4 && Ascii.eqb "@" (char_at uci 1) then
    let drop := index PIECE_SYMBOLS (string_of_char (tolower (char_at uci 0))) in
    let square := index SQUARE_NAMES (substr_from 2 uci) in
    Returns (mkMove square square None (Some drop))
  else if Nat.leb 4 (String.length uci) && Nat.leb (String.length uci) 5 then
    let from_square := index SQUARE_NAMES (substring 0 2 uci) in
    let to_square := index SQUARE_NAMES (substring 2 2 uci) in
    let promotion :=
      if Nat.eqb (String.length uci) 5
      then Some (index PIECE_SYMBOLS (string_of_char (char_at uci 4)))
      else None in
    if from_square =? to_square then
      Throws (invalid_argument ("invalid uci (use 0000 for null moves): " ++ uci))
    else
      Returns (mkMove from_square to_square promotion None)
  else
    Throws (invalid_argument ("expected uci string to be of length 4 or 5: " ++ uci)).

End Move_.

(** *** BaseBoard *)

Record BaseBoard : Type := mkBaseBoard {
  occupied_co_WHITE : Bitboard;   (* occupied_co[0] *)
  occupied_co_BLACK : Bitboard;   (* occupied_co[1] *)
  pawns : Bitboard;
  knights : Bitboard;
  bishops : Bitboard;
  rooks : Bitboard;
  queens : Bitboard;
  kings : Bitboard;
  promoted : Bitboard;
  occupied : Bitboard
}.

(** [occupied_co[color]]. *)
Definition occupied_co (b : BaseBoard) (color : Color) : Bitboard :=
  if color then occupied_co_BLACK b else occupied_co_WHITE b.

Definition set_occupied_co (color : Color) (v : Bitboard) (b : BaseBoard) : BaseBoard :=
  if color
  then mkBaseBoard (occupied_co_WHITE b) v (pawns b) (knights b) (bishops b)
                   (rooks b) (queens b) (kings b) (promoted b) (occupied b)
  else mkBaseBoard v (occupied_co_BLACK b) (pawns b) (knights b) (bishops b)
                   (rooks b) (queens b) (kings b) (promoted b) (occupied b).

Definition set_pawns (v : Bitboard) (b : BaseBoard) : BaseBoard :=
  mkBaseBoard (occupied_co_WHITE b) (occupied_co_BLACK b) v (knights b) (bishops b)
              (rooks b) (queens b) (kings b) (promoted b) (occupied b).

Definition set_knights (v : Bitboard) (b : BaseBoard) : BaseBoard :=
  mkBaseBoard (occupied_co_WHITE b) (occupied_co_BLACK b) (pawns b) v (bishops b)
              (rooks b) (queens b) (kings b) (promoted b) (occupied b).

Definition set_bishops (v : Bitboard) (b : BaseBoard) : BaseBoard :=
  mkBaseBoard (occupied_co_WHITE b) (occupied_co_BLACK b) (pawns b) (knights b) v
              (rooks b) (queens b) (kings b) (promoted b) (occupied b).

Definition set_rooks (v : Bitboard) (b : BaseBoard) : BaseBoard :=
  mkBaseBoard (occupied_co_WHITE b) (occupied_co_BLACK b) (pawns b) (knights b) (bishops b)
              v (queens b) (kings b) (promoted b) (occupied b).

Definition set_queens (v : Bitboard) (b : BaseBoard) : BaseBoard :=
  mkBaseBoard (occupied_co_WHITE b) (occupied_co_BLACK b) (pawns b) (knights b) (bishops b)
              (rooks b) v (kings b) (promoted b) (occupied b).

Definition set_kings (v : Bitboard) (b : BaseBoard) : BaseBoard :=
  mkBaseBoard (occupied_co_WHITE b) (occupied_co_BLACK b) (pawns b) (knights b) (bishops b)
              (rooks b) (queens b) v (promoted b) (occupied b).

Definition set_promoted (v : Bitboard) (b : BaseBoard) : BaseBoard :=
  mkBaseBoard (occupied_co_WHITE b) (occupied_co_BLACK b) (pawns b) (knights b) (bishops b)
              (rooks b) (queens b) (kings b) v (occupied b).

Definition set_occupied (v : Bitboard) (b : BaseBoard) : BaseBoard :=
  mkBaseBoard (occupied_co_WHITE b) (occupied_co_BLACK b) (pawns b) (knights b) (bishops b)
              (rooks b) (queens b) (kings b) (promoted b) v.

Definition _reset_board : BaseBoard :=
  mkBaseBoard
    (Z.lor BB_RANK_1 BB_RANK_2)
    (Z.lor BB_RANK_7 BB_RANK_8)
    (Z.lor BB_RANK_2 BB_RANK_7)
    (Z.lor (Z.lor (Z.lor BB_B1 BB_G1) BB_B8) BB_G8)
    (Z.lor (Z.lor (Z.lor BB_C1 BB_F1) BB_C8) BB_F8)
    BB_CORNERS
    (Z.lor BB_D1 BB_D8)
    (Z.lor BB_E1 BB_E8)
    BB_EMPTY
    (Z.lor (Z.lor (Z.lor BB_RANK_1 BB_RANK_2) BB_RANK_7) BB_RANK_8).

Definition _clear_board : BaseBoard :=
  mkBaseBoard BB_EMPTY BB_EMPTY BB_EMPTY BB_EMPTY BB_EMPTY BB_EMPTY BB_EMPTY
              BB_EMPTY BB_EMPTY BB_EMPTY.

Definition piece_type_at (b : BaseBoard) (square : Square) : option PieceType :=
  let mask := BB_SQUARES square in
  if negb (nonzero (Z.land (occupied b) mask)) then None
  else if nonzero (Z.land (pawns b) mask) then Some PAWN
  else if nonzero (Z.land (knights b) mask) then Some KNIGHT
  else if nonzero (Z.land (bishops b) mask) then Some BISHOP
  else if nonzero (Z.land (rooks b) mask) then Some ROOK
  else if nonzero (Z.land (queens b) mask) then Some QUEEN
  else Some KING.

Definition piece_at (b : BaseBoard) (square : Square) : option Piece :=
  match piece_type_at b square with
  | Some piece_type =>
      let mask := BB_SQUARES square in
      let color := Color_of_int (Z.land (occupied_co b WHITE) mask) in
      Some (mkPiece piece_type color)
  | None => None
  end.

Definition color_at (b : BaseBoard) (square : Square) : option Color :=
  let mask := BB_SQUARES square in
  if nonzero (Z.land (occupied_co b WHITE) mask) then Some WHITE
  else if nonzero (Z.land (occupied_co b BLACK) mask) then Some BLACK
  else None.

Definition king (b : BaseBoard) (color : Color) : option Square :=
  let king_mask := Z.land (Z.land (occupied_co b color) (kings b)) (bb_not (promoted b)) in
  if nonzero king_mask then Some (msb king_mask) else None.

(** [optional == value]. *)
Definition is_type (o : option PieceType) (v : PieceType) : bool :=
  match o with
  | Some x => x =? v
  | None => false
  end.

Definition _remove_piece_at (b : BaseBoard) (square : Square)
    : option PieceType * BaseBoard :=
  let piece_type := piece_type_at b square in
  let mask := BB_SQUARES square in
  let typed :=
    if is_type piece_type PAWN then Some (set_pawns (Z.lxor (pawns b) mask) b)
    else if is_type piece_type KNIGHT then Some (set_knights (Z.lxor (knights b) mask) b)
    else if is_type piece_type BISHOP then Some (set_bishops (Z.lxor (bishops b) mask) b)
    else if is_type piece_type ROOK then Some (set_rooks (Z.lxor (rooks b) mask) b)
    else if is_type piece_type QUEEN then Some (set_queens (Z.lxor (queens b) mask) b)
    else if is_type piece_type KING then Some (set_kings (Z.lxor (kings b) mask) b)
    else None in
  match typed with
  | None => (None, b)
  | Some b =>
      let b := set_occupied (Z.lxor (occupied b) mask) b in
      let b := set_occupied_co WHITE (Z.land (occupied_co b WHITE) (bb_not mask)) b in
      let b := set_occupied_co BLACK (Z.land (occupied_co b BLACK) (bb_not mask)) b in
      let b := set_promoted (Z.land (promoted b) (bb_not mask)) b in
      (piece_type, b)
  end.

Definition remove_piece_at (b : BaseBoard) (square : Square)
    : option Piece * BaseBoard :=
  let color := Color_of_int (Z.land (occupied_co b WHITE) (BB_SQUARES square)) in
  let '(piece_type, b) := _remove_piece_at b square in
  match piece_type with
  | Some pt => (Some (mkPiece pt color), b)
  | None => (None, b)
  end.

Definition _set_piece_at (b : BaseBoard) (square : Square) (piece_type : PieceType)
    (color : Color) (was_promoted : bool) : BaseBoard :=
  let b := snd (_remove_piece_at b square) in
  let mask := BB_SQUARES square in
  let typed :=
    if piece_type =? PAWN then Some (set_pawns (Z.lor (pawns b) mask) b)
    else if piece_type =? KNIGHT then Some (set_knights (Z.lor (knights b) mask) b)
    else if piece_type =? BISHOP then Some (set_bishops (Z.lor (bishops b) mask) b)
    else if piece_type =? ROOK then Some (set_rooks (Z.lor (rooks b) mask) b)
    else if piece_type =? QUEEN then Some (set_queens (Z.lor (queens b) mask) b)
    else if piece_type =? KING then Some (set_kings (Z.lor (kings b) mask) b)
    else None in
  match typed with
  | None => b
  | Some b =>
      let b := set_occupied (Z.lxor (occupied b) mask) b in
      let b := set_occupied_co color (Z.lxor (occupied_co b color) mask) b in
      if was_promoted then set_promoted (Z.lxor (promoted b) mask) b else b
  end.

Definition set_piece_at (b : BaseBoard) (square : Square) (piece : option Piece)
    (was_promoted : bool) : BaseBoard :=
  match piece with
  | None => snd (_remove_piece_at b square)
  | Some p => _set_piece_at b square (piece_type p) (color p) was_promoted
  end.

(** *** Chess960 positions *)

(** [std::find(used.begin(), used.end(), i) == used.end()]. *)
Definition not_used (used : list Z) (i : Z) : bool :=
  negb (existsb (Z.eqb i) used).

(** The search [for (n1 = 0; n1 < 4; ++n1) { n2 = n + (3 - n1) * (4 - n1); ... break; }];
    the text [// 2 - 5] that follows the assignment in the source is a
    comment.  Gives the values of [n1] and [n2] after the loop. *)
Fixpoint chess960_n1_n2 (fuel : nat) (n n1 n2 : Z) : Z * Z :=
  match fuel with
  | O => (n1, n2)
  | S fuel' =>
      if n1 <? 4 then
        let n2 := n + (3 - n1) * (4 - n1) in
        if (n1 <? n2) && (1 <=? n2) && (n2 <=? 4) then (n1, n2)
        else chess960_n1_n2 fuel' n (n1 + 1) n2
      else (n1, n2)
  end.

(** The knights loop over the files [0 .. 7]: state [(knights, used, n1, n2)]. *)
Definition chess960_knights_step (st : Bitboard * list Z * Z * Z) (i : Z)
    : Bitboard * list Z * Z * Z :=
  let '(knights, used, n1, n2) := st in
  if not_used used i then
    let '(knights, used) :=
      if (n1 =? 0) || (n2 =? 0)
      then (Z.lor knights (Z.land (BB_FILES i) BB_BACKRANKS), used ++ [i])
      else (knights, used) in
    (knights, used, n1 - 1, n2 - 1)
  else (knights, used, n1, n2).

(** [for (i = from; i < 8; ++i) if (i not in used) { ...; break; }]: the
    first free file at or after [from], if there is one. *)
Definition first_free_file (used : list Z) (from : Z) : option Z :=
  find (not_used used) (map (fun k => from + Z.of_nat k) (seq 0 (Z.to_nat (8 - from)))).

Definition _set_chess960_pos (b : BaseBoard) (scharnagl : Z) : result BaseBoard :=
  if negb ((0 <=? scharnagl) && (scharnagl <=? 959)) then
    Throws (invalid_argument
      ("chess960 position index not 0 <= " ++ to_string scharnagl ++ " <= 959"))
  else
    let n__ := Z.quot scharnagl 4 in
    let bw := Z.rem scharnagl 4 in
    let n_ := Z.quot n__ 4 in
    let bb := Z.rem n__ 4 in
    let n := Z.quot n_ 6 in
    let q := Z.rem n_ 6 in
    let '(n1, n2) := chess960_n1_n2 5 n 0 0 in
    (* Bishops. *)
    let bw_file := bw * 2 + 1 in
    let bb_file := bb * 2 in
    let b := set_bishops (Z.land (Z.lor (BB_FILES bw_file) (BB_FILES bb_file)) BB_BACKRANKS) b in
    (* Queens. *)
    let q_file := q in
    let q_file := q_file + (if Z.min bw_file bb_file <=? q_file then 1 else 0) in
    let q_file := q_file + (if Z.max bw_file bb_file <=? q_file then 1 else 0) in
    let b := set_queens (Z.land (BB_FILES q_file) BB_BACKRANKS) b in
    let used := [bw_file; bb_file; q_file] in
    (* Knights. *)
    let '(knights, used, _, _) :=
      fold_left chess960_knights_step (map Z.of_nat (seq 0 8)) (BB_EMPTY, used, n1, n2) in
    let b := set_knights knights b in
    (* RKR. *)
    let '(b, used) :=
      match first_free_file used 0 with
      | Some i => (set_rooks (Z.land (BB_FILES i) BB_BACKRANKS) b, used ++ [i])
      | None => (b, used)
      end in
    let '(b, used) :=
      match first_free_file used 1 with
      | Some i => (set_kings (Z.land (BB_FILES i) BB_BACKRANKS) b, used ++ [i])
      | None => (b, used)
      end in
    let b :=
      match first_free_file used 2 with
      | Some i => set_rooks (Z.lor (rooks b) (Z.land (BB_FILES i) BB_BACKRANKS)) b
      | None => b
      end in
    (* Finalize. *)
    let b := set_pawns (Z.lor BB_RANK_2 BB_RANK_7) b in
    let b := set_occupied_co WHITE (Z.lor BB_RANK_1 BB_RANK_2) b in
    let b := set_occupied_co BLACK (Z.lor BB_RANK_7 BB_RANK_8) b in
    let b := set_occupied (Z.lor (Z.lor (Z.lor BB_RANK_1 BB_RANK_2) BB_RANK_7) BB_RANK_8) b in
    Returns (set_promoted BB_EMPTY b).

Definition set_chess960_pos (b : BaseBoard) (scharnagl : Z) : result BaseBoard :=
  _set_chess960_pos b scharnagl.

(** The state of the scan of [chess960_pos] over the squares. *)
Record chess960_scan : Type := mkScan {
  scan_q : Z; scan_qf : bool; scan_n0 : Z; scan_n1 : Z;
  scan_n0f : bool; scan_n1f : bool; scan_rf : Z
}.

(** One turn of [for (auto square = A1; (int)square < (int)H1 + 1; ...)];
    [None] is the [return std::nullopt] inside the loop. *)
Definition chess960_scan_step (b : BaseBoard) (st : option chess960_scan) (square : Square)
    : option chess960_scan :=
  match st with
  | None => None
  | Some (mkScan q qf n0 n1 n0f n1f rf) =>
      let bb := BB_SQUARES square in
      if nonzero (Z.land bb (queens b)) then
        Some (mkScan q true n0 n1 n0f n1f rf)
      else if nonzero (Z.land bb (rooks b)) || nonzero (Z.land bb (kings b)) then
        if nonzero (Z.land bb (kings b)) && negb (rf =? 1) then None
        else
          let rf := if nonzero (Z.land bb (kings b)) then rf else rf + 1 in
          let q := if negb qf then q + 1 else q in
          let '(n0, n1) :=
            if negb n0f then (n0 + 1, n1)
            else if negb n1f then (n0, n1 + 1)
            else (n0, n1) in
          Some (mkScan q qf n0 n1 n0f n1f rf)
      else if nonzero (Z.land bb (knights b)) then
        let q := if negb qf then q + 1 else q in
        let '(n0f, n1f) :=
          if negb n0f then (true, n1f)
          else if negb n1f then (n0f, true)
          else (n0f, n1f) in
        Some (mkScan q qf n0 n1 n0f n1f rf)
      else Some (mkScan q qf n0 n1 n0f n1f rf)
  end.

(** [chess960_pos].  In the first three conditions [!=] binds tighter than
    [|], so each of them is [(x != BB_RANK_a) | BB_RANK_b]. *)
Definition chess960_pos (b : BaseBoard) : option Z :=
  if nonzero (Z.lor (cpp_ne (occupied_co b WHITE) BB_RANK_1) BB_RANK_2) then None
  else if nonzero (Z.lor (cpp_ne (occupied_co b BLACK) BB_RANK_7) BB_RANK_8) then None
  else if nonzero (Z.lor (cpp_ne (pawns b) BB_RANK_2) BB_RANK_7) then None
  else if nonzero (promoted b) then None
  else
    (* Piece counts. *)
    let brnqk_vals :=
      [(bishops b, 4); (rooks b, 4); (knights b, 4); (queens b, 2); (kings b, 2)] in
    if existsb (fun pair => negb (popcount (fst pair) =? snd pair)) brnqk_vals then None
    (* Symmetry. *)
    else if existsb (fun pair =>
                 negb (u64 (Z.shiftl (Z.land BB_RANK_1 (fst pair)) 56)
                       =? Z.land BB_RANK_8 (fst pair))) brnqk_vals then None
    else
      let x := Z.land (bishops b) (2 + 8 + 32 + 128) in
      if negb (nonzero x) then None
      else
        let bs1 := lsb x - 1 in
        let cc_pos := bs1 in
        let x := Z.land (bishops b) (1 + 4 + 16 + 64) in
        if negb (nonzero x) then None
        else
          let bs2 := lsb x * 2 in
          let cc_pos := cc_pos + bs2 in
          let n0s := [0; 4; 7; 9] in
          match fold_left (chess960_scan_step b)
                          (map Z.of_nat (seq (Z.to_nat A1) (Z.to_nat (H1 + 1 - A1))))
                          (Some (mkScan 0 false 0 0 false false 0)) with
          | None => None
          | Some (mkScan q qf n0 n1 n0f n1f rf) =>
              if (n0 <? 4) && n1f && qf then
                let cc_pos := cc_pos + q * 16 in
                let krn := nth (Z.to_nat n0) n0s 0 + n1 in
                let cc_pos := cc_pos + krn * 96 in
                Some cc_pos
              else None
          end.

(** *** Board and its snapshots *)

Record _BoardState : Type := mk_BoardState {
  st_occupied_w : Bitboard;
  st_occupied_b : Bitboard;
  st_pawns : Bitboard;
  st_knights : Bitboard;
  st_bishops : Bitboard;
  st_rooks : Bitboard;
  st_queens : Bitboard;
  st_kings : Bitboard;
  st_promoted : Bitboard;
  st_occupied : Bitboard;
  st_castling_rights : Bitboard;
  st_halfmove_clock : Z;
  st_fullmove_number : Z;
  st_ep_square : option Square;
  st_turn : Color
}.

(** [class Board : public BaseBoard]: the base sub-object and the members
    the class adds. *)
Record Board : Type := mkBoard {
  base : BaseBoard;
  castling_rights : Bitboard;
  halfmove_clock : Z;
  fullmove_number : Z;
  ep_square : option Square;
  turn : Color;
  chess960 : bool;
  move_stack : list Move;
  _stack : list _BoardState
}.

(** The constructor [_BoardState(const Board& board)]. *)
Definition _BoardState_of (board : Board) : _BoardState :=
  mk_BoardState
    (occupied_co (base board) WHITE)
    (occupied_co (base board) BLACK)
    (pawns (base board))
    (knights (base board))
    (bishops (base board))
    (rooks (base board))
    (queens (base board))
    (kings (base board))
    (promoted (base board))
    (occupied (base board))
    (castling_rights board)
    (halfmove_clock board)
    (fullmove_number board)
    (ep_square board)
    (turn board).

(** [_BoardState::restore(Board& board)]: fifteen assignments; [chess960]
    and the two stacks of the board are left as they are. *)
Definition restore (st : _BoardState) (board : Board) : Board :=
  let b := base board in
  let b := set_pawns (st_pawns st) b in
  let b := set_knights (st_knights st) b in
  let b := set_bishops (st_bishops st) b in
  let b := set_rooks (st_rooks st) b in
  let b := set_queens (st_queens st) b in
  let b := set_kings (st_kings st) b in
  let b := set_occupied_co WHITE (st_occupied_w st) b in
  let b := set_occupied_co BLACK (st_occupied_b st) b in
  let b := set_occupied (st_occupied st) b in
  let b := set_promoted (st_promoted st) b in
  mkBoard b (st_castling_rights st) (st_halfmove_clock st) (st_fullmove_number st)
          (st_ep_square st) (st_turn st)
          (chess960 board) (move_stack board) (_stack board).

Definition set_move_stack (v : list Move) (board : Board) : Board :=
  mkBoard (base board) (castling_rights board) (halfmove_clock board)
          (fullmove_number board) (ep_square board) (turn board) (chess960 board)
          v (_stack board).

Definition set__stack (v : list _BoardState) (board : Board) : Board :=
  mkBoard (base board) (castling_rights board) (halfmove_clock board)
          (fullmove_number board) (ep_square board) (turn board) (chess960 board)
          (move_stack board) v.

(** [Board::reset()] with the stacks cleared by [reset_board]. *)
Definition reset (board : Board) : Board :=
  mkBoard _reset_board BB_CORNERS 0 1 None WHITE (chess960 board) [] [].

(** *** Make and unmake

    The translation unit calls [push] and [pop] but holds no definition of
    them. *)

Section MakeUnmake.

(** Steps 3 to 9 of [push] in the specification (clocks, side to move,
    en-passant square, relocation of the pieces, castling rights): how the
    position changes under a move.  It is applied after the snapshot and
    the move have been stacked. *)
Variable play : Board -> Move -> Board.

(** Modelled from the spec: [push], which the sources call and do not
    define.  "1. Snapshot the board state into [_stack].  2. Append [move]
    to [move_stack]."  Steps 3 to 9 are [play]. *)
Definition push (board : Board) (move : Move) : Board :=
  let board := set__stack (_stack board ++ [_BoardState_of board]) board in
  let board := set_move_stack (move_stack board ++ [move]) board in
  play board move.

(** Modelled from the spec: [pop], which the sources call and do not
    define.  "[pop() -> Move] restores the top snapshot, pops the move
    stack, and returns the move", and "EmptyMoveStack: [pop] called with no
    moves pushed". *)
Definition pop (board : Board) : result (Move * Board) :=
  match rev (move_stack board), rev (_stack board) with
  | move :: moves, st :: sts =>
      let board := set_move_stack (rev moves) board in
      let board := set__stack (rev sts) board in
      Returns (move, restore st board)
  | _, _ => Throws EmptyMoveStack
  end.

End MakeUnmake.

(** *** The en-passant generator *)

(** The bitboard the constructor [EPIterator(board, from_mask, to_mask)]
    hands to its square iterator ([BB_EMPTY] is the sentinel).  In the
    first guard [!] applies to [BB_SQUARES[...]] before [&]. *)
Definition EPIterator_capturers (board : Board) (from_mask to_mask : Bitboard) : Bitboard :=
  match ep_square board with
  | None => BB_EMPTY
  | Some ep =>
      if nonzero (Z.land (cpp_not (BB_SQUARES ep)) to_mask) then BB_EMPTY
      else if nonzero (Z.land (BB_SQUARES ep) (occupied (base board))) then BB_EMPTY
      else
        Z.land (Z.land (Z.land (Z.land (pawns (base board))
                                       (occupied_co (base board) (turn board)))
                               from_mask)
                       (BB_PAWN_ATTACKS (negb (turn board)) ep))
               (BB_RANKS (if turn board then 4 else 3))
  end.

(** The moves met between [EPIterator(board, from_mask, to_mask)] and the
    sentinel: [operator*] is [Move(capturer.peek(), board.ep_square.value())]
    and [operator++] advances the reverse square iterator. *)
Definition EPIterator_moves (board : Board) (from_mask to_mask : Bitboard) : list Move :=
  match ep_square board with
  | None => []
  | Some ep =>
      map (fun capturer => mkMove capturer ep None None)
          (scan_reversed (EPIterator_capturers board from_mask to_mask))
  end.

(** *** Threefold repetition *)

Section Repetition.

(** The members [can_claim_threefold_repetition] calls and the translation
    unit does not define. *)
Variable play : Board -> Move -> Board.
Variable clean_castling_rights : Board -> Bitboard.
Variable has_legal_en_passant : Board -> bool.
Variable is_irreversible : Board -> Move -> bool.
Variable generate_legal_moves : Board -> list Move.

Definition Key : Type := (list Bitboard * Color * Bitboard * option Square)%type.

Definition option_eqb (x y : option Z) : bool :=
  match x, y with
  | Some a, Some b => a =? b
  | None, None => true
  | _, _ => false
  end.

Fixpoint list_eqb (x y : list Z) : bool :=
  match x, y with
  | [], [] => true
  | a :: x', b :: y' => (a =? b) && list_eqb x' y'
  | _, _ => false
  end.

Definition Key_eqb (x y : Key) : bool :=
  let '(bbs, t, cr, ep) := x in
  let '(bbs', t', cr', ep') := y in
  list_eqb bbs bbs' && Bool.eqb t t' && (cr =? cr') && option_eqb ep ep'.

(** Modelled from the spec: [_transposition_key], which the sources call
    and do not define.  "The transposition key is the tuple (all piece
    bitboards, side to move, effective castling rights, effective
    en-passant square), where effective means the ep square counts only
    if an en-passant capture is actually available." *)
Definition _transposition_key (board : Board) : Key :=
  ([pawns (base board); knights (base board); bishops (base board);
    rooks (base board); queens (base board); kings (base board);
    occupied_co (base board) WHITE; occupied_co (base board) BLACK],
   turn board,
   clean_castling_rights board,
   if has_legal_en_passant board then ep_square board else None).

(** [while (!move_stack.empty()) { move = pop(); switchyard.push_back(move);
    if (is_irreversible(move)) break; transpositions.add(_transposition_key()); }]. *)
Fixpoint count_positions (fuel : nat) (board : Board) (switchyard : list Move)
    (transpositions : HashCounter.t Key)
    : result (Board * list Move * HashCounter.t Key) :=
  match fuel with
  | O => Throws out_of_fuel
  | S fuel' =>
      match move_stack board with
      | [] => Returns (board, switchyard, transpositions)
      | _ :: _ =>
          popped <- pop board ;;
          let '(move, board) := popped in
          let switchyard := switchyard ++ [move] in
          if is_irreversible board move
          then Returns (board, switchyard, transpositions)
          else count_positions fuel' board switchyard
                 (HashCounter.add Key Key_eqb transpositions (_transposition_key board))
      end
  end.

(** [while (!switchyard.empty()) { push(switchyard.back()); switchyard.pop_back(); }]. *)
Definition replay (board : Board) (switchyard : list Move) : Board :=
  fold_left (push play) (rev switchyard) board.

(** [for (auto move : lmoves) { push(move); key = _transposition_key();
    ret = transpositions.count(key) >= 2; pop(); if (ret) return ret; }
    return false;]. *)
Fixpoint probe_moves (board : Board) (lmoves : list Move)
    (transpositions : HashCounter.t Key) : result bool :=
  match lmoves with
  | [] => Returns false
  | move :: rest =>
      let pushed := push play board move in
      let key := _transposition_key pushed in
      let ret := 2 <=? HashCounter.count Key Key_eqb transpositions key in
      popped <- pop pushed ;;
      if ret then Returns true
      else probe_moves (snd popped) rest transpositions
  end.

Definition can_claim_threefold_repetition (board : Board) : result bool :=
  let transposition_key := _transposition_key board in
  let transpositions :=
    HashCounter.add Key Key_eqb (HashCounter.empty Key) transposition_key in
  counted <- count_positions (S (List.length (move_stack board))) board [] transpositions ;;
  let '(board, switchyard, transpositions) := counted in
  let board := replay board switchyard in
  if 3 <=? HashCounter.count Key Key_eqb transpositions transposition_key
  then Returns true
  else probe_moves board (generate_legal_moves board) transpositions.

End Repetition.

(** *** Plain moves

    An instance of the members the translation unit leaves undefined, for
    games made of plain moves: no castling, no en-passant capture, no king
    or rook leaving its home square. *)

(** Modelled from the spec: steps 3 to 7 of [push], which the sources do
    not define.  "3. Update halfmove clock: reset to 0 if capture or pawn
    move, else increment.  4. Increment fullmove number if side-to-move is
    Black.  5. Flip side-to-move.  6. Clear [ep_square]; if the move is a
    two-square pawn advance, set [ep_square] to the skipped square.
    7. Relocate the mover; if promotion, replace piece-type at [to] and
    mark [promoted]; if capture, remove the captured piece."  The pawn
    taken en passant, the rook of a castling move (step 8) and the
    revocation of castling rights (step 9) are left out, so this is [play]
    on plain moves only. *)
Definition play_plain (board : Board) (move : Move) : Board :=
  let b := base board in
  let mover := piece_type_at b (from_square move) in
  let pawn_move := is_type mover PAWN in
  let capture :=
    nonzero (Z.land (occupied_co b (negb (turn board))) (BB_SQUARES (to_square move))) in
  let halfmove_clock :=
    if pawn_move || capture then 0 else halfmove_clock board + 1 in
  let fullmove_number :=
    if turn board then fullmove_number board + 1 else fullmove_number board in
  let ep_square :=
    if pawn_move && (Z.abs (to_square move - from_square move) =? 16)
    then Some ((from_square move + to_square move) / 2)
    else None in
  let b :=
    match mover with
    | None => b
    | Some piece_type =>
        let was_promoted := nonzero (Z.land (promoted b) (BB_SQUARES (from_square move))) in
        let b := snd (_remove_piece_at b (from_square move)) in
        match promotion move with
        | Some promotion => _set_piece_at b (to_square move) promotion (turn board) true
        | None => _set_piece_at b (to_square move) piece_type (turn board) was_promoted
        end
    end in
  mkBoard b (castling_rights board) halfmove_clock fullmove_number ep_square
          (negb (turn board)) (chess960 board) (move_stack board) (_stack board).

(** Modelled from the spec: [is_irreversible], which the sources call and
    do not define: "the last irreversible move (capture, pawn move,
    castling rights change, or ep change)".  It is asked on the position
    the move was played from; a move of a king, or from or to a square of
    [castling_rights], counts as a castling rights change. *)
Definition is_irreversible_plain (board : Board) (move : Move) : bool :=
  let b := base board in
  let mover := piece_type_at b (from_square move) in
  is_type mover PAWN
  || nonzero (Z.land (occupied_co b (negb (turn board))) (BB_SQUARES (to_square move)))
  || (is_type mover KING && nonzero (castling_rights board))
  || nonzero (Z.land (castling_rights board)
                     (Z.lor (BB_SQUARES (from_square move)) (BB_SQUARES (to_square move))))
  || (has_value (ep_square board) =? 1).

(** The twenty legal moves of the starting position: the sixteen pawn
    moves, then the four knight moves. *)
Definition starting_legal_moves : list Move :=
  flat_map (fun file => [mkMove (8 + file) (16 + file) None None;
                         mkMove (8 + file) (24 + file) None None])
           (map Z.of_nat (seq 0 8))
  ++ [mkMove 1 16 None None; mkMove 1 18 None None;
      mkMove 6 21 None None; mkMove 6 23 None None].

(** The game [Nf3 Nf6 Ng1 Ng8 Nf3 Nf6 Ng1 Ng8] (g1 is square 6, f3 is 21,
    g8 is 62 and f6 is 45). *)
Definition knight_dance : list Move :=
  [mkMove 6 21 None None; mkMove 62 45 None None;
   mkMove 21 6 None None; mkMove 45 62 None None;
   mkMove 6 21 None None; mkMove 62 45 None None;
   mkMove 21 6 None None; mkMove 45 62 None None].

Definition starting_board : Board :=
  mkBoard _reset_board BB_CORNERS 0 1 None WHITE false [] [].

(** The positions of a game, the first one first. *)
Fixpoint positions (board : Board) (moves : list Move) : list Board :=
  match moves with
  | [] => [board]
  | move :: rest => board :: positions (push play_plain board move) rest
  end.

(** ** BitboardOps.hpp: flips, shifts and squares *)

Definition flip_vertical (bb : Bitboard) : Bitboard :=
  let bb := Z.lor (Z.land (Z.shiftr bb 8) 0x00ff00ff00ff00ff)
                  (u64 (Z.shiftl (Z.land bb 0x00ff00ff00ff00ff) 8)) in
  let bb := Z.lor (Z.land (Z.shiftr bb 16) 0x0000ffff0000ffff)
                  (u64 (Z.shiftl (Z.land bb 0x0000ffff0000ffff) 16)) in
  let bb := Z.lor (Z.shiftr bb 32)
                  (u64 (Z.shiftl (Z.land bb 0x00000000ffffffff) 32)) in
  bb.

Definition flip_horizontal (bb : Bitboard) : Bitboard :=
  let bb := Z.lor (Z.land (Z.shiftr bb 1) 0x5555555555555555)
                  (u64 (Z.shiftl (Z.land bb 0x5555555555555555) 1)) in
  let bb := Z.lor (Z.land (Z.shiftr bb 2) 0x3333333333333333)
                  (u64 (Z.shiftl (Z.land bb 0x3333333333333333) 2)) in
  let bb := Z.lor (Z.land (Z.shiftr bb 4) 0x0f0f0f0f0f0f0f0f)
                  (u64 (Z.shiftl (Z.land bb 0x0f0f0f0f0f0f0f0f) 4)) in
  bb.

Definition flip_diagonal (bb : Bitboard) : Bitboard :=
  let t := Z.land (Z.lxor bb (u64 (Z.shiftl bb 28))) 0x0f0f0f0f00000000 in
  let bb := Z.lxor bb (Z.lxor t (Z.shiftr t 28)) in
  let t := Z.land (Z.lxor bb (u64 (Z.shiftl bb 14))) 0x3333000033330000 in
  let bb := Z.lxor bb (Z.lxor t (Z.shiftr t 14)) in
  let t := Z.land (Z.lxor bb (u64 (Z.shiftl bb 7))) 0x5500550055005500 in
  let bb := Z.lxor bb (Z.lxor t (Z.shiftr t 7)) in
  bb.

Definition flip_anti_diagonal (bb : Bitboard) : Bitboard :=
  let t := Z.lxor bb (u64 (Z.shiftl bb 36)) in
  let bb := Z.lxor bb (Z.land (Z.lxor t (Z.shiftr bb 36)) 0xf0f0f0f00f0f0f0f) in
  let t := Z.land (Z.lxor bb (u64 (Z.shiftl bb 18))) 0xcccc0000cccc0000 in
  let bb := Z.lxor bb (Z.lxor t (Z.shiftr t 18)) in
  let t := Z.land (Z.lxor bb (u64 (Z.shiftl bb 9))) 0xaa00aa00aa00aa00 in
  let bb := Z.lxor bb (Z.lxor t (Z.shiftr t 9)) in
  bb.

Definition shift_down (b : Bitboard) : Bitboard := Z.shiftr b 8.
Definition shift_2_down (b : Bitboard) : Bitboard := Z.shiftr b 16.
Definition shift_up (b : Bitboard) : Bitboard := Z.land (u64 (Z.shiftl b 8)) BB_ALL.
Definition shift_2_up (b : Bitboard) : Bitboard := Z.land (u64 (Z.shiftl b 16)) BB_ALL.
Definition shift_right (b : Bitboard) : Bitboard :=
  Z.land (Z.land (u64 (Z.shiftl b 1)) (bb_not BB_FILE_A)) BB_ALL.
Definition shift_2_right (b : Bitboard) : Bitboard :=
  Z.land (Z.land (Z.land (u64 (Z.shiftl b 2)) (bb_not BB_FILE_A)) (bb_not BB_FILE_B)) BB_ALL.
Definition shift_left (b : Bitboard) : Bitboard :=
  Z.land (Z.shiftr b 1) (bb_not BB_FILE_H).
Definition shift_2_left (b : Bitboard) : Bitboard :=
  Z.land (Z.land (Z.shiftr b 2) (bb_not BB_FILE_G)) (bb_not BB_FILE_H).
Definition shift_up_left (b : Bitboard) : Bitboard :=
  Z.land (Z.land (u64 (Z.shiftl b 7)) (bb_not BB_FILE_H)) BB_ALL.
Definition shift_up_right (b : Bitboard) : Bitboard :=
  Z.land (Z.land (u64 (Z.shiftl b 9)) (bb_not BB_FILE_A)) BB_ALL.
Definition shift_down_left (b : Bitboard) : Bitboard :=
  Z.land (Z.shiftr b 9) (bb_not BB_FILE_H).
Definition shift_down_right (b : Bitboard) : Bitboard :=
  Z.land (Z.shiftr b 7) (bb_not BB_FILE_A).

(** [square(file_index, rank_index)]. *)
Definition square (file_index rank_index : Z) : Square := rank_index * 8 + file_index.

Definition square_mirror (square : Square) : Square := Z.lxor square 0x38.

(** ** BitboardOps.hpp: step attacks *)

Definition _KNIGHT_OFFSETS : list Z := [17; 15; 10; 6; -17; -15; -10; -6].
Definition _KING_OFFSETS : list Z := [9; 8; 7; 1; -9; -8; -7; -1].

Definition _make_knight_move (sq : Z) : option Bitboard := _step_attacks sq _KNIGHT_OFFSETS.
Definition _make_king_move (sq : Z) : option Bitboard := _step_attacks sq _KING_OFFSETS.

(** [cag::make_array<64>(f)]: the array [f(0), ..., f(63)]; [None] when a
    call of [f] does not return. *)
Fixpoint make_array_from (f : Z -> option Bitboard) (indices : list Z) : option (list Bitboard) :=
  match indices with
  | [] => Some []
  | i :: rest =>
      match f i, make_array_from f rest with
      | Some x, Some xs => Some (x :: xs)
      | _, _ => None
      end
  end.

Definition make_array_64 (f : Z -> option Bitboard) : option (list Bitboard) :=
  make_array_from f (map Z.of_nat (seq 0 64)).

Definition BB_KNIGHT_ATTACKS_array : option (list Bitboard) := make_array_64 _make_knight_move.
Definition BB_KING_ATTACKS_array : option (list Bitboard) := make_array_64 _make_king_move.

(** [array[i]] on an array that has been built; the index is in range at
    every use below. *)
Definition array_get (a : option (list Bitboard)) (i : Z) : Bitboard :=
  match a with
  | Some l => nth (Z.to_nat i) l 0
  | None => 0
  end.

Definition BB_KNIGHT_ATTACKS (s : Square) : Bitboard := array_get BB_KNIGHT_ATTACKS_array s.
Definition BB_KING_ATTACKS (s : Square) : Bitboard := array_get BB_KING_ATTACKS_array s.

(** ** BitboardOps.hpp: rays *)

(** One entry [rays[a][b]] of [_rays()], reading the attack tables that
    have been built; [None] when an [at(0)] throws. *)
Definition _rays_entry (diag rank file : list Bitboard * list umap) (a b : Square)
    : option Bitboard :=
  let bb_a := BB_SQUARES a in
  let bb_b := BB_SQUARES b in
  match table_attacks_at diag a 0 with
  | None => None
  | Some diag_a =>
      if nonzero (Z.land diag_a bb_b) then
        match table_attacks_at diag b 0 with
        | None => None
        | Some diag_b => Some (Z.lor (Z.lor (Z.land diag_a diag_b) bb_a) bb_b)
        end
      else
        match table_attacks_at rank a 0 with
        | None => None
        | Some rank_a =>
            if nonzero (Z.land rank_a bb_b) then Some (Z.lor rank_a bb_a)
            else
              match table_attacks_at file a 0 with
              | None => None
              | Some file_a =>
                  if nonzero (Z.land file_a bb_b) then Some (Z.lor file_a bb_a)
                  else Some BB_EMPTY
              end
        end
  end.

(** The outer loop of [_rays()] over the squares [a]; each row is the
    inner loop over the squares [b]. *)
Fixpoint _rays_rows (diag rank file : list Bitboard * list umap) (squares : list Square)
    : option (list (list Bitboard)) :=
  match squares with
  | [] => Some []
  | a :: rest =>
      match make_array_from (_rays_entry diag rank file a) SQUARES,
            _rays_rows diag rank file rest with
      | Some row, Some more => Some (row :: more)
      | _, _ => None
      end
  end.

(** [_rays()] on the three attack tables, once they have been built. *)
Definition _rays_of (diag rank file : option (list Bitboard * list umap))
    : option (list (list Bitboard)) :=
  match diag, rank, file with
  | Some diag, Some rank, Some file => _rays_rows diag rank file SQUARES
  | _, _, _ => None
  end.

Definition _rays : option (list (list Bitboard)) := _rays_of _DIAG_PAIR _RANK_PAIR _FILE_PAIR.

(** The array an initialiser returned ([[]] had it not returned). *)
Definition built {A} (a : option (list A)) : list A :=
  match a with
  | Some l => l
  | None => []
  end.

(** [const auto BB_RAYS = _rays();] *)
Definition BB_RAYS : list (list Bitboard) := built _rays.

(** [rays[a][b]]. *)
Definition rays_get (rays : list (list Bitboard)) (a b : Square) : Bitboard :=
  nth (Z.to_nat b) (nth (Z.to_nat a) rays []) 0.

Definition ray (a b : Square) : Bitboard := rays_get BB_RAYS a b.

(** The body of [between] on the table [rays]. *)
Definition between_in (rays : list (list Bitboard)) (a b : Square) : Bitboard :=
  let bb := Z.land (rays_get rays a b)
                   (Z.lxor (u64 (Z.shiftl BB_ALL a)) (u64 (Z.shiftl BB_ALL b))) in
  Z.land bb (u64 (bb - 1)).

Definition between (a b : Square) : Bitboard := between_in BB_RAYS a b.

(** ** SquareSet.hpp: the other member functions of [SquareSet]

    The operators are named after their C++ spelling: [operator_or] is
    [operator|], [operator_sub] is [operator-], [operator_not] is
    [operator~], and so on. *)

Module SquareSetOps.

Import SquareSet.

Definition __contains__ (s : t) (square : Square) : bool :=
  nonzero (Z.land (BB_SQUARES square) (mask s)).

Definition __iter__ (s : t) : list Square := scan_forward (mask s).
Definition __reversed__ (s : t) : list Square := scan_reversed (mask s).

Definition __len__ (s : t) : Z := popcount (mask s).
Definition size (s : t) : Z := popcount (mask s).

Definition operator_bool (s : t) : bool := nonzero (mask s).

(** [operator|]: [auto r = other; r.mask |= mask; return r;]. *)
Definition operator_or (s other : t) : t := SquareSet (Z.lor (mask other) (mask s)).

Definition operator_and (s other : t) : t := SquareSet (Z.land (mask other) (mask s)).

(** [operator-]: [auto r = other; r.mask = mask & ~r.mask; return r;]. *)
Definition operator_sub (s other : t) : t :=
  SquareSet (Z.land (mask s) (bb_not (mask other))).

Definition operator_xor (s other : t) : t := SquareSet (Z.lxor (mask other) (mask s)).

Definition operator_not (s : t) : t := SquareSet (bb_not (mask s)).

Definition isdisjoint (s other : t) : bool := negb (operator_bool (operator_and s other)).

(** [issubset]: the negation of [bool(~self & other)]. *)
Definition issubset (s other : t) : bool :=
  negb (operator_bool (operator_and (operator_not s) other)).

(** [issuperset]: the negation of [bool(self & ~other)]. *)
Definition issuperset (s other : t) : bool :=
  negb (operator_bool (operator_and s (operator_not other))).

Definition _union (s other : t) : t := operator_or s other.
Definition intersection (s other : t) : t := operator_and s other.
Definition difference (s other : t) : t := operator_sub s other.
Definition symmetric_difference (s other : t) : t := operator_xor s other.

Definition copy (s : t) : t := s.

Definition update (s others : t) : t := SquareSet (Z.lor (mask s) (mask others)).
Definition intersection_update (s others : t) : t := SquareSet (Z.land (mask s) (mask others)).
Definition difference_update (s other : t) : t :=
  SquareSet (Z.land (mask s) (bb_not (mask other))).
Definition symmetric_difference_update (s other : t) : t :=
  SquareSet (Z.lxor (mask s) (mask other)).

Definition carry_rippler (s : t) : option (list Bitboard) := _carry_rippler (mask s).

Definition mirror (s : t) : t := SquareSet (flip_vertical (mask s)).

(** [result[square] = true] on the array of 64 flags. *)
Fixpoint set_flag (flags : list bool) (square : nat) : list bool :=
  match flags, square with
  | [], _ => []
  | _ :: rest, O => true :: rest
  | flag :: rest, S square' => flag :: set_flag rest square'
  end.

Definition tolist (s : t) : list bool :=
  fold_left (fun result square => set_flag result (Z.to_nat square))
            (__iter__ s) (repeat false 64).

Definition operator_eq (a b : t) : bool := mask a =? mask b.
Definition operator_ne (a b : t) : bool := negb (mask a =? mask b).

Definition from_square (square : Square) : t := SquareSet (BB_SQUARES square).

Definition ray (a b : Square) : t := SquareSet (ray a b).
Definition between (a b : Square) : t := SquareSet (between a b).

End SquareSetOps.

(** ** StringTools.hpp *)

Module strtools.

(** [c < 'a' || c > 'z']: a [char] above 127 is below ['a'] where [char]
    is signed and above ['z'] where it is not, so the test holds of it
    either way. *)
Definition is_not_lowercase (c : ascii) : bool :=
  let n := N_of_ascii c in ((n <? 97) || (122 <? n))%N.

Definition is_not_uppercase (c : ascii) : bool :=
  let n := N_of_ascii c in ((n <? 65) || (90 <? n))%N.

(** An [int] returned as a [char]: its value modulo 256. *)
Definition char_of_int (z : Z) : ascii := ascii_of_N (Z.to_N (z mod 256)).

(** [c + diff] with [diff = 'A' - 'a'], an [int]. *)
Definition unsafe_lower_to_upper (c : ascii) : Z := Z.of_N (N_of_ascii c) + (65 - 97).

(** [c + diff] with [diff = 'a' - 'A'], an [int]. *)
Definition unsafe_upper_to_lower (c : ascii) : Z := Z.of_N (N_of_ascii c) + (97 - 65).

(** [is_not_lowercase(c) ? unsafe_lower_to_upper(c) : c] *)
Definition toupper (c : ascii) : ascii :=
  if is_not_lowercase c then char_of_int (unsafe_lower_to_upper c) else c.

(** [is_not_uppercase(c) ? unsafe_upper_to_lower(c) : c] *)
Definition tolower (c : ascii) : ascii :=
  if is_not_uppercase c then char_of_int (unsafe_upper_to_lower c) else c.

Definition to_int (c : ascii) : Z := Z.of_N (N_of_ascii c) - 48.

(** [std::transform] over the characters of a string. *)
Fixpoint transform (f : ascii -> ascii) (s : string) : string :=
  match s with
  | EmptyString => EmptyString
  | String c rest => String (f c) (transform f rest)
  end.

(** The overloads of [toupper] and [tolower] on [std::string]. *)
Definition toupper_string (s : string) : string := transform toupper s.
Definition tolower_string (s : string) : string := transform tolower s.

Fixpoint all_of (p : ascii -> bool) (s : string) : bool :=
  match s with
  | EmptyString => true
  | String c rest => p c && all_of p rest
  end.

Definition isupper (s : string) : bool := all_of is_not_lowercase s.
Definition islower (s : string) : bool := all_of is_not_uppercase s.

(** [contains(str, tgt)] for a character [tgt]. *)
Fixpoint contains (str : string) (tgt : ascii) : bool :=
  match str with
  | EmptyString => false
  | String c rest => Ascii.eqb c tgt || contains rest tgt
  end.

(** [std::getline(ss, substr, sep)]: the characters up to the next [sep],
    which is taken out of the stream and left out of the line, and what
    remains of the stream; [None] when the stream ended before a [sep]
    was found, which is when [ss.good()] turns false. *)
Fixpoint getline (ss : string) (sep : ascii) : string * option string :=
  match ss with
  | EmptyString => (EmptyString, None)
  | String c rest =>
      if Ascii.eqb c sep then (EmptyString, Some rest)
      else let '(substr, ss') := getline rest sep in (String c substr, ss')
  end.

(** The loop of [split]; every turn but the last takes a separator out of
    the stream, so the length of the string plus one is fuel enough. *)
Fixpoint split_loop (fuel : nat) (ss : string) (sep : ascii) : list string :=
  match fuel with
  | O => []
  | S fuel' =>
      let '(substr, ss') := getline ss sep in
      substr :: match ss' with
                | Some rest => split_loop fuel' rest sep
                | None => []
                end
  end.

Definition split (string : string) (sep : ascii) : list String.string :=
  split_loop (S (String.length string)) string sep.

End strtools.

(** ** The chess translation unit: names, pieces and moves *)

(** [PIECE_SYMBOLS[(size_t)piece_type]]; the piece types index the array
    in range. *)
Definition piece_symbol (piece_type : PieceType) : string :=
  nth (Z.to_nat piece_type) PIECE_SYMBOLS ""%string.

(** [std::distance(begin, std::find(begin, end, name))]: the position of
    [name] in [SQUARE_NAMES], 64 when it is not there. *)
Definition parse_square (name : string) : Square := index SQUARE_NAMES name.

Definition square_name (square : Square) : string :=
  nth (Z.to_nat square) SQUARE_NAMES ""%string.

Module Piece_.

Definition symbol (p : Piece) : string :=
  let symbol := piece_symbol (piece_type p) in
  if color p then strtools.toupper_string symbol else symbol.

Definition __hash__ (p : Piece) : Z := piece_type p + (if color p then -1 else 5).

Definition __str__ (p : Piece) : string := symbol p.

(** [from_symbol(std::string)]; [(Color)b] for a [bool] [b] is [BLACK]
    when [b] holds. *)
Definition from_symbol (symbol : string) : Piece :=
  let key := strtools.tolower_string symbol in
  let ptype := index PIECE_SYMBOLS key in
  let c : Color := strtools.isupper symbol in
  mkPiece ptype c.

End Piece_.

Module MoveOps.

Definition uci (m : Move) : string :=
  match drop m with
  | Some d =>
      (strtools.toupper_string (piece_symbol d) ++ "@"
       ++ nth (Z.to_nat (to_square m)) SQUARE_NAMES "")%string
  | None =>
      match promotion m with
      | Some p =>
          (nth (Z.to_nat (from_square m)) SQUARE_NAMES ""
           ++ nth (Z.to_nat (to_square m)) SQUARE_NAMES ""
           ++ piece_symbol p)%string
      | None =>
          if Move_.__bool__ m
          then (nth (Z.to_nat (from_square m)) SQUARE_NAMES ""
                ++ nth (Z.to_nat (to_square m)) SQUARE_NAMES "")%string
          else "0000"%string
      end
  end.

Definition xboard (m : Move) : string :=
  if Move_.__bool__ m then uci m else "@@@@"%string.

Definition __str__ (m : Move) : string := uci m.

End MoveOps.

(** ** The chess translation unit: more of BaseBoard *)

(** [pieces_mask]; [None] where the function stops at [assert(false)]. *)
Definition pieces_mask (b : BaseBoard) (piece_type : PieceType) (color : Color)
    : option Bitboard :=
  let bb :=
    if piece_type =? PAWN then Some (pawns b)
    else if piece_type =? KNIGHT then Some (knights b)
    else if piece_type =? BISHOP then Some (bishops b)
    else if piece_type =? ROOK then Some (rooks b)
    else if piece_type =? QUEEN then Some (queens b)
    else if piece_type =? KING then Some (kings b)
    else None in
  match bb with
  | Some bb => Some (Z.land bb (occupied_co b color))
  | None => None
  end.

(** [BB_X_ATTACKS[square].at(BB_X_MASKS[square] & occupied)] on one of the
    three tables; [None] where the table is missing or [at] throws. *)
Definition lookup_in (pair : option (list Bitboard * list umap)) (square : Square)
    (occupied : Bitboard) : option Bitboard :=
  match pair with
  | Some table => table_lookup table square occupied
  | None => None
  end.

Definition attacks_mask (b : BaseBoard) (square : Square) : option Bitboard :=
  let bb_square := BB_SQUARES square in
  if nonzero (Z.land bb_square (pawns b)) then
    let color := Color_of_int (Z.land bb_square (occupied_co b WHITE)) in
    Some (BB_PAWN_ATTACKS color square)
  else if nonzero (Z.land bb_square (knights b)) then
    Some (BB_KNIGHT_ATTACKS square)
  else if nonzero (Z.land bb_square (kings b)) then
    Some (BB_KING_ATTACKS square)
  else
    let attacks := Some 0 in
    let attacks :=
      if nonzero (Z.land bb_square (bishops b)) || nonzero (Z.land bb_square (queens b))
      then lookup_in _DIAG_PAIR square (occupied b)
      else attacks in
    if nonzero (Z.land bb_square (rooks b)) || nonzero (Z.land bb_square (queens b))
    then
      match attacks, lookup_in _RANK_PAIR square (occupied b),
            lookup_in _FILE_PAIR square (occupied b) with
      | Some attacks, Some rank_attacks, Some file_attacks =>
          Some (Z.lor attacks (Z.lor rank_attacks file_attacks))
      | _, _, _ => None
      end
    else attacks.

Definition _attackers_mask (b : BaseBoard) (color : Color) (square : Square)
    (occupied : Bitboard) : option Bitboard :=
  let queens_and_rooks := Z.lor (queens b) (rooks b) in
  let queens_and_bishops := Z.lor (queens b) (bishops b) in
  match lookup_in _RANK_PAIR square occupied, lookup_in _FILE_PAIR square occupied,
        lookup_in _DIAG_PAIR square occupied with
  | Some rank_attacks, Some file_attacks, Some diag_attacks =>
      let attackers :=
        Z.lor (Z.lor (Z.lor (Z.lor (Z.lor
          (Z.land (BB_KING_ATTACKS square) (kings b))
          (Z.land (BB_KNIGHT_ATTACKS square) (knights b)))
          (Z.land rank_attacks queens_and_rooks))
          (Z.land file_attacks queens_and_rooks))
          (Z.land diag_attacks queens_and_bishops))
          (Z.land (BB_PAWN_ATTACKS (negb color) square) (pawns b)) in
      Some (Z.land attackers (occupied_co b color))
  | _, _, _ => None
  end.

Definition attackers_mask (b : BaseBoard) (color : Color) (square : Square)
    : option Bitboard :=
  _attackers_mask b color square (occupied b).

Definition is_attacked_by (b : BaseBoard) (color : Color) (square : Square) : option bool :=
  option_map nonzero (attackers_mask b color square).

(** [operator==] on two boards. *)
Definition BaseBoard_eq (a b : BaseBoard) : bool :=
  (occupied a =? occupied b)
  && (occupied_co a WHITE =? occupied_co b WHITE)
  && (pawns a =? pawns b)
  && (knights a =? knights b)
  && (bishops a =? bishops b)
  && (rooks a =? rooks b)
  && (queens a =? queens b)
  && (kings a =? kings b).

Definition BaseBoard_ne (a b : BaseBoard) : bool := negb (BaseBoard_eq a b).

Definition apply_transform (f : Bitboard -> Bitboard) (b : BaseBoard) : BaseBoard :=
  mkBaseBoard (f (occupied_co_WHITE b)) (f (occupied_co_BLACK b)) (f (pawns b))
              (f (knights b)) (f (bishops b)) (f (rooks b)) (f (queens b)) (f (kings b))
              (f (promoted b)) (f (occupied b)).

Definition transform (f : Bitboard -> Bitboard) (b : BaseBoard) : BaseBoard :=
  apply_transform f b.

(** [apply_transform(flip_vertical)], then [std::swap] of the two colours. *)
Definition apply_mirror (b : BaseBoard) : BaseBoard :=
  let b := apply_transform flip_vertical b in
  set_occupied_co BLACK (occupied_co b WHITE) (set_occupied_co WHITE (occupied_co b BLACK) b).

Definition mirror (b : BaseBoard) : BaseBoard := apply_mirror b.

(** * Definitions used by the statements and the proofs *)

(** ** Attack tables *)

(** Whether the walk leaves the board with its next step from [sq]. *)
Definition walk_stops (delta sq : Z) : bool :=
  let sq := sq + delta in
  negb ((0 <=? sq) && (sq <? 64)) || (2 <? square_distance sq (sq - delta)).

(** The squares a walk over the empty board visits, its last one left out. *)
Fixpoint ray_inner (fuel : nat) (delta sq : Z) : list Square :=
  match fuel with
  | O => []
  | S fuel' =>
      if walk_stops delta sq then []
      else if walk_stops delta (sq + delta) then []
      else (sq + delta) :: ray_inner fuel' delta (sq + delta)
  end.

(** The bit positions of a mask, for an enumeration of its subsets that
    does not go through the Carry-Rippler iteration. *)
Definition mask_bits (mask : Bitboard) : list Z := filter (Z.testbit mask) SQUARES.

(** The mask with the bits of [bits]. *)
Fixpoint mask_of (bits : list Z) : Bitboard :=
  match bits with
  | [] => 0
  | i :: rest => Z.lor (2 ^ i) (mask_of rest)
  end.

(** Every mask made of some of the bits of [bits]. *)
Fixpoint submasks (bits : list Z) : list Bitboard :=
  match bits with
  | [] => [0]
  | i :: rest => submasks rest ++ map (Z.lor (2 ^ i)) (submasks rest)
  end.

(** The check run on every row: the subsets of the row's mask are all keys
    of the row's map, stored with the sliding attacks of that subset, and
    the mask holds every square of every ray but the last. *)
Definition row_ok (deltas : list Z) (s : Square) : bool :=
  match _attack_table_row deltas s with
  | None => false
  | Some (mask, m) =>
      (mask_of (mask_bits mask) =? mask)
      && forallb (fun k => match umap_at m k, _sliding_attacks s k deltas with
                           | Some a, Some a' => a =? a'
                           | _, _ => false
                           end) (submasks (mask_bits mask))
      && forallb (fun delta => forallb (Z.testbit mask) (ray_inner walk_fuel delta s)) deltas
  end.

(** The check, on the 64 rows of a table. *)
Definition rows_ok (deltas : list Z) : bool := forallb (row_ok deltas) SQUARES.

(** The table [pair] is built, and for the square [s] and the occupancy
    [O] its runtime lookup and the reference algorithm both return, the
    same bitboard. *)
Definition lookup_matches (pair : option (list Bitboard * list umap))
    (deltas : list Z) (s : Square) (O : Bitboard) : Prop :=
  exists table a, pair = Some table
    /\ table_lookup table s O = Some a
    /\ _sliding_attacks s O deltas = Some a.

(** ** The data-model invariants of BaseBoard *)

(** A bitboard is a 64-bit value. *)
Definition wf_bb (x : Bitboard) : Prop := 0 <= x < 2 ^ 64.

Definition disjoint (a b : Bitboard) : Prop := Z.land a b = 0.

(** The invariants of the data model: the six piece-type bitboards cover
    [occupied] and are pairwise disjoint, the two colour bitboards cover
    [occupied] and are disjoint, [promoted] lies within [occupied]. *)
Record invariants (b : BaseBoard) : Prop := mkInvariants {
  inv_types_cover :
    Z.lor (pawns b) (Z.lor (knights b) (Z.lor (bishops b)
      (Z.lor (rooks b) (Z.lor (queens b) (kings b))))) = occupied b;
  inv_types_disjoint :
    ForallOrdPairs disjoint
      [pawns b; knights b; bishops b; rooks b; queens b; kings b];
  inv_colors_cover :
    Z.lor (occupied_co b WHITE) (occupied_co b BLACK) = occupied b;
  inv_colors_disjoint :
    disjoint (occupied_co b WHITE) (occupied_co b BLACK);
  inv_promoted :
    Z.land (promoted b) (occupied b) = promoted b
}.

(** Every field of the board is a 64-bit value. *)
Definition wf_board (b : BaseBoard) : Prop :=
  Forall wf_bb [occupied_co_WHITE b; occupied_co_BLACK b; pawns b; knights b;
                bishops b; rooks b; queens b; kings b; promoted b; occupied b].

(** The bits a board holds for one square. *)
Record square_bits : Type := mkBits {
  bit_w : bool; bit_bl : bool; bit_p : bool; bit_n : bool; bit_b : bool;
  bit_r : bool; bit_q : bool; bit_k : bool; bit_pr : bool; bit_o : bool
}.

(** The bits of the ten bitboards of [b] for the square [i]. *)
Definition bits_at (b : BaseBoard) (i : Z) : square_bits :=
  mkBits (Z.testbit (occupied_co_WHITE b) i) (Z.testbit (occupied_co_BLACK b) i)
         (Z.testbit (pawns b) i) (Z.testbit (knights b) i) (Z.testbit (bishops b) i)
         (Z.testbit (rooks b) i) (Z.testbit (queens b) i) (Z.testbit (kings b) i)
         (Z.testbit (promoted b) i) (Z.testbit (occupied b) i).

(** An empty square. *)
Definition no_bits : square_bits :=
  mkBits false false false false false false false false false false.

(** The invariants, read on the bits of one square. *)
Definition square_ok (s : square_bits) : bool :=
  let '(mkBits w bl p n b r q k pr o) := s in
  Bool.eqb (p || (n || (b || (r || (q || k))))) o
  && negb (p && n) && negb (p && b) && negb (p && r) && negb (p && q) && negb (p && k)
  && negb (n && b) && negb (n && r) && negb (n && q) && negb (n && k)
  && negb (b && r) && negb (b && q) && negb (b && k)
  && negb (r && q) && negb (r && k)
  && negb (q && k)
  && Bool.eqb (w || bl) o
  && negb (w && bl)
  && Bool.eqb (pr && o) pr.

(** The bits of the square a piece has just been put on. *)
Definition placed_bits (piece_type : PieceType) (color : Color) (was_promoted : bool)
    : square_bits :=
  if piece_type =? PAWN then
    mkBits (negb color) color true false false false false false was_promoted true
  else if piece_type =? KNIGHT then
    mkBits (negb color) color false true false false false false was_promoted true
  else if piece_type =? BISHOP then
    mkBits (negb color) color false false true false false false was_promoted true
  else if piece_type =? ROOK then
    mkBits (negb color) color false false false true false false was_promoted true
  else if piece_type =? QUEEN then
    mkBits (negb color) color false false false false true false was_promoted true
  else if piece_type =? KING then
    mkBits (negb color) color false false false false false true was_promoted true
  else no_bits.

(** ** En passant, in the words of the specification *)

(** The claim's words, for comparison: a pawn attacks the two squares
    diagonally ahead of it, up the board for White and down for Black. *)
Definition pawn_attacks (side : Color) (pawn target : Square) : bool :=
  if side
  then ((target =? pawn - 7) && negb (square_file pawn =? 7))
       || ((target =? pawn - 9) && negb (square_file pawn =? 0))
  else ((target =? pawn + 7) && negb (square_file pawn =? 0))
       || ((target =? pawn + 9) && negb (square_file pawn =? 7)).

(** The claim's capturing rank: rank 5 for White, rank 4 for Black (rank
    indices 4 and 3). *)
Definition capturing_rank (side : Color) : Z := if side then 3 else 4.

(** The claim's en-passant moves: one per pawn of the side to move that
    attacks [ep_square] from the capturing rank, when [ep_square] is set
    and unoccupied. *)
Definition claimed_ep_moves (board : Board) : list Move :=
  match ep_square board with
  | None => []
  | Some ep =>
      if Z.testbit (occupied (base board)) ep then []
      else
        map (fun pawn => mkMove pawn ep None None)
            (filter (fun pawn =>
                       Z.testbit (pawns (base board)) pawn
                       && Z.testbit (occupied_co (base board) (turn board)) pawn
                       && pawn_attacks (turn board) pawn ep
                       && (square_rank pawn =? capturing_rank (turn board)))
                    (rev SQUARES))
  end.

(** White to move, kings on e1 and e8, a white pawn on e5 (square 36) and
    a black pawn that has just gone d7-d5 (square 35), so [ep_square] is
    d6 (square 43). *)
Definition ep_example : Board :=
  mkBoard
    (mkBaseBoard (Z.lor BB_E1 (BB_SQUARES 36)) (Z.lor BB_E8 (BB_SQUARES 35))
                 (Z.lor (BB_SQUARES 36) (BB_SQUARES 35)) 0 0 0 0 (Z.lor BB_E1 BB_E8) 0
                 (Z.lor (Z.lor BB_E1 (BB_SQUARES 36)) (Z.lor BB_E8 (BB_SQUARES 35))))
    BB_EMPTY 0 3 (Some 43) WHITE false [] [].

(** ** Occurrences of a key *)

Section Occurrences.

Variable Hashable : Type.
Variable eqb : Hashable -> Hashable -> bool.

(** How many times [key] occurs in a sequence of keys. *)
Fixpoint occurrences (keys : list Hashable) (key : Hashable) : Z :=
  match keys with
  | [] => 0
  | k :: rest => (if eqb k key then 1 else 0) + occurrences rest key
  end.

(** What a counter holds once the keys of [keys] have been added: a key
    is in the map when it has occurred, with one less than its number of
    occurrences. *)
Definition counts (m : HashCounter.t Hashable) (keys : list Hashable) : Prop :=
  forall k, HashCounter.contains Hashable eqb m k = (0 <? occurrences keys k)
            /\ (HashCounter.contains Hashable eqb m k = true ->
                HashCounter.get Hashable eqb m k = occurrences keys k - 1).

End Occurrences.

(** ** The knight dance *)

(** The members the translation unit leaves undefined, for games of plain
    moves from the starting position: every right of [castling_rights] is
    intact there, no en-passant capture is available, and the legal moves
    are asked of the starting position only. *)
Definition plain_key : Board -> Key :=
  _transposition_key castling_rights (fun _ => false).

Definition can_claim_plain : Board -> result bool :=
  can_claim_threefold_repetition play_plain castling_rights (fun _ => false)
    is_irreversible_plain (fun _ => starting_legal_moves).

Definition after_knight_dance : Board :=
  fold_left (push play_plain) knight_dance starting_board.

(** ** The positions a repetition claim counts *)

Section CountedPositions.

Variable clean_castling_rights : Board -> Bitboard.
Variable has_legal_en_passant : Board -> bool.
Variable is_irreversible : Board -> Move -> bool.

(** The positions whose keys the first loop of
    [can_claim_threefold_repetition] adds to the counter. *)
Fixpoint counted_boards (fuel : nat) (board : Board) : list Board :=
  match fuel with
  | O => []
  | S fuel' =>
      match move_stack board with
      | [] => []
      | _ :: _ =>
          match pop board with
          | Returns (move, board') =>
              if is_irreversible board' move then []
              else board' :: counted_boards fuel' board'
          | Throws _ => []
          end
      end
  end.

(** The keys the counter has been given when the tests are made: the
    current one, then those of the positions walked back through. *)
Definition counted_keys (board : Board) : list Key :=
  _transposition_key clean_castling_rights has_legal_en_passant board
  :: map (_transposition_key clean_castling_rights has_legal_en_passant)
         (counted_boards (S (List.length (move_stack board))) board).

End CountedPositions.

(** ** Chess960 arrangements *)

(** The arrangement the claim describes, on the first rank and mirrored on
    the eighth: one king per side on the back rank, the two bishops of a
    side on squares of opposite colours, the king between the two
    rooks. *)
Definition chess960_arrangement_ok (b : BaseBoard) : bool :=
  let first r := Z.land r BB_RANK_1 in
  (popcount (first (kings b)) =? 1)
  && (popcount (Z.land (kings b) BB_RANK_8) =? 1)
  && (Z.land (kings b) (bb_not BB_BACKRANKS) =? 0)
  && (popcount (Z.land (first (bishops b)) BB_LIGHT_SQUARES) =? 1)
  && (popcount (Z.land (first (bishops b)) BB_DARK_SQUARES) =? 1)
  && (u64 (Z.shiftl (first (bishops b)) 56) =? Z.land (bishops b) BB_RANK_8)
  && (popcount (first (rooks b)) =? 2)
  && (u64 (Z.shiftl (first (rooks b)) 56) =? Z.land (rooks b) BB_RANK_8)
  && (__builtin_ctzll (first (rooks b)) <? __builtin_ctzll (first (kings b)))
  && (__builtin_ctzll (first (kings b)) <? 63 - __builtin_clzll (first (rooks b))).

(** The Scharnagl numbers, [0 .. 959]. *)
Definition chess960_numbers : list Z := map Z.of_nat (seq 0 960).

(** The square a name stands for under a1 = 0, file = square & 7,
    rank = square >> 3: e2 is 12 and e4 is 28. *)
Definition named_square (file rank : Z) : Square := rank * 8 + file.

(** ** UCI square names *)

(** The sixty-four lowercase square names, [a1] to [h8]. *)
Definition lowercase_square_names : list string :=
  flat_map (fun file => map (fun rank => String file (String rank EmptyString))
                            ["1"; "2"; "3"; "4"; "5"; "6"; "7"; "8"]%char)
           ["a"; "b"; "c"; "d"; "e"; "f"; "g"; "h"]%char.

(** Whether a call ended in [std::invalid_argument]. *)
Definition is_thrown {A} (r : result A) : bool :=
  match r with
  | Throws (invalid_argument _) => true
  | _ => false
  end.

(** ** Mirroring a square *)

Definition square_mirror_ok (s : Square) : bool :=
  (0 <=? square_mirror s) && (square_mirror s <? 64)
  && (square_mirror (square_mirror s) =? s)
  && (square_file (square_mirror s) =? square_file s)
  && (square_rank (square_mirror s) =? 7 - square_rank s).

(** One step of the two mirror flips: the squares of [c] take the bit [k]
    squares above, the squares [k] above [c] take the bit [k] squares below. *)
Definition swap_stage (bb c k : Z) : Z :=
  Z.lor (Z.land (Z.shiftr bb k) c) (u64 (Z.shiftl (Z.land bb c) k)).

Definition swap_source (c k i : Z) : Z := if Z.testbit c i then i + k else i - k.

Definition swap_stage_ok (c k i : Z) : bool :=
  xorb (Z.testbit c i) (Z.testbit c (i - k)).

Definition flip_vertical_ok (i : Square) : bool :=
  let j := if i <? 32 then i + 32 else i - 32 in
  (0 <=? j) && (j <? 64) && swap_stage_ok 0x0000ffff0000ffff 16 j
  && (let j' := swap_source 0x0000ffff0000ffff 16 j in
      (0 <=? j') && (j' <? 64) && swap_stage_ok 0x00ff00ff00ff00ff 8 j'
      && (swap_source 0x00ff00ff00ff00ff 8 j' =? square_mirror i)).

Definition flip_horizontal_ok (i : Square) : bool :=
  swap_stage_ok 0x0f0f0f0f0f0f0f0f 4 i
  && (let j := swap_source 0x0f0f0f0f0f0f0f0f 4 i in
      (0 <=? j) && (j <? 64) && swap_stage_ok 0x3333333333333333 2 j
      && (let j' := swap_source 0x3333333333333333 2 j in
          (0 <=? j') && (j' <? 64) && swap_stage_ok 0x5555555555555555 1 j'
          && (swap_source 0x5555555555555555 1 j'
              =? square (7 - square_file i) (square_rank i)))).

(** One step of the two diagonal flips: the squares of [c] and the squares
    [k] below them exchange their bits. *)
Definition delta_stage (bb c k : Z) : Z :=
  let t := Z.land (Z.lxor bb (u64 (Z.shiftl bb k))) c in
  Z.lxor bb (Z.lxor t (Z.shiftr t k)).

Definition delta_source (c k i : Z) : Z :=
  if Z.testbit c i then i - k else if Z.testbit c (i + k) then i + k else i.

Definition delta_stage_ok (c k i : Z) : bool :=
  negb (Z.testbit c i && Z.testbit c (i + k))
  && (negb (Z.testbit c (i + k)) || (i + k <? 64)).

Definition flip_diagonal_ok (i : Square) : bool :=
  delta_stage_ok 0x5500550055005500 7 i
  && (let j := delta_source 0x5500550055005500 7 i in
      (0 <=? j) && (j <? 64) && delta_stage_ok 0x3333000033330000 14 j
      && (let j' := delta_source 0x3333000033330000 14 j in
          (0 <=? j') && (j' <? 64) && delta_stage_ok 0x0f0f0f0f00000000 28 j'
          && (delta_source 0x0f0f0f0f00000000 28 j'
              =? square (square_rank i) (square_file i)))).

(** The first step of [flip_anti_diagonal] exchanges the two quarters of
    the mask, 36 squares apart. *)
Definition quarter_stage (bb : Z) : Z :=
  let t := Z.lxor bb (u64 (Z.shiftl bb 36)) in
  Z.lxor bb (Z.land (Z.lxor t (Z.shiftr bb 36)) 0xf0f0f0f00f0f0f0f).

Definition quarter_source (i : Z) : Z :=
  if Z.testbit 0xf0f0f0f00f0f0f0f i then (if i <? 36 then i + 36 else i - 36) else i.

Definition quarter_stage_ok (i : Z) : bool :=
  negb (Z.testbit 0xf0f0f0f00f0f0f0f i) || (i <? 28) || (36 <=? i).

Definition flip_anti_diagonal_ok (i : Square) : bool :=
  delta_stage_ok 0xaa00aa00aa00aa00 9 i
  && (let j := delta_source 0xaa00aa00aa00aa00 9 i in
      (0 <=? j) && (j <? 64) && delta_stage_ok 0xcccc0000cccc0000 18 j
      && (let j' := delta_source 0xcccc0000cccc0000 18 j in
          (0 <=? j') && (j' <? 64) && quarter_stage_ok j'
          && (quarter_source j'
              =? square (7 - square_rank i) (7 - square_file i)))).

(** ** Shifting a bitboard *)

(** [stepped df dr b t]: the square [df] files to the left of [t] and [dr]
    ranks below it is on the board and in [b]. *)
Definition stepped (df dr : Z) (b : Bitboard) (t : Square) : bool :=
  let f := square_file t - df in
  let r := square_rank t - dr in
  (0 <=? f) && (f <? 8) && (0 <=? r) && (r <? 8) && Z.testbit b (square f r).

Definition file_mask_ok (f : Z) (i : Square) : bool :=
  Bool.eqb (Z.testbit (BB_FILES f) i) (square_file i =? f).

(** ** The step tables of the king and the knight *)

(** A knight's step: one file and two ranks, or two files and one rank. *)
Definition knight_step (s t : Square) : bool :=
  let df := Z.abs (square_file s - square_file t) in
  let dr := Z.abs (square_rank s - square_rank t) in
  ((df =? 1) && (dr =? 2)) || ((df =? 2) && (dr =? 1)).

Definition step_table_ok (table : option (list Bitboard)) (step : Square -> Square -> bool)
    : bool :=
  match table with
  | Some l =>
      forallb (fun s => forallb (fun t =>
        Bool.eqb (Z.testbit (nth (Z.to_nat s) l 0) t) (step s t)) SQUARES) SQUARES
  | None => false
  end.

(** ** Rays and the squares between two squares *)

(** Two distinct squares on a common file, rank or diagonal. *)
Definition aligned (a b : Square) : bool :=
  negb (a =? b)
  && ((square_file a =? square_file b) || (square_rank a =? square_rank b)
      || (Z.abs (square_file a - square_file b) =? Z.abs (square_rank a - square_rank b))).

(** [t] lies on the line through [a] and [b], two aligned squares. *)
Definition on_line (a b t : Square) : bool :=
  aligned a b
  && ((square_file b - square_file a) * (square_rank t - square_rank a)
      =? (square_rank b - square_rank a) * (square_file t - square_file a)).

(** [t] lies on that line strictly between [a] and [b]. *)
Definition strictly_between (a b t : Square) : bool :=
  on_line a b t && (Z.min a b <? t) && (t <? Z.max a b).

Definition rays_ok (rays : option (list (list Bitboard))) : bool :=
  match rays with
  | Some rows =>
      (List.length rows =? 64)%nat
      && forallb (fun a => forallb (fun b =>
           let r := rays_get rows a b in
           let inner := between_in rows a b in
           (0 <=? r) && (r <? 2 ^ 64)
           && forallb (fun t =>
                Bool.eqb (Z.testbit r t) (on_line a b t)
                && Bool.eqb (Z.testbit inner t)
                            (Z.testbit r t && (Z.min a b <? t) && (t <? Z.max a b))) SQUARES)
           SQUARES) SQUARES
  | None => false
  end.

(** ** Scanning a bitboard *)

(** The squares of a bitboard, in ascending order. *)
Definition squares_of (bb : Bitboard) : list Square := filter (Z.testbit bb) SQUARES.

(** ** The Carry-Rippler iteration *)

(** The subsets of a mask, built on the binary digits of the mask. *)
Fixpoint subsets_pos (p : positive) : list Z :=
  match p with
  | xH => [0; 1]
  | xO q => map (fun s => 2 * s) (subsets_pos q)
  | xI q => flat_map (fun s => [2 * s; 2 * s + 1]) (subsets_pos q)
  end.

Definition subsets (mask : Bitboard) : list Bitboard :=
  match mask with
  | Zpos p => subsets_pos p
  | _ => [0]
  end.

(** [follows f x l]: from [x], the successive values of [f] are the
    elements of [l], none of them 0, and then 0. *)
Fixpoint follows (f : Z -> Z) (x : Z) (l : list Z) : Prop :=
  match l with
  | [] => f x = 0
  | y :: l' => f x = y /\ y <> 0 /\ follows f y l'
  end.

(** ** Sliding attacks *)

(** The squares a walk from [sq] along [delta] visits on the empty board. *)
Fixpoint ray_squares (fuel : nat) (delta sq : Z) : list Square :=
  match fuel with
  | O => []
  | S fuel' =>
      if walk_stops delta sq then []
      else (sq + delta) :: ray_squares fuel' delta (sq + delta)
  end.

(** The squares of a ray up to its first occupied square, that one included. *)
Fixpoint visible (occ : Bitboard) (l : list Square) : list Square :=
  match l with
  | [] => []
  | q :: rest => q :: (if Z.testbit occ q then [] else visible occ rest)
  end.

(** Along a ray from [s], the squares between [s] and a square of the ray
    are the squares of the ray before it ([seen] collects them). *)
Fixpoint ray_check (rays : list (list Bitboard)) (s : Square) (seen : Bitboard)
    (l : list Square) : bool :=
  match l with
  | [] => true
  | q :: rest =>
      (0 <=? q) && (q <? 64) && (between_in rays s q =? seen)
      && ray_check rays s (Z.lor seen (2 ^ q)) rest
  end.

(** The squares on a common diagonal, rank or file with a square, that
    square left out. *)
Definition on_diagonal (s t : Square) : bool :=
  negb (s =? t)
  && (Z.abs (square_file s - square_file t) =? Z.abs (square_rank s - square_rank t)).

Definition on_rank (s t : Square) : bool :=
  negb (s =? t) && (square_rank s =? square_rank t).

Definition on_file (s t : Square) : bool :=
  negb (s =? t) && (square_file s =? square_file t).

(** The check run for a set of deltas and every square [s]: every walk
    ends within its fuel, the rays from [s] agree with [between], and the
    squares of the rays are those that [line] relates to [s]. *)
Definition walks_ok (rays : list (list Bitboard)) (deltas : list Z)
    (line : Square -> Square -> bool) (s : Square) : bool :=
  forallb (fun delta =>
             let l := ray_squares walk_fuel delta s in
             (List.length l <? walk_fuel)%nat && ray_check rays s 0 l) deltas
  && forallb (fun t =>
                Bool.eqb (existsb (fun delta =>
                                     existsb (Z.eqb t) (ray_squares walk_fuel delta s)) deltas)
                         (line s t)) SQUARES.

Definition all_walks_ok (deltas : list Z) (line : Square -> Square -> bool) : bool :=
  let rays := BB_RAYS in forallb (walks_ok rays deltas line) SQUARES.

Definition square_name_ok (s : Square) : bool := parse_square (square_name s) =? s.

(** ** Moves in UCI notation *)

Definition option_Z_eqb (a b : option Z) : bool :=
  match a, b with
  | Some x, Some y => x =? y
  | None, None => true
  | _, _ => false
  end.

Definition Move_eqb (a b : Move) : bool :=
  (from_square a =? from_square b) && (to_square a =? to_square b)
  && option_Z_eqb (promotion a) (promotion b) && option_Z_eqb (drop a) (drop b).

Definition returns_move (r : result Move) (m : Move) : bool :=
  match r with
  | Returns m' => Move_eqb m' m
  | Throws _ => false
  end.

Definition promotions : list (option PieceType) :=
  [None; Some PAWN; Some KNIGHT; Some BISHOP; Some ROOK; Some QUEEN; Some KING].

(** The check run on every pair of squares: a move between two different
    squares, with or without a promotion, is read back from its string;
    a move from a square to itself is refused, but for the null move. *)
Definition uci_ok (from to : Square) : bool :=
  forallb (fun promo =>
             let m := mkMove from to promo None in
             if from =? to
             then match promo with
                  | None =>
                      if from =? 0 then returns_move (Move_.from_uci (MoveOps.uci m)) m
                      else is_thrown (Move_.from_uci (MoveOps.uci m))
                  | Some _ => is_thrown (Move_.from_uci (MoveOps.uci m))
                  end
             else returns_move (Move_.from_uci (MoveOps.uci m)) m) promotions.

(** ** Splitting a string *)

(** The number of separators in a string. *)
Fixpoint separators (s : string) (sep : ascii) : nat :=
  match s with
  | EmptyString => O
  | String c rest => if Ascii.eqb c sep then S (separators rest sep) else separators rest sep
  end.

(** ** Boards built by placing and removing pieces *)

(** A change of one square of the board. *)
Inductive edit : Type :=
| SetPiece (square : Square) (piece : option Piece) (was_promoted : bool)
| RemovePiece (square : Square).

Definition edit_square (e : edit) : Square :=
  match e with
  | SetPiece square _ _ => square
  | RemovePiece square => square
  end.

Definition apply_edit (b : BaseBoard) (e : edit) : BaseBoard :=
  match e with
  | SetPiece square piece was_promoted => set_piece_at b square piece was_promoted
  | RemovePiece square => snd (remove_piece_at b square)
  end.

(** ** Attacks of the piece on a square *)

(** A pawn's capture step: one rank up the board (towards rank 8) or
    down, and one file to either side. *)
Definition pawn_step (up : bool) (s t : Square) : bool :=
  (square_rank t =? square_rank s + (if up then 1 else -1))
  && (Z.abs (square_file t - square_file s) =? 1).

Definition pawn_table_ok (up : bool) (s t : Square) : bool :=
  Bool.eqb (Z.testbit (BB_PAWN_ATTACKS up s) t) (pawn_step up s t).

(** The squares a piece of the given type attacks from [s] on a board
    with the occupancy [occ]: the capture steps of a pawn, up the board or
    down as [up] says, the steps of a knight or a king, the lines of a
    bishop, a rook or a queen as far as the first occupied square. *)
Definition piece_attacks (pt : option PieceType) (up : bool) (occ : Bitboard)
    (s t : Square) : bool :=
  match pt with
  | None => false
  | Some pt =>
      let clear := Z.land (between s t) occ =? 0 in
      if pt =? PAWN then pawn_step up s t
      else if pt =? KNIGHT then knight_step s t
      else if pt =? BISHOP then on_diagonal s t && clear
      else if pt =? ROOK then (on_rank s t || on_file s t) && clear
      else if pt =? QUEEN then (on_diagonal s t || on_rank s t || on_file s t) && clear
      else square_distance s t =? 1
  end.

(** ** The pieces that attack a square *)

(** The steps and lines between two squares read the same from either
    end; a pawn's step up the board from [s] to [t] is a step down the
    board from [t] to [s]. *)
Definition steps_symmetric_ok (rays : list (list Bitboard)) (s t : Square) : bool :=
  Bool.eqb (knight_step t s) (knight_step s t)
  && Bool.eqb (square_distance t s =? 1) (square_distance s t =? 1)
  && Bool.eqb (on_diagonal t s) (on_diagonal s t)
  && Bool.eqb (on_rank t s) (on_rank s t)
  && Bool.eqb (on_file t s) (on_file s t)
  && (between_in rays t s =? between_in rays s t)
  && Bool.eqb (pawn_step true t s) (pawn_step false s t)
  && Bool.eqb (pawn_step false t s) (pawn_step true s t).

Definition all_steps_symmetric (rays : list (list Bitboard)) : bool :=
  forallb (fun s => forallb (steps_symmetric_ok rays s) SQUARES) SQUARES.

(** ** Mirroring a board *)

(** The bits of a square with the two colours exchanged. *)
Definition swap_colours (s : square_bits) : square_bits :=
  mkBits (bit_bl s) (bit_w s) (bit_p s) (bit_n s) (bit_b s) (bit_r s) (bit_q s) (bit_k s)
         (bit_pr s) (bit_o s).

(** * Properties *)

(** ** Bitboard arithmetic *)

Lemma u64_mod x : u64 x = x mod 2 ^ 64.
Proof. unfold u64. change 0xffffffffffffffff with (Z.ones 64). apply Z.land_ones. lia. Qed.

Lemma BB_SQUARES_pow2 sq : 0 <= sq < 64 -> BB_SQUARES sq = 2 ^ sq.
Proof.
  intros H. unfold BB_SQUARES. rewrite u64_mod, Z.shiftl_1_l.
  apply Z.mod_small. split; [apply Z.pow_nonneg; lia|].
  apply Z.pow_lt_mono_r; lia.
Qed.

Lemma land_pow2 x n : 0 <= n ->
  Z.land x (2 ^ n) = if Z.testbit x n then 2 ^ n else 0.
Proof.
  intros Hn. apply Z.bits_inj'. intros i Hi.
  rewrite Z.land_spec, Z.pow2_bits_eqb by lia.
  destruct (Z.eqb_spec n i) as [->|Hne].
  - destruct (Z.testbit x i); [rewrite Z.pow2_bits_true by lia | rewrite Z.bits_0]; reflexivity.
  - rewrite andb_false_r.
    destruct (Z.testbit x n); [rewrite Z.pow2_bits_false by lia | rewrite Z.bits_0]; reflexivity.
Qed.

Lemma nonzero_land_square x sq : 0 <= sq < 64 ->
  nonzero (Z.land x (BB_SQUARES sq)) = Z.testbit x sq.
Proof.
  intros H. rewrite BB_SQUARES_pow2, land_pow2 by lia. unfold nonzero.
  destruct (Z.testbit x sq); [|reflexivity].
  destruct (Z.eqb_spec (2 ^ sq) 0) as [E|]; [|reflexivity].
  assert (0 < 2 ^ sq) by (apply Z.pow_pos_nonneg; lia). lia.
Qed.

(** ** Attack tables: the lookup against the reference walk *)

Lemma walk_stops_range delta sq : walk_stops delta sq = false -> 0 <= sq + delta < 64.
Proof.
  unfold walk_stops. intros H. apply orb_false_elim in H as [H _].
  apply negb_false_iff, andb_true_iff in H as [H1 H2]. lia.
Qed.

Lemma _sliding_walk_more_blockers fuel occ occ' delta : forall sq acc a,
  (forall q, In q (ray_inner fuel delta sq) -> Z.testbit occ q = Z.testbit occ' q) ->
  (forall q, Z.testbit occ' q = true -> Z.testbit occ q = true) ->
  _sliding_walk fuel occ' delta sq acc = Some a ->
  _sliding_walk fuel occ delta sq acc = Some a.
Proof.
  induction fuel as [|fuel IH]; intros sq acc a Hin Hsub; [discriminate|].
  cbn [_sliding_walk ray_inner] in *. fold (walk_stops delta sq) in *.
  destruct (walk_stops delta sq) eqn:Hs; [auto|].
  pose proof (walk_stops_range _ _ Hs) as Hr.
  rewrite !nonzero_land_square by lia.
  destruct (Z.testbit occ' (sq + delta)) eqn:Hb'.
  - rewrite (Hsub _ Hb'). auto.
  - destruct (Z.testbit occ (sq + delta)) eqn:Hb.
    + (* blocked only under [occ]: the square must be the last of the ray *)
      destruct (walk_stops delta (sq + delta)) eqn:Hs'.
      * intros Hw. destruct fuel; [discriminate|].
        cbn [_sliding_walk] in Hw. fold (walk_stops delta (sq + delta)) in Hw.
        rewrite Hs' in Hw. exact Hw.
      * specialize (Hin (sq + delta) (or_introl eq_refl)). congruence.
    + destruct (walk_stops delta (sq + delta)) eqn:Hs'.
      * intros Hw. destruct fuel; [discriminate|].
        cbn [_sliding_walk] in *. fold (walk_stops delta (sq + delta)) in *.
        rewrite Hs' in *. exact Hw.
      * apply IH; [|exact Hsub]. intros q Hq. apply Hin. right. exact Hq.
Qed.

Lemma _sliding_deltas_more_blockers s occ occ' : forall deltas acc a,
  (forall delta q, In delta deltas -> In q (ray_inner walk_fuel delta s) ->
     Z.testbit occ q = Z.testbit occ' q) ->
  (forall q, Z.testbit occ' q = true -> Z.testbit occ q = true) ->
  _sliding_deltas s occ' deltas acc = Some a ->
  _sliding_deltas s occ deltas acc = Some a.
Proof.
  induction deltas as [|delta rest IH]; intros acc a Hin Hsub; [auto|].
  cbn [_sliding_deltas].
  destruct (_sliding_walk walk_fuel occ' delta s acc) as [acc'|] eqn:Hw; [|discriminate].
  assert (Hray : forall q, In q (ray_inner walk_fuel delta s) ->
                        Z.testbit occ q = Z.testbit occ' q).
  { intros q Hq. apply (Hin delta q); [left; reflexivity | exact Hq]. }
  rewrite (_sliding_walk_more_blockers walk_fuel occ occ' delta s acc acc' Hray Hsub Hw).
  apply IH; [|exact Hsub]. intros d q Hd. apply Hin. right. exact Hd.
Qed.

Lemma land_in_submasks bits : Forall (fun i => 0 <= i) bits ->
  forall x, In (Z.land (mask_of bits) x) (submasks bits).
Proof.
  induction 1 as [|i rest Hi _ IH]; intros x; cbn [mask_of submasks].
  - left. reflexivity.
  - rewrite Z.land_lor_distr_l, (Z.land_comm (2 ^ i)), land_pow2 by lia.
    apply in_or_app. destruct (Z.testbit x i).
    + right. apply in_map, IH.
    + left. rewrite Z.lor_0_l. apply IH.
Qed.

Lemma SQUARES_nonneg : Forall (fun i => 0 <= i) SQUARES.
Proof.
  apply Forall_forall. intros i Hi.
  apply in_map_iff in Hi as (n & <- & _). lia.
Qed.

Lemma Forall_filter_keeps {A} (P : A -> Prop) (f : A -> bool) (l : list A) :
  Forall P l -> Forall P (filter f l).
Proof.
  induction 1 as [|x l Hx _ IH]; cbn [filter]; [constructor|].
  destruct (f x); [constructor; assumption | assumption].
Qed.

Lemma mask_bits_nonneg mask : Forall (fun i => 0 <= i) (mask_bits mask).
Proof. exact (Forall_filter_keeps _ _ _ SQUARES_nonneg). Qed.

Lemma row_ok_lookup deltas s mask m O :
  0 <= s < 64 ->
  _attack_table_row deltas s = Some (mask, m) ->
  row_ok deltas s = true ->
  exists a, umap_at m (Z.land mask O) = Some a /\ _sliding_attacks s O deltas = Some a.
Proof.
  intros Hs Hrow Hok. unfold row_ok in Hok. rewrite Hrow in Hok.
  apply andb_true_iff in Hok as [Hok Hrays].
  apply andb_true_iff in Hok as [Hmask Hkeys].
  apply Z.eqb_eq in Hmask.
  rewrite forallb_forall in Hkeys.
  pose proof (land_in_submasks _ (mask_bits_nonneg mask) O) as Hin.
  rewrite Hmask in Hin. specialize (Hkeys _ Hin).
  destruct (umap_at m (Z.land mask O)) as [a|]; [|discriminate].
  destruct (_sliding_attacks s (Z.land mask O) deltas) as [a'|] eqn:Hsl; [|discriminate].
  apply Z.eqb_eq in Hkeys. subst a'.
  exists a. split; [reflexivity|].
  unfold _sliding_attacks in *.
  apply _sliding_deltas_more_blockers with (occ' := Z.land mask O); auto.
  - intros delta q Hd Hq. rewrite forallb_forall in Hrays.
    specialize (Hrays _ Hd). rewrite forallb_forall in Hrays.
    rewrite Z.land_spec, (Hrays _ Hq). reflexivity.
  - intros q. rewrite Z.land_spec. intros H. apply andb_true_iff in H. tauto.
Qed.

Lemma _attack_table_rows_nth deltas : forall squares masks maps,
  _attack_table_rows deltas squares = Some (masks, maps) ->
  forall i s, nth_error squares i = Some s ->
  exists mask m, _attack_table_row deltas s = Some (mask, m)
    /\ nth_error masks i = Some mask /\ nth_error maps i = Some m.
Proof.
  induction squares as [|sq rest IH]; intros masks maps H i s Hi.
  - destruct i; discriminate.
  - cbn [_attack_table_rows] in H.
    destruct (_attack_table_row deltas sq) as [[mask m]|] eqn:Hrow; [|discriminate].
    destruct (_attack_table_rows deltas rest) as [[ms ts]|] eqn:Hrest; [|discriminate].
    injection H as <- <-. destruct i as [|i]; cbn [nth_error] in *.
    + injection Hi as <-. eauto.
    + eapply IH; eauto.
Qed.

Lemma SQUARES_nth s : 0 <= s < 64 -> nth_error SQUARES (Z.to_nat s) = Some s.
Proof.
  intros H. unfold SQUARES. rewrite nth_error_map, nth_error_nth' with (d := 0%nat).
  - rewrite seq_nth by lia. cbn. f_equal. lia.
  - rewrite length_seq. lia.
Qed.

Lemma row_ok_built deltas s : row_ok deltas s = true -> _attack_table_row deltas s <> None.
Proof. unfold row_ok. destruct (_attack_table_row deltas s); [discriminate | intros H; discriminate H]. Qed.

Lemma _attack_table_rows_built deltas : forall squares,
  (forall s, In s squares -> _attack_table_row deltas s <> None) ->
  _attack_table_rows deltas squares <> None.
Proof.
  induction squares as [|sq rest IH]; intros H; cbn [_attack_table_rows]; [discriminate|].
  destruct (_attack_table_row deltas sq) as [[mask m]|] eqn:Hrow.
  - destruct (_attack_table_rows deltas rest) as [[ms ts]|] eqn:Hrest; [discriminate|].
    exfalso. apply IH; [|reflexivity]. intros s Hs. apply H. right. exact Hs.
  - exfalso. apply (H sq); [left; reflexivity | exact Hrow].
Qed.

Lemma _attack_table_built deltas : rows_ok deltas = true -> _attack_table deltas <> None.
Proof.
  intros Hok. apply _attack_table_rows_built. intros s Hs. apply row_ok_built.
  unfold rows_ok in Hok. rewrite forallb_forall in Hok. auto.
Qed.

Lemma table_lookup_matches pair deltas s O :
  pair = _attack_table deltas ->
  rows_ok deltas = true ->
  0 <= s < 64 ->
  lookup_matches pair deltas s O.
Proof.
  intros -> Hok Hs. unfold lookup_matches.
  pose proof (_attack_table_built deltas Hok) as Hsome.
  destruct (_attack_table deltas) as [[masks maps]|] eqn:Ht; [|congruence].
  destruct (_attack_table_rows_nth _ _ _ _ Ht _ _ (SQUARES_nth s Hs))
    as (mask & m & Hrow & Hmask & Hmap).
  unfold rows_ok in Hok. rewrite forallb_forall in Hok.
  assert (Hin : In s SQUARES) by (eapply nth_error_In, SQUARES_nth; exact Hs).
  destruct (row_ok_lookup deltas s mask m O Hs Hrow (Hok _ Hin)) as (a & Ha & Hsl).
  exists (masks, maps), a. split; [reflexivity|]. split; [|exact Hsl].
  unfold table_lookup, table_mask, table_attacks_at. cbn [fst snd].
  rewrite Hmask, Hmap. exact Ha.
Qed.

Lemma rows_ok_DIAG : rows_ok _DIAG = true.
Proof. vm_compute. reflexivity. Qed.

Lemma rows_ok_FILE : rows_ok _FILE = true.
Proof. vm_compute. reflexivity. Qed.

Lemma rows_ok_RANK : rows_ok _RANK = true.
Proof. vm_compute. reflexivity. Qed.

Lemma _DIAG_PAIR_eq : _DIAG_PAIR = _attack_table _DIAG.
Proof. reflexivity. Qed.

Lemma _FILE_PAIR_eq : _FILE_PAIR = _attack_table _FILE.
Proof. reflexivity. Qed.

Lemma _RANK_PAIR_eq : _RANK_PAIR = _attack_table _RANK.
Proof. reflexivity. Qed.

(** C7. For every square [s] and every occupancy [O], each of the three
    tables is built, and its runtime lookup, the map of [s] read at the
    key [O & mask(s)], holds the bitboard the reference algorithm
    [_sliding_attacks(s, O, deltas)] returns for the deltas of that
    table: diagonals, ranks and files. *)
Theorem attack_table_lookup_matches_sliding_attacks (s : Square) (O : Bitboard) :
  0 <= s < 64 -> 0 <= O < 2 ^ 64 ->
  lookup_matches _DIAG_PAIR _DIAG s O
  /\ lookup_matches _RANK_PAIR _RANK s O
  /\ lookup_matches _FILE_PAIR _FILE s O.
Proof.
  intros Hs _. split; [|split].
  - exact (table_lookup_matches _DIAG_PAIR _DIAG s O _DIAG_PAIR_eq rows_ok_DIAG Hs).
  - exact (table_lookup_matches _RANK_PAIR _RANK s O _RANK_PAIR_eq rows_ok_RANK Hs).
  - exact (table_lookup_matches _FILE_PAIR _FILE s O _FILE_PAIR_eq rows_ok_FILE Hs).
Qed.

Lemma attack_table_lookup_witness :
  lookup_matches _DIAG_PAIR _DIAG 27 0x0000201000000200
  /\ lookup_matches _RANK_PAIR _RANK 27 0x0000201000000200
  /\ lookup_matches _FILE_PAIR _FILE 27 0x0000201000000200.
Proof.
  apply (attack_table_lookup_matches_sliding_attacks 27 0x0000201000000200); lia.
Defined.

(** ** Bitboards as 64-bit values *)

Lemma wf_bb_high x i : wf_bb x -> 64 <= i -> Z.testbit x i = false.
Proof.
  intros Hx Hi. rewrite <- (Z.mod_small x (2 ^ 64)) by exact Hx.
  apply Z.mod_pow2_bits_high. lia.
Qed.

Lemma wf_bb_u64 x : wf_bb (u64 x).
Proof. unfold wf_bb. rewrite u64_mod. apply Z.mod_pos_bound. lia. Qed.

Lemma wf_bb_of_log2 x : 0 <= x -> Z.log2 x < 64 -> wf_bb x.
Proof.
  intros H0 Hl. split; [exact H0|].
  destruct (Z.eq_dec x 0) as [->|Hne]; [reflexivity|].
  apply Z.log2_lt_pow2; lia.
Qed.

Lemma wf_bb_log2 x : wf_bb x -> Z.log2 x < 64.
Proof.
  intros [H0 Hx]. destruct (Z.eq_dec x 0) as [->|Hne]; [cbn; lia|].
  apply Z.log2_lt_pow2; lia.
Qed.

Lemma wf_bb_land_l x y : wf_bb x -> 0 <= y -> wf_bb (Z.land x y).
Proof.
  intros Hx Hy. apply wf_bb_of_log2.
  - apply Z.land_nonneg. destruct Hx. lia.
  - pose proof (Z.log2_land x y ltac:(destruct Hx; lia) Hy).
    pose proof (wf_bb_log2 _ Hx). lia.
Qed.

Lemma wf_bb_lor x y : wf_bb x -> wf_bb y -> wf_bb (Z.lor x y).
Proof.
  intros Hx Hy. apply wf_bb_of_log2.
  - apply Z.lor_nonneg. destruct Hx, Hy. lia.
  - rewrite Z.log2_lor by (destruct Hx, Hy; lia).
    pose proof (wf_bb_log2 _ Hx). pose proof (wf_bb_log2 _ Hy). lia.
Qed.

Lemma wf_bb_lxor x y : wf_bb x -> wf_bb y -> wf_bb (Z.lxor x y).
Proof.
  intros Hx Hy. apply wf_bb_of_log2.
  - apply Z.lxor_nonneg. destruct Hx, Hy. lia.
  - pose proof (Z.log2_lxor x y ltac:(destruct Hx; lia) ltac:(destruct Hy; lia)).
    pose proof (wf_bb_log2 _ Hx). pose proof (wf_bb_log2 _ Hy). lia.
Qed.

Lemma wf_bb_BB_SQUARES sq : wf_bb (BB_SQUARES sq).
Proof. apply wf_bb_u64. Qed.

Lemma wf_bb_bb_not x : wf_bb (bb_not x).
Proof. apply wf_bb_u64. Qed.

Lemma testbit_BB_SQUARES sq i : 0 <= sq < 64 -> Z.testbit (BB_SQUARES sq) i = (sq =? i).
Proof. intros H. rewrite BB_SQUARES_pow2 by exact H. apply Z.pow2_bits_eqb. lia. Qed.

Lemma testbit_bb_not x i : 0 <= i ->
  Z.testbit (bb_not x) i = (i <? 64) && negb (Z.testbit x i).
Proof.
  intros Hi. unfold bb_not. rewrite u64_mod.
  destruct (Z.ltb_spec i 64).
  - rewrite Z.mod_pow2_bits_low, Z.lnot_spec by lia. reflexivity.
  - rewrite Z.mod_pow2_bits_high by lia. reflexivity.
Qed.

(** ** set_piece_at and remove_piece_at *)

Ltac bits_of H i :=
  apply (f_equal (fun z => Z.testbit z i)) in H;
  rewrite ?Z.lor_spec, ?Z.land_spec, ?Z.bits_0 in H.

Ltac name_bits :=
  repeat match goal with
         | |- context [Z.testbit ?x ?i] =>
             let v := fresh "t" in
             remember (Z.testbit x i) as v eqn:E in *; clear E
         | H : context [Z.testbit ?x ?i] |- _ =>
             let v := fresh "t" in
             remember (Z.testbit x i) as v eqn:E in *; clear E
         end.

Ltac split_ands H :=
  repeat match type of H with
         | _ && _ = true => let H' := fresh H in apply andb_true_iff in H as [H H']
         end.

Lemma invariants_pointwise b :
  invariants b <-> (forall i, 0 <= i -> square_ok (bits_at b i) = true).
Proof.
  split.
  - intros [Hc Hd Hcc Hcd Hp] i Hi.
    repeat match goal with
           | H : ForallOrdPairs _ _ |- _ => inversion H; subst; clear H
           | H : Forall _ _ |- _ => inversion H; subst; clear H
           end.
    unfold disjoint, occupied_co, WHITE, BLACK in *.
    repeat match goal with
           | H : _ = _ :> Z |- _ => bits_of H i; revert H
           end.
    unfold square_ok, bits_at. name_bits. intros.
    repeat match goal with
           | H : _ = _ :> bool |- _ => revert H
           end.
    repeat match goal with
           | t : bool |- _ => destruct t
           end; cbn; intros; congruence.
  - intros H.
    assert (Hb : forall i, 0 <= i ->
      let '(mkBits w bl p n b r q k pr o) := bits_at b i in
      p || (n || (b || (r || (q || k)))) = o
      /\ (p && n = false /\ p && b = false /\ p && r = false /\ p && q = false /\ p && k = false
          /\ n && b = false /\ n && r = false /\ n && q = false /\ n && k = false
          /\ b && r = false /\ b && q = false /\ b && k = false
          /\ r && q = false /\ r && k = false /\ q && k = false)
      /\ w || bl = o /\ w && bl = false /\ pr && o = pr).
    { intros i Hi. specialize (H i Hi). destruct (bits_at b i).
      cbn [square_ok] in H.
      repeat match goal with
             | t : bool |- _ => destruct t
             end; cbn in H; try discriminate H; cbn; repeat split; reflexivity. }
    unfold bits_at in Hb.
    split; [| repeat constructor | | |]; unfold disjoint, occupied_co, WHITE, BLACK;
      apply Z.bits_inj'; intros i Hi; specialize (Hb i Hi); cbn beta iota in Hb;
      rewrite ?Z.lor_spec, ?Z.land_spec, ?Z.bits_0; tauto.
Qed.

Arguments BB_SQUARES : simpl never.
Arguments bb_not : simpl never.

Lemma piece_type_at_bits b sq : 0 <= sq < 64 ->
  piece_type_at b sq =
    let s := bits_at b sq in
    if negb (bit_o s) then None
    else if bit_p s then Some PAWN
    else if bit_n s then Some KNIGHT
    else if bit_b s then Some BISHOP
    else if bit_r s then Some ROOK
    else if bit_q s then Some QUEEN
    else Some KING.
Proof.
  intros H. unfold piece_type_at. rewrite !nonzero_land_square by exact H. reflexivity.
Qed.

Lemma masked_bit x sq i : wf_bb x -> 0 <= sq < 64 -> 0 <= i ->
  Z.testbit (Z.land x (bb_not (BB_SQUARES sq))) i = Z.testbit x i && negb (sq =? i).
Proof.
  intros Hx Hsq Hi. rewrite Z.land_spec, testbit_bb_not, testbit_BB_SQUARES by lia.
  destruct (Z.ltb_spec i 64); [reflexivity|].
  rewrite (wf_bb_high x i) by (assumption || lia). reflexivity.
Qed.

Lemma toggled_bit x sq i : 0 <= sq < 64 ->
  Z.testbit (Z.lxor x (BB_SQUARES sq)) i = xorb (Z.testbit x i) (sq =? i).
Proof. intros Hsq. rewrite Z.lxor_spec, testbit_BB_SQUARES by lia. reflexivity. Qed.

Lemma raised_bit x sq i : 0 <= sq < 64 ->
  Z.testbit (Z.lor x (BB_SQUARES sq)) i = Z.testbit x i || (sq =? i).
Proof. intros Hsq. rewrite Z.lor_spec, testbit_BB_SQUARES by lia. reflexivity. Qed.

Ltac wf_fields :=
  repeat match goal with
         | H : wf_board _ |- _ => unfold wf_board in H
         | H : Forall _ (_ :: _) |- _ => inversion H; subst; clear H
         | H : Forall _ [] |- _ => clear H
         end.

Ltac solve_wf :=
  unfold wf_board; cbn;
  repeat (apply Forall_cons || apply Forall_nil);
  repeat first
    [ assumption
    | apply wf_bb_lxor
    | apply wf_bb_lor
    | apply wf_bb_land_l; [| apply (proj1 (wf_bb_bb_not _)) ]
    | apply wf_bb_BB_SQUARES ].

Ltac bits_leaf Hok sq :=
  cbn; split; [solve_wf|];
  let i := fresh "i" in let Hi := fresh "Hi" in
  intros i Hi; unfold no_bits;
  rewrite ?masked_bit, ?toggled_bit, ?raised_bit by (assumption || lia);
  destruct (Z.eqb_spec i sq) as [->|Hne];
  [ rewrite ?Z.eqb_refl;
    repeat match goal with
           | E : Z.testbit _ _ = _ |- _ => rewrite E in *; clear E
           end;
    cbn [negb xorb]; rewrite ?andb_false_r, ?orb_true_r;
    repeat match goal with
           | |- context [Z.testbit ?x ?j] => destruct (Z.testbit x j)
           end;
    cbn in Hok; try discriminate Hok; reflexivity
  | try match goal with
        | |- context [?a =? i] =>
            replace (a =? i) with false by (symmetry; apply Z.eqb_neq; lia)
        end;
    cbn [negb]; rewrite ?xorb_false_r, ?andb_true_r, ?orb_false_r; reflexivity ].

Lemma _remove_piece_at_bits b sq :
  wf_board b -> invariants b -> 0 <= sq < 64 ->
  wf_board (snd (_remove_piece_at b sq))
  /\ forall i, 0 <= i ->
       bits_at (snd (_remove_piece_at b sq)) i
       = if i =? sq then no_bits else bits_at b i.
Proof.
  intros Hwf Hinv Hsq.
  pose proof (proj1 (invariants_pointwise b) Hinv sq (proj1 Hsq)) as Hok.
  unfold _remove_piece_at. rewrite piece_type_at_bits by exact Hsq.
  wf_fields.
  unfold bits_at in Hok |- *. cbn [bit_o bit_p bit_n bit_b bit_r bit_q].
  destruct (Z.testbit (occupied b) sq) eqn:Eo; [|bits_leaf Hok sq].
  destruct (Z.testbit (pawns b) sq) eqn:Ep; [bits_leaf Hok sq|].
  destruct (Z.testbit (knights b) sq) eqn:En; [bits_leaf Hok sq|].
  destruct (Z.testbit (bishops b) sq) eqn:Eb; [bits_leaf Hok sq|].
  destruct (Z.testbit (rooks b) sq) eqn:Er; [bits_leaf Hok sq|].
  destruct (Z.testbit (queens b) sq) eqn:Eq; bits_leaf Hok sq.
Qed.

Lemma _remove_piece_at_preserves b sq :
  wf_board b -> invariants b -> 0 <= sq < 64 ->
  wf_board (snd (_remove_piece_at b sq)) /\ invariants (snd (_remove_piece_at b sq)).
Proof.
  intros Hwf Hinv Hsq.
  destruct (_remove_piece_at_bits b sq Hwf Hinv Hsq) as [Hwf' Hbits].
  split; [exact Hwf'|].
  apply invariants_pointwise. intros i Hi. rewrite Hbits by exact Hi.
  destruct (i =? sq); [reflexivity|].
  apply invariants_pointwise; assumption.
Qed.

Lemma placed_bits_ok piece_type color was_promoted :
  square_ok (placed_bits piece_type color was_promoted) = true.
Proof.
  unfold placed_bits.
  repeat match goal with
         | |- context [if ?c then _ else _] => destruct c
         end;
  destruct color, was_promoted; reflexivity.
Qed.

Ltac placed_leaf Hbits sq :=
  cbn; split; [solve_wf|];
  let i := fresh "i" in let Hi := fresh "Hi" in let Hb := fresh "Hb" in
  intros i Hi; pose proof (Hbits i Hi) as Hb;
  unfold bits_at, no_bits in Hb |- *; cbn;
  rewrite ?toggled_bit, ?raised_bit by (assumption || lia);
  revert Hb; destruct (Z.eqb_spec i sq) as [->|Hne]; intros Hb;
  injection Hb as -> -> -> -> -> -> -> -> -> ->;
  [ rewrite ?Z.eqb_refl; reflexivity
  | try match goal with
        | |- context [?a =? i] =>
            replace (a =? i) with false by (symmetry; apply Z.eqb_neq; lia)
        end;
    rewrite ?xorb_false_r, ?orb_false_r; reflexivity ].

Lemma _set_piece_at_bits b sq piece_type color was_promoted :
  wf_board b -> invariants b -> 0 <= sq < 64 ->
  wf_board (_set_piece_at b sq piece_type color was_promoted)
  /\ forall i, 0 <= i ->
       bits_at (_set_piece_at b sq piece_type color was_promoted) i
       = if i =? sq then placed_bits piece_type color was_promoted else bits_at b i.
Proof.
  intros Hwf Hinv Hsq.
  destruct (_remove_piece_at_bits b sq Hwf Hinv Hsq) as [Hwf' Hbits].
  unfold _set_piece_at, placed_bits.
  set (b1 := snd (_remove_piece_at b sq)) in *. clearbody b1.
  clear Hwf Hinv. wf_fields.
  destruct (piece_type =? PAWN); [destruct color, was_promoted; placed_leaf Hbits sq|].
  destruct (piece_type =? KNIGHT); [destruct color, was_promoted; placed_leaf Hbits sq|].
  destruct (piece_type =? BISHOP); [destruct color, was_promoted; placed_leaf Hbits sq|].
  destruct (piece_type =? ROOK); [destruct color, was_promoted; placed_leaf Hbits sq|].
  destruct (piece_type =? QUEEN); [destruct color, was_promoted; placed_leaf Hbits sq|].
  destruct (piece_type =? KING); [destruct color, was_promoted; placed_leaf Hbits sq|].
  split; [unfold wf_board; repeat (apply Forall_cons; [assumption|]); apply Forall_nil|].
  intros i Hi. rewrite Hbits by exact Hi. reflexivity.
Qed.

Lemma _set_piece_at_preserves b sq piece_type color was_promoted :
  wf_board b -> invariants b -> 0 <= sq < 64 ->
  wf_board (_set_piece_at b sq piece_type color was_promoted)
  /\ invariants (_set_piece_at b sq piece_type color was_promoted).
Proof.
  intros Hwf Hinv Hsq.
  destruct (_set_piece_at_bits b sq piece_type color was_promoted Hwf Hinv Hsq)
    as [Hwf' Hbits].
  split; [exact Hwf'|].
  apply invariants_pointwise. intros i Hi. rewrite Hbits by exact Hi.
  destruct (i =? sq); [apply placed_bits_ok|].
  apply invariants_pointwise; assumption.
Qed.

(** C6. On a board of 64-bit fields that satisfies the data-model
    invariants (the six piece-type bitboards pairwise disjoint with union
    [occupied], the two colour bitboards disjoint with union [occupied],
    [promoted] within [occupied]), [set_piece_at] and [remove_piece_at]
    give, for every square, optional piece (of any type value and colour)
    and promoted flag, a board of 64-bit fields that satisfies them
    again. *)
Theorem set_remove_piece_at_preserve_invariants
    (b : BaseBoard) (square : Square) (piece : option Piece) (was_promoted : bool) :
  wf_board b -> invariants b -> 0 <= square < 64 ->
  (wf_board (set_piece_at b square piece was_promoted)
   /\ invariants (set_piece_at b square piece was_promoted))
  /\ (wf_board (snd (remove_piece_at b square))
      /\ invariants (snd (remove_piece_at b square))).
Proof.
  intros Hwf Hinv Hsq. split.
  - unfold set_piece_at. destruct piece as [p|].
    + apply _set_piece_at_preserves; assumption.
    + apply _remove_piece_at_preserves; assumption.
  - unfold remove_piece_at.
    pose proof (_remove_piece_at_preserves b square Hwf Hinv Hsq) as H.
    destruct (_remove_piece_at b square) as [[pt|] b']; exact H.
Qed.

Lemma starting_position_wf : wf_board _reset_board.
Proof.
  unfold wf_board. repeat (apply Forall_cons; [vm_compute; split; [discriminate | reflexivity]|]).
  apply Forall_nil.
Qed.

Lemma starting_position_invariants : invariants _reset_board.
Proof. split; [reflexivity | repeat constructor | reflexivity | reflexivity | reflexivity]. Qed.

Lemma set_remove_piece_at_preserve_invariants_witness :
  (wf_board (set_piece_at _reset_board 12 (Some (mkPiece QUEEN BLACK)) true)
   /\ invariants (set_piece_at _reset_board 12 (Some (mkPiece QUEEN BLACK)) true))
  /\ (wf_board (snd (remove_piece_at _reset_board 12))
      /\ invariants (snd (remove_piece_at _reset_board 12))).
Proof.
  apply (set_remove_piece_at_preserve_invariants _reset_board 12
           (Some (mkPiece QUEEN BLACK)) true).
  - unfold wf_board.
    repeat (apply Forall_cons; [vm_compute; split; [discriminate | reflexivity]|]).
    apply Forall_nil.
  - split; [reflexivity | repeat constructor | reflexivity | reflexivity | reflexivity].
  - lia.
Defined.

(** ** Make and unmake *)

Lemma restore_snapshot board other :
  base (restore (_BoardState_of board) other) = base board
  /\ castling_rights (restore (_BoardState_of board) other) = castling_rights board
  /\ halfmove_clock (restore (_BoardState_of board) other) = halfmove_clock board
  /\ fullmove_number (restore (_BoardState_of board) other) = fullmove_number board
  /\ ep_square (restore (_BoardState_of board) other) = ep_square board
  /\ turn (restore (_BoardState_of board) other) = turn board.
Proof.
  destruct board as [[w bl p n b r q k pr o] cr hm fm ep t c ms st].
  repeat split.
Qed.

Lemma restore_keeps_stacks st board :
  chess960 (restore st board) = chess960 board
  /\ move_stack (restore st board) = move_stack board
  /\ _stack (restore st board) = _stack board.
Proof. repeat split. Qed.

(** C1. Whatever steps 3 to 9 of [push] do to the position (any [play]
    that leaves the two stacks alone), [pop] after [push board move]
    returns [move] and a board whose ten bitboards, [turn],
    [castling_rights], [ep_square], [halfmove_clock] and [fullmove_number]
    are those of [board]; [move_stack] and [_stack] are back to what they
    were, so to their prior length. *)
Theorem push_pop_restores
    (play : Board -> Move -> Board) (board : Board) (move : Move) :
  (forall b m, move_stack (play b m) = move_stack b) ->
  (forall b m, _stack (play b m) = _stack b) ->
  exists board',
    pop (push play board move) = Returns (move, board')
    /\ occupied_co (base board') WHITE = occupied_co (base board) WHITE
    /\ occupied_co (base board') BLACK = occupied_co (base board) BLACK
    /\ pawns (base board') = pawns (base board)
    /\ knights (base board') = knights (base board)
    /\ bishops (base board') = bishops (base board)
    /\ rooks (base board') = rooks (base board)
    /\ queens (base board') = queens (base board)
    /\ kings (base board') = kings (base board)
    /\ promoted (base board') = promoted (base board)
    /\ occupied (base board') = occupied (base board)
    /\ turn board' = turn board
    /\ castling_rights board' = castling_rights board
    /\ ep_square board' = ep_square board
    /\ halfmove_clock board' = halfmove_clock board
    /\ fullmove_number board' = fullmove_number board
    /\ move_stack board' = move_stack board
    /\ _stack board' = _stack board
    /\ List.length (move_stack board') = List.length (move_stack board).
Proof.
  intros Hmoves Hstack. unfold push, pop.
  rewrite Hmoves, Hstack. cbn [set_move_stack set__stack move_stack _stack].
  rewrite !rev_app_distr. cbn [rev app]. rewrite !rev_involutive.
  eexists. split; [reflexivity|].
  destruct board as [[w bl p n b r q k pr o] cr hm fm ep t c ms st].
  cbn. repeat split.
Qed.

Lemma play_plain_keeps_move_stack b m : move_stack (play_plain b m) = move_stack b.
Proof. reflexivity. Qed.

Lemma play_plain_keeps__stack b m : _stack (play_plain b m) = _stack b.
Proof. reflexivity. Qed.

Lemma push_pop_restores_witness :
  exists board',
    pop (push play_plain starting_board (mkMove 6 21 None None))
      = Returns (mkMove 6 21 None None, board')
    /\ base board' = base starting_board
    /\ turn board' = turn starting_board
    /\ move_stack board' = move_stack starting_board.
Proof.
  destruct (push_pop_restores play_plain starting_board (mkMove 6 21 None None)
              play_plain_keeps_move_stack play_plain_keeps__stack)
    as (board' & Hpop & Hw & Hbl & Hp & Hn & Hb & Hr & Hq & Hk & Hpr & Ho & Ht & _ & _ & _ & _ & Hms & _).
  exists board'. split; [exact Hpop|]. split; [|split; assumption].
  destruct (base board'). cbn in *. subst. reflexivity.
Defined.

(** ** The en-passant generator *)

Lemma ep_attacks_miss_rank (side : Color) (ep : Square) :
  (if side then 16 <= ep < 24 else 40 <= ep < 48) ->
  Z.land (BB_PAWN_ATTACKS (negb side) ep) (BB_RANKS (if side then 4 else 3)) = 0.
Proof.
  destruct side; intros H.
  - assert (E : ep = 16 \/ ep = 17 \/ ep = 18 \/ ep = 19 \/ ep = 20 \/ ep = 21
                \/ ep = 22 \/ ep = 23) by lia.
    repeat (destruct E as [->|E]; [reflexivity|]). subst ep. reflexivity.
  - assert (E : ep = 40 \/ ep = 41 \/ ep = 42 \/ ep = 43 \/ ep = 44 \/ ep = 45
                \/ ep = 46 \/ ep = 47) by lia.
    repeat (destruct E as [->|E]; [reflexivity|]). subst ep. reflexivity.
Qed.

(** The generator is empty whenever [ep_square] lies where a double pawn
    advance of the opponent leaves it: on rank 6 with White to move, on
    rank 3 with Black to move. *)
Lemma EPIterator_empty_behind_double_advance board from_mask to_mask ep :
  ep_square board = Some ep ->
  (if turn board then 16 <= ep < 24 else 40 <= ep < 48) ->
  EPIterator_moves board from_mask to_mask = [].
Proof.
  intros Hep Hrank. unfold EPIterator_moves, EPIterator_capturers. rewrite Hep.
  destruct (nonzero (Z.land (cpp_not (BB_SQUARES ep)) to_mask)); [reflexivity|].
  destruct (nonzero (Z.land (BB_SQUARES ep) (occupied (base board)))); [reflexivity|].
  rewrite <- Z.land_assoc, ep_attacks_miss_rank by exact Hrank.
  rewrite Z.land_0_r. reflexivity.
Qed.

(** C2. On [ep_example] the claim asks for the one move e5xd6 (36 to 43):
    [ep_square] is set and unoccupied and the white pawn on rank 5 attacks
    it.  The generator yields no move: with [WHITE] declared as [false],
    [BB_RANKS[board.turn ? 4 : 3]] is rank 4 for White (and rank 5 for
    Black), and [BB_PAWN_ATTACKS[!board.turn]] is the table of the side's
    own attacks, not of the squares it is attacked from. *)
Theorem ep_generator_misses_the_capture :
  ep_square ep_example = Some 43
  /\ Z.testbit (occupied (base ep_example)) 43 = false
  /\ claimed_ep_moves ep_example = [mkMove 36 43 None None]
  /\ EPIterator_moves ep_example BB_ALL BB_ALL = [].
Proof.
  split; [reflexivity|]. split; [reflexivity|]. split; [vm_compute; reflexivity|].
  apply EPIterator_empty_behind_double_advance with (ep := 43); [reflexivity|].
  cbn. lia.
Qed.

(** ** king *)

Lemma msb_BB_SQUARES sq : 0 <= sq < 64 -> msb (BB_SQUARES sq) = 63 - sq.
Proof.
  intros H. rewrite BB_SQUARES_pow2 by exact H. unfold msb, __builtin_clzll.
  assert (Hpos : 0 < 2 ^ sq) by (apply Z.pow_pos_nonneg; lia).
  destruct (2 ^ sq) as [|p|p] eqn:E; try lia.
  rewrite <- E, Z.log2_pow2 by lia. reflexivity.
Qed.

Lemma nonzero_BB_SQUARES sq : 0 <= sq < 64 -> nonzero (BB_SQUARES sq) = true.
Proof.
  intros H. rewrite BB_SQUARES_pow2 by exact H. unfold nonzero.
  assert (0 < 2 ^ sq) by (apply Z.pow_pos_nonneg; lia).
  destruct (Z.eqb_spec (2 ^ sq) 0); [lia | reflexivity].
Qed.

(** C3. When the colour has exactly one non-promoted king, on square
    [sq], [king] returns [63 - sq], never [sq]: [msb] is
    [__builtin_clzll], the count of leading zeros, not the index of the
    highest set bit.  When the colour has no non-promoted king, [king]
    returns absent. *)
Theorem king_returns_leading_zero_count (b : BaseBoard) (color : Color) (sq : Square) :
  0 <= sq < 64 ->
  Z.land (Z.land (occupied_co b color) (kings b)) (bb_not (promoted b)) = BB_SQUARES sq ->
  king b color = Some (63 - sq) /\ king b color <> Some sq.
Proof.
  intros Hsq Hmask. unfold king. rewrite Hmask, nonzero_BB_SQUARES, msb_BB_SQUARES by exact Hsq.
  split; [reflexivity|]. intros E. injection E as E. change (63 - sq = sq :> Z) in E. lia.
Qed.

Lemma king_absent_without_king (b : BaseBoard) (color : Color) :
  Z.land (Z.land (occupied_co b color) (kings b)) (bb_not (promoted b)) = 0 ->
  king b color = None.
Proof. intros H. unfold king. rewrite H. reflexivity. Qed.

Lemma king_of_starting_position :
  piece_type_at _reset_board 4 = Some KING
  /\ king _reset_board WHITE = Some 59
  /\ king _reset_board WHITE <> Some 4.
Proof.
  split; [reflexivity|].
  apply (king_returns_leading_zero_count _reset_board WHITE 4); [lia | reflexivity].
Defined.

(** ** HashCounter *)

Section HashCounterFacts.

Variable Hashable : Type.
Variable eqb : Hashable -> Hashable -> bool.
Hypothesis eqb_eq : forall a b, eqb a b = true <-> a = b.

Local Abbreviation contains := (HashCounter.contains Hashable eqb).
Local Abbreviation get := (HashCounter.get Hashable eqb).
Local Abbreviation increment := (HashCounter.increment Hashable eqb).
Local Abbreviation add := (HashCounter.add Hashable eqb).
Local Abbreviation count := (HashCounter.count Hashable eqb).
Local Abbreviation occurrences := (occurrences Hashable eqb).
Local Abbreviation counts := (counts Hashable eqb).

Lemma occurrences_nonneg keys key : 0 <= occurrences keys key.
Proof. induction keys as [|k rest IH]; cbn; [lia|]. destruct (eqb k key); lia. Qed.

Lemma occurrences_app keys keys' key :
  occurrences (keys ++ keys') key = occurrences keys key + occurrences keys' key.
Proof. induction keys as [|k rest IH]; cbn; [reflexivity|]. rewrite IH. lia. Qed.

Lemma eqb_refl a : eqb a a = true.
Proof. apply eqb_eq. reflexivity. Qed.

Lemma eqb_trans_neq a b c : eqb a b = true -> eqb a c = eqb b c.
Proof. intros H. apply eqb_eq in H. subst. reflexivity. Qed.

Lemma contains_increment m x k : contains (increment m x) k = contains m k.
Proof.
  induction m as [|[k' v] rest IH]; cbn; [reflexivity|].
  destruct (eqb k' x); cbn; [reflexivity|]. rewrite IH. reflexivity.
Qed.

Lemma get_increment m x k :
  contains m x = true ->
  get (increment m x) k = get m k + (if eqb x k then 1 else 0).
Proof.
  induction m as [|[k' v] rest IH]; cbn; [discriminate|].
  destruct (eqb k' x) eqn:Ex; cbn.
  - intros _. rewrite (eqb_trans_neq _ _ k Ex).
    destruct (eqb x k); lia.
  - intros Hc. destruct (eqb k' k) eqn:Ek.
    + destruct (eqb x k) eqn:Exk; [|lia].
      apply eqb_eq in Ek, Exk. subst. rewrite eqb_refl in Ex. discriminate.
    + apply IH. exact Hc.
Qed.

Lemma counts_add m keys x : counts m keys -> counts (add m x) (keys ++ [x]).
Proof.
  intros H k. destruct (H k) as [Hc Hg]. destruct (H x) as [Hcx Hgx].
  rewrite occurrences_app. cbn [occurrences]. rewrite Z.add_0_r.
  unfold HashCounter.add.
  pose proof (occurrences_nonneg keys k). pose proof (occurrences_nonneg keys x).
  destruct (contains m x) eqn:Ecx.
  - rewrite contains_increment, get_increment by exact Ecx. split.
    + rewrite Hc. destruct (eqb x k) eqn:Exk; [|rewrite Z.add_0_r; reflexivity].
      apply eqb_eq in Exk. subst k. symmetry in Hcx. apply Z.ltb_lt in Hcx.
      destruct (Z.ltb_spec 0 (occurrences keys x));
        destruct (Z.ltb_spec 0 (occurrences keys x + 1)); try reflexivity; lia.
    + intros Hk. rewrite (Hg Hk). destruct (eqb x k); lia.
  - cbn [HashCounter.contains HashCounter.get].
    destruct (eqb x k) eqn:Exk; cbn [orb].
    + apply eqb_eq in Exk. subst k. symmetry in Hcx. apply Z.ltb_ge in Hcx.
      split; [|intros _; lia].
      destruct (Z.ltb_spec 0 (occurrences keys x + 1)); [reflexivity | lia].
    + rewrite Z.add_0_r. split; [exact Hc | exact Hg].
Qed.

Lemma counts_fold keys : forall m seen,
  counts m seen -> counts (fold_left add keys m) (seen ++ keys).
Proof.
  induction keys as [|x rest IH]; intros m seen H; cbn [fold_left].
  - rewrite app_nil_r. exact H.
  - replace (seen ++ x :: rest) with ((seen ++ [x]) ++ rest)
      by (rewrite <- app_assoc; reflexivity).
    apply IH, counts_add, H.
Qed.

(** [count] is one short: after the keys of [keys] have been added, a key
    that occurs [n > 0] times among them has the count [n - 1]. *)
Lemma count_is_one_short keys key :
  count (fold_left add keys (HashCounter.empty Hashable)) key
  = Z.max 0 (occurrences keys key - 1).
Proof.
  assert (H0 : counts (HashCounter.empty Hashable) []).
  { intros k. cbn. split; [reflexivity | discriminate]. }
  destruct (counts_fold keys _ _ H0 key) as [Hc Hg]. cbn [app] in *.
  unfold HashCounter.count. pose proof (occurrences_nonneg keys key).
  destruct (contains (fold_left add keys (HashCounter.empty Hashable)) key).
  - rewrite Hg by reflexivity. symmetry in Hc. apply Z.ltb_lt in Hc. lia.
  - symmetry in Hc. apply Z.ltb_ge in Hc. lia.
Qed.

End HashCounterFacts.

(** ** Threefold repetition *)

(** C4. After [Nf3 Nf6 Ng1 Ng8 Nf3 Nf6 Ng1 Ng8] from the starting position
    the position on the board is the starting position with White to
    move, its key has occurred 3 times in the game, and
    [can_claim_threefold_repetition] returns false: [HashCounter::add]
    enters a new key with the count 0, so three occurrences count as 2,
    below the threshold of 3, and no legal move reaches a key whose count
    is 2. *)
Theorem threefold_not_claimed_after_knight_dance :
  base after_knight_dance = base starting_board
  /\ turn after_knight_dance = WHITE
  /\ occurrences Key Key_eqb
       (map plain_key (positions starting_board knight_dance))
       (plain_key after_knight_dance) = 3
  /\ can_claim_plain after_knight_dance = Returns false.
Proof. vm_compute. repeat split. Qed.

Lemma list_eqb_eq x : forall y, list_eqb x y = true <-> x = y.
Proof.
  induction x as [|a x IH]; intros [|b y]; cbn; split; intros H;
    try reflexivity; try discriminate.
  - apply andb_true_iff in H as [Hab Hxy]. apply Z.eqb_eq in Hab. apply IH in Hxy.
    subst. reflexivity.
  - injection H as -> ->. rewrite Z.eqb_refl. apply IH. reflexivity.
Qed.

Lemma option_eqb_eq x y : option_eqb x y = true <-> x = y.
Proof.
  destruct x as [a|], y as [b|]; cbn; split; intros H;
    try reflexivity; try discriminate.
  - apply Z.eqb_eq in H. subst. reflexivity.
  - injection H as ->. apply Z.eqb_refl.
Qed.

Lemma Key_eqb_eq (x y : Key) : Key_eqb x y = true <-> x = y.
Proof.
  destruct x as [[[bbs t] cr] ep], y as [[[bbs' t'] cr'] ep']. cbn. split.
  - intros H. apply andb_true_iff in H as [H Hep]. apply andb_true_iff in H as [H Hcr].
    apply andb_true_iff in H as [Hbbs Ht].
    apply list_eqb_eq in Hbbs. apply Bool.eqb_prop in Ht. apply Z.eqb_eq in Hcr.
    apply option_eqb_eq in Hep. subst. reflexivity.
  - intros H. injection H as -> -> -> ->.
    rewrite (proj2 (list_eqb_eq bbs' bbs') eq_refl), Bool.eqb_reflx, Z.eqb_refl,
      (proj2 (option_eqb_eq ep' ep') eq_refl). reflexivity.
Qed.

(** The counter of [can_claim_threefold_repetition] reports a key that has
    occurred three times as 2. *)
Lemma third_occurrence_counts_as_two (keys : list Key) (key : Key) :
  occurrences Key Key_eqb keys key = 3 ->
  HashCounter.count Key Key_eqb
    (fold_left (HashCounter.add Key Key_eqb) keys (HashCounter.empty Key)) key = 2.
Proof.
  intros H. rewrite (count_is_one_short Key Key_eqb Key_eqb_eq), H. reflexivity.
Qed.

(** The same reading for every way of filling in the members the
    translation unit leaves undefined. *)

Section RepetitionFacts.

Variable play : Board -> Move -> Board.
Variable clean_castling_rights : Board -> Bitboard.
Variable has_legal_en_passant : Board -> bool.
Variable is_irreversible : Board -> Move -> bool.
Variable generate_legal_moves : Board -> list Move.

Local Abbreviation key := (_transposition_key clean_castling_rights has_legal_en_passant).
Local Abbreviation add := (HashCounter.add Key Key_eqb).
Local Abbreviation count := (HashCounter.count Key Key_eqb).
Local Abbreviation counted_boards := (counted_boards is_irreversible).
Local Abbreviation counted_keys :=
  (counted_keys clean_castling_rights has_legal_en_passant is_irreversible).

Lemma count_positions_adds fuel : forall board switchyard t board' switchyard' t',
  count_positions clean_castling_rights has_legal_en_passant is_irreversible
    fuel board switchyard t = Returns (board', switchyard', t') ->
  t' = fold_left add (map key (counted_boards fuel board)) t.
Proof.
  induction fuel as [|fuel IH]; intros board switchyard t board' switchyard' t' H;
    cbn [count_positions counted_boards] in *; [discriminate|].
  destruct (move_stack board) as [|m ms].
  - injection H as <- <- <-. reflexivity.
  - destruct (pop board) as [[move popped]|e]; cbn [bind] in H; [|discriminate].
    destruct (is_irreversible popped move).
    + injection H as <- <- <-. reflexivity.
    + cbn [map fold_left]. eapply IH. exact H.
Qed.

Lemma probe_moves_true t : forall lmoves board,
  probe_moves play clean_castling_rights has_legal_en_passant board lmoves t
    = Returns true ->
  exists probed move, In move lmoves /\ 2 <= count t (key (push play probed move)).
Proof.
  induction lmoves as [|move rest IH]; intros board H; cbn [probe_moves] in H;
    [discriminate|].
  destruct (pop (push play board move)) as [popped|e]; cbn [bind] in H; [|discriminate].
  destruct (2 <=? count t (key (push play board move))) eqn:E.
  - exists board, move. split; [left; reflexivity | apply Z.leb_le; exact E].
  - destruct (IH _ H) as (probed & m & Hin & Hc).
    exists probed, m. split; [right; exact Hin | exact Hc].
Qed.

(** Whenever [can_claim_threefold_repetition] returns true, the current
    key has occurred at least 4 times among the counted positions, or a
    probed move reaches a key that has occurred at least 3 times: one
    more than the thresholds 3 and 2 of the specification. *)
Lemma can_claim_threefold_needs_one_more (board : Board) :
  can_claim_threefold_repetition play clean_castling_rights has_legal_en_passant
    is_irreversible generate_legal_moves board = Returns true ->
  4 <= occurrences Key Key_eqb (counted_keys board) (key board)
  \/ exists probed move,
       3 <= occurrences Key Key_eqb (counted_keys board) (key (push play probed move)).
Proof.
  unfold can_claim_threefold_repetition. intros H.
  destruct (count_positions _ _ _ _ board [] _) as [[[board' switchyard] t]|e] eqn:Hc;
    cbn [bind] in H; [|discriminate].
  apply count_positions_adds in Hc.
  assert (Ht : t = fold_left add (counted_keys board) (HashCounter.empty Key))
    by (subst t; reflexivity).
  clear Hc.
  assert (Hcount : forall k, count t k
                   = Z.max 0 (occurrences Key Key_eqb (counted_keys board) k - 1)).
  { intros k. rewrite Ht. apply (count_is_one_short Key Key_eqb Key_eqb_eq). }
  destruct (3 <=? count t (key board)) eqn:E.
  - left. apply Z.leb_le in E. rewrite Hcount in E. lia.
  - right. apply probe_moves_true in H as (probed & move & _ & Hp).
    exists probed, move. rewrite Hcount in Hp. lia.
Qed.

End RepetitionFacts.

(** ** Chess960 *)

Lemma rank_guard_always_taken x r :
  nonzero (Z.lor (cpp_ne x r) BB_RANK_2) = true
  /\ nonzero (Z.lor (cpp_ne x r) BB_RANK_8) = true
  /\ nonzero (Z.lor (cpp_ne x r) BB_RANK_7) = true.
Proof. unfold cpp_ne. destruct (x =? r); repeat split. Qed.

(** [chess960_pos] answers absent on every board: its first condition
    parses as [(occupied_co[WHITE] != BB_RANK_1) | BB_RANK_2], which is
    never zero. *)
Lemma chess960_pos_always_absent (b : BaseBoard) : chess960_pos b = None.
Proof.
  unfold chess960_pos.
  rewrite (proj1 (rank_guard_always_taken (occupied_co b WHITE) BB_RANK_1)).
  reflexivity.
Qed.

Lemma set_chess960_pos_returns (b : BaseBoard) (n : Z) :
  0 <= n <= 959 -> exists b', set_chess960_pos b n = Returns b'.
Proof.
  intros H. unfold set_chess960_pos, _set_chess960_pos.
  replace ((0 <=? n) && (n <=? 959)) with true
    by (symmetry; apply andb_true_iff; split; [apply Z.leb_le | apply Z.leb_le]; lia).
  cbn [negb].
  destruct (chess960_n1_n2 5 _ 0 0) as [n1 n2].
  destruct (fold_left chess960_knights_step _ _) as [[[kn used] n1'] n2'].
  repeat match goal with
         | |- context [match first_free_file ?u ?k with _ => _ end] =>
             destruct (first_free_file u k)
         end;
  eexists; reflexivity.
Qed.

(** C5. For every [n] in [0, 959], [set_chess960_pos(n)] returns, and
    [chess960_pos] on the board it leaves answers absent, not [n]: there
    is no round trip. *)
Theorem chess960_round_trip_fails (b : BaseBoard) (n : Z) :
  0 <= n <= 959 ->
  exists b', set_chess960_pos b n = Returns b'
             /\ chess960_pos b' = None
             /\ chess960_pos b' <> Some n.
Proof.
  intros H. destruct (set_chess960_pos_returns b n H) as [b' Hb'].
  exists b'. split; [exact Hb'|]. rewrite chess960_pos_always_absent.
  split; [reflexivity | discriminate].
Qed.

Lemma chess960_round_trip_fails_witness :
  exists b', set_chess960_pos _clear_board 518 = Returns b'
             /\ chess960_pos b' = None
             /\ chess960_pos b' <> Some 518.
Proof. apply (chess960_round_trip_fails _clear_board 518). lia. Defined.

(** The board [set_chess960_pos(518)] leaves is not the standard
    arrangement that carries the number 518: with [n2 = n + (3 - n1) * (4 - n1)]
    the knights loop places one knight per side, on the h-file, and the
    g-file stays empty. *)
Lemma set_chess960_pos_518 :
  exists b', set_chess960_pos _clear_board 518 = Returns b'
             /\ knights b' = Z.lor BB_H1 BB_H8
             /\ knights _reset_board = Z.lor (Z.lor (Z.lor BB_B1 BB_G1) BB_B8) BB_G8
             /\ kings b' = Z.lor BB_B1 BB_B8.
Proof. eexists. vm_compute. repeat split. Qed.

Lemma chess960_arrangements_checked :
  forallb (fun n => match set_chess960_pos _clear_board n with
                    | Returns b => chess960_arrangement_ok b
                    | Throws _ => false
                    end) chess960_numbers = true.
Proof. vm_compute. reflexivity. Qed.

(** The part of the claim on the arrangement holds: for every [n] in
    [0, 959] the board [set_chess960_pos(n)] leaves has one king per side
    on the back rank, bishops on opposite colours and the king between
    the rooks. *)
Lemma set_chess960_pos_arrangement (n : Z) :
  0 <= n <= 959 ->
  exists b, set_chess960_pos _clear_board n = Returns b
            /\ chess960_arrangement_ok b = true.
Proof.
  intros H. pose proof chess960_arrangements_checked as Hall.
  rewrite forallb_forall in Hall.
  assert (Hin : In n chess960_numbers).
  { unfold chess960_numbers. apply in_map_iff. exists (Z.to_nat n).
    split; [lia | apply in_seq; lia]. }
  specialize (Hall n Hin).
  destruct (set_chess960_pos _clear_board n) as [b|e]; [|discriminate].
  exists b. split; [reflexivity | exact Hall].
Qed.

(** ** Move.from_uci *)

Local Open Scope string_scope.

(** C8. ["0000"] gives the null move.  The lowercase move [e2e4] is
    refused: [SQUARE_NAMES] holds uppercase names, so both lookups give
    64 and the test [from_square == to_square] throws.  The uppercase
    [E2E4] is taken, with the positions of the names in [SQUARE_NAMES]
    (33 and 35, the table runs file by file), not the squares 12 and 28.
    An unknown square name next to a known one does not throw
    ([A1zz] gives a move to 64); a length outside 4..5 and equal squares
    do. *)
Theorem from_uci_on_square_names :
  Move_.from_uci "0000" = Returns Move_.null
  /\ Move_.from_uci "e2e4"
     = Throws (invalid_argument "invalid uci (use 0000 for null moves): e2e4")
  /\ Move_.from_uci "e2e4" <> Returns (mkMove (named_square 4 1) (named_square 4 3) None None)
  /\ Move_.from_uci "E2E4" = Returns (mkMove 33 35 None None)
  /\ Move_.from_uci "A1zz" = Returns (mkMove 0 64 None None)
  /\ Move_.from_uci "e2e"
     = Throws (invalid_argument "expected uci string to be of length 4 or 5: e2e")
  /\ Move_.from_uci "E2E2"
     = Throws (invalid_argument "invalid uci (use 0000 for null moves): E2E2").
Proof. repeat split; try reflexivity. discriminate. Qed.

(** No lowercase square name is in [SQUARE_NAMES]. *)
Lemma lowercase_names_unknown :
  forallb (fun file => forallb (fun rank =>
             Z.eqb (index SQUARE_NAMES (String file (String rank EmptyString))) 64)
           ["1"; "2"; "3"; "4"; "5"; "6"; "7"; "8"]%char)
          ["a"; "b"; "c"; "d"; "e"; "f"; "g"; "h"]%char = true.
Proof. reflexivity. Qed.

(** Every move written with two lowercase square names is refused. *)
Lemma from_uci_refuses_lowercase_names :
  forallb (fun from => forallb (fun to => is_thrown (Move_.from_uci (from ++ to)))
                               lowercase_square_names)
          lowercase_square_names = true.
Proof. vm_compute. reflexivity. Qed.

Local Close Scope string_scope.

(** ** SquareSet.pop *)

(** C9. [pop] never throws: on the empty set it returns normally, with
    whatever [lsb(0)] gives as the square and the set still empty. *)
Theorem pop_of_empty_set_returns :
  (forall s, exists square s', SquareSet.pop s = Returns (square, s'))
  /\ exists square,
       SquareSet.pop (SquareSet.SquareSet BB_EMPTY)
       = Returns (square, SquareSet.SquareSet BB_EMPTY).
Proof.
  split.
  - intros s. eexists. eexists. reflexivity.
  - eexists. reflexivity.
Qed.

Lemma pos_ctz_nonneg p : 0 <= pos_ctz p.
Proof. induction p; cbn [pos_ctz]; lia. Qed.

Lemma pos_ctz_testbit p : Z.testbit (Zpos p) (pos_ctz p) = true.
Proof.
  induction p as [q IH|q IH|]; cbn [pos_ctz]; try reflexivity.
  pose proof (pos_ctz_nonneg q).
  change (Zpos q~0) with (2 * Zpos q).
  replace (1 + pos_ctz q) with (Z.succ (pos_ctz q)) by lia.
  rewrite Z.testbit_even_succ by lia. exact IH.
Qed.

Lemma pos_clear_lowest p :
  Z.land (Zpos p) (Zpos p - 1) = Zpos p - 2 ^ pos_ctz p.
Proof.
  induction p as [q IH|q IH|]; cbn [pos_ctz]; try reflexivity.
  - change (Zpos q~1) with (2 * Zpos q + 1).
    replace (2 * Zpos q + 1 - 1) with (2 * Zpos q) by lia.
    replace (2 * Zpos q + 1 - 2 ^ 0) with (2 * Zpos q) by (cbn; lia).
    apply Z.bits_inj'. intros i Hi. rewrite Z.land_spec.
    destruct (Z.eq_dec i 0) as [->|Hne].
    + rewrite Z.testbit_even_0. apply andb_false_r.
    + replace i with (Z.succ (i - 1)) by lia.
      rewrite Z.testbit_odd_succ, Z.testbit_even_succ by lia. apply andb_diag.
  - pose proof (pos_ctz_nonneg q).
    change (Zpos q~0) with (2 * Zpos q).
    replace (2 * Zpos q - 1) with (2 * (Zpos q - 1) + 1) by lia.
    replace (2 * Zpos q - 2 ^ (1 + pos_ctz q)) with (2 * (Zpos q - 2 ^ pos_ctz q))
      by (rewrite Z.pow_add_r by lia; change (2 ^ 1) with 2;
          generalize (2 ^ pos_ctz q); intros; lia).
    rewrite <- IH.
    apply Z.bits_inj'. intros i Hi. rewrite Z.land_spec.
    destruct (Z.eq_dec i 0) as [->|Hne].
    + rewrite !Z.testbit_even_0. reflexivity.
    + replace i with (Z.succ (i - 1)) by lia.
      rewrite Z.testbit_odd_succ, !Z.testbit_even_succ, Z.land_spec by lia.
      reflexivity.
Qed.

(** On a non-empty set [pop] does what the claim says: it returns the
    lowest square of the set and takes it out. *)
Lemma pop_of_nonempty_set (s : SquareSet.t) :
  wf_bb (SquareSet.mask s) -> SquareSet.mask s <> 0 ->
  exists square s',
    SquareSet.pop s = Returns (square, s')
    /\ Z.testbit (SquareSet.mask s) square = true
    /\ SquareSet.mask s' = SquareSet.mask s - 2 ^ square.
Proof.
  intros [H0 H64] Hne. destruct s as [m]. cbn [SquareSet.mask] in *.
  unfold SquareSet.pop. cbn [SquareSet.mask].
  exists (lsb m), (SquareSet.SquareSet (Z.land m (u64 (m - 1)))).
  split; [reflexivity|].
  destruct m as [|p|p]; try lia.
  unfold lsb, __builtin_ctzll. split; [apply pos_ctz_testbit|].
  cbn [SquareSet.mask]. rewrite u64_mod, Z.mod_small by lia.
  apply pos_clear_lowest.
Qed.

(** ** piece_at and color_at *)

(** The conversion to [Color] of the bits of [x] under the mask of one
    square: only the mask of square 0 has a lowest bit. *)
Lemma Color_of_int_land_square x sq : 0 <= sq < 64 ->
  Color_of_int (Z.land x (BB_SQUARES sq)) = (sq =? 0) && Z.testbit x 0.
Proof.
  intros H. unfold Color_of_int.
  rewrite Z.land_spec, testbit_BB_SQUARES by exact H. apply andb_comm.
Qed.

(** The colour [piece_at] gives to the piece it finds. *)
Lemma piece_at_color (b : BaseBoard) (square : Square) (p : Piece) :
  0 <= square < 64 -> piece_at b square = Some p ->
  piece_type_at b square = Some (piece_type p)
  /\ color p = (square =? 0) && Z.testbit (occupied_co b WHITE) 0.
Proof.
  intros Hsq Hp. unfold piece_at in Hp.
  destruct (piece_type_at b square) as [pt|]; [|discriminate Hp].
  cbv zeta in Hp. rewrite Color_of_int_land_square in Hp by exact Hsq.
  injection Hp as <-. split; reflexivity.
Qed.

(** On a board that satisfies the invariants a square of either colour
    holds a piece, so [piece_type_at] finds one there. *)
Lemma piece_type_at_occupied (b : BaseBoard) (square : Square) :
  invariants b -> 0 <= square < 64 ->
  Z.testbit (occupied_co_WHITE b) square || Z.testbit (occupied_co_BLACK b) square = true ->
  exists pt, piece_type_at b square = Some pt.
Proof.
  intros Hinv Hsq Hc.
  pose proof (proj1 (invariants_pointwise b) Hinv square (proj1 Hsq)) as Hok.
  rewrite piece_type_at_bits by exact Hsq.
  unfold bits_at in *. cbn [bit_o bit_p bit_n bit_b bit_r bit_q square_ok] in *.
  rewrite Hc in Hok.
  destruct (Z.testbit (occupied b) square).
  - cbn [negb].
    repeat match goal with
           | |- context [if ?c then _ else _] => destruct c
           end; eexists; reflexivity.
  - exfalso. rewrite !andb_false_r, ?andb_false_l in Hok.
    revert Hok.
    repeat match goal with
           | |- context [Z.testbit ?x ?i] => destruct (Z.testbit x i)
           end; cbn; discriminate.
Qed.

(** C10. [piece_at] and [color_at] disagree on the squares of the black
    pieces: on a board that satisfies the invariants, for every square
    where [color_at] reports [BLACK], [piece_at] returns a piece (of the
    type [piece_type_at] reports) whose colour is [WHITE], so it is not
    the colour [color_at] reports.  [(Color)(occupied_co[WHITE] & mask)]
    reads the white occupancy, which has no bit on such a square, and 0
    converts to [WHITE]. *)
Theorem piece_at_reports_black_pieces_white (b : BaseBoard) (square : Square) :
  invariants b -> 0 <= square < 64 ->
  color_at b square = Some BLACK ->
  exists p, piece_at b square = Some p
    /\ piece_type_at b square = Some (piece_type p)
    /\ color p = WHITE
    /\ color_at b square <> Some (color p).
Proof.
  intros Hinv Hsq Hc.
  assert (Hbits : Z.testbit (occupied_co_WHITE b) square = false
                  /\ Z.testbit (occupied_co_BLACK b) square = true).
  { unfold color_at, occupied_co, WHITE, BLACK in Hc.
    rewrite !nonzero_land_square in Hc by exact Hsq.
    destruct (Z.testbit (occupied_co_WHITE b) square); [discriminate Hc|].
    destruct (Z.testbit (occupied_co_BLACK b) square); [|discriminate Hc].
    split; reflexivity. }
  destruct Hbits as [Hw Hb].
  destruct (piece_type_at_occupied b square Hinv Hsq) as [pt Hpt].
  { rewrite Hb. apply orb_true_r. }
  assert (Hp : piece_at b square = Some (mkPiece pt WHITE)).
  { unfold piece_at. rewrite Hpt. cbv zeta.
    rewrite Color_of_int_land_square by exact Hsq.
    destruct (Z.eqb_spec square 0) as [E|_]; [|reflexivity].
    rewrite E in Hw. unfold occupied_co, WHITE. rewrite Hw. reflexivity. }
  exists (mkPiece pt WHITE). cbn [piece_type color].
  repeat split; try assumption. rewrite Hc. discriminate.
Qed.

Lemma piece_at_reports_black_pieces_white_witness :
  color_at _reset_board 60 = Some BLACK
  /\ exists p, piece_at _reset_board 60 = Some p
       /\ piece_type_at _reset_board 60 = Some (piece_type p)
       /\ color p = WHITE
       /\ color_at _reset_board 60 <> Some (color p).
Proof.
  split; [reflexivity|].
  apply (piece_at_reports_black_pieces_white _reset_board 60).
  - split; [reflexivity | repeat constructor | reflexivity | reflexivity | reflexivity].
  - lia.
  - reflexivity.
Defined.

(** ** Checks over the 64 squares *)

Lemma In_SQUARES s : 0 <= s < 64 -> In s SQUARES.
Proof. intros H. eapply nth_error_In, SQUARES_nth. exact H. Qed.

Lemma SQUARES_range s : In s SQUARES -> 0 <= s < 64.
Proof.
  unfold SQUARES. intros H. apply in_map_iff in H as (n & <- & Hn).
  apply in_seq in Hn. lia.
Qed.

Ltac split_checks :=
  repeat match goal with
         | H : _ && _ = true |- _ => apply andb_true_iff in H; destruct H
         end.

(** A property checked on the 64 squares holds of every square. *)
Lemma on_all_squares (p : Square -> bool) :
  forallb p SQUARES = true -> forall s, 0 <= s < 64 -> p s = true.
Proof. intros H s Hs. rewrite forallb_forall in H. apply H, In_SQUARES, Hs. Qed.

Lemma on_all_square_pairs (p : Square -> Square -> bool) :
  forallb (fun a => forallb (p a) SQUARES) SQUARES = true ->
  forall a b, 0 <= a < 64 -> 0 <= b < 64 -> p a b = true.
Proof.
  intros H a b Ha Hb.
  pose proof (on_all_squares _ H a Ha) as Hrow. cbv beta in Hrow.
  exact (on_all_squares _ Hrow b Hb).
Qed.

(** ** Squares, files and ranks *)

Lemma square_file_mod s : 0 <= s -> square_file s = s mod 8.
Proof.
  intros H. unfold square_file. change 7 with (Z.ones 3).
  rewrite Z.land_ones by lia. reflexivity.
Qed.

Lemma square_rank_div s : square_rank s = s / 8.
Proof. unfold square_rank. rewrite Z.shiftr_div_pow2 by lia. reflexivity. Qed.

Lemma square_coords s : 0 <= s < 64 ->
  0 <= square_file s < 8 /\ 0 <= square_rank s < 8
  /\ square (square_file s) (square_rank s) = s.
Proof.
  intros Hs. rewrite square_file_mod, square_rank_div by lia. unfold square.
  pose proof (Z.mod_pos_bound s 8 ltac:(lia)).
  pose proof (Z.div_mod s 8 ltac:(lia)).
  assert (0 <= s / 8 < 8) by (split; [apply Z.div_pos; lia | apply Z.div_lt_upper_bound; lia]).
  lia.
Qed.

Lemma coords_square f r : 0 <= f < 8 -> 0 <= r < 8 ->
  0 <= square f r < 64
  /\ square_file (square f r) = f /\ square_rank (square f r) = r.
Proof.
  intros Hf Hr. unfold square.
  rewrite square_file_mod, square_rank_div by lia.
  split; [lia|]. split.
  - rewrite Z.add_comm, Z.mod_add by lia. apply Z.mod_small. lia.
  - rewrite Z.add_comm, Z.div_add by lia.
    rewrite Z.div_small by lia. lia.
Qed.

(** X1. Files and ranks are coordinates: a square of the board has a file
    and a rank in [0, 8) from which [square] rebuilds it, and [square] of a
    file and a rank in [0, 8) is a square of the board with that file and
    that rank. *)
Theorem square_coordinates_round_trip (s f r : Z) :
  0 <= s < 64 -> 0 <= f < 8 -> 0 <= r < 8 ->
  (0 <= square_file s < 8 /\ 0 <= square_rank s < 8
   /\ square (square_file s) (square_rank s) = s)
  /\ (0 <= square f r < 64
      /\ square_file (square f r) = f /\ square_rank (square f r) = r).
Proof. intros Hs Hf Hr. split; [apply square_coords, Hs | apply coords_square; assumption]. Qed.

Lemma square_coordinates_round_trip_witness :
  (0 <= square_file 29 < 8 /\ 0 <= square_rank 29 < 8
   /\ square (square_file 29) (square_rank 29) = 29)
  /\ (0 <= square 5 3 < 64
      /\ square_file (square 5 3) = 5 /\ square_rank (square 5 3) = 3).
Proof. apply (square_coordinates_round_trip 29 5 3); lia. Defined.

(** X2. [square_distance] is a distance on the board: symmetric, between 0
    and 7, zero between a square and itself only, and it obeys the
    triangle inequality. *)
Theorem square_distance_is_a_metric (a b c : Square) :
  0 <= a < 64 -> 0 <= b < 64 -> 0 <= c < 64 ->
  square_distance a b = square_distance b a
  /\ 0 <= square_distance a b <= 7
  /\ (square_distance a b = 0 <-> a = b)
  /\ square_distance a c <= square_distance a b + square_distance b c.
Proof.
  intros Ha Hb Hc.
  destruct (square_coords a Ha) as (Hfa & Hra & Ea).
  destruct (square_coords b Hb) as (Hfb & Hrb & Eb).
  destruct (square_coords c Hc) as (Hfc & Hrc & Ec).
  unfold square_distance, square in *.
  repeat split; lia.
Qed.

Lemma square_distance_is_a_metric_witness :
  square_distance 0 63 = square_distance 63 0
  /\ 0 <= square_distance 0 63 <= 7
  /\ (square_distance 0 63 = 0 <-> 0 = 63)
  /\ square_distance 0 27 <= square_distance 0 63 + square_distance 63 27.
Proof. apply (square_distance_is_a_metric 0 63 27); lia. Defined.

Lemma square_mirror_checked : forallb square_mirror_ok SQUARES = true.
Proof. vm_compute. reflexivity. Qed.

Lemma square_mirror_facts s : 0 <= s < 64 ->
  0 <= square_mirror s < 64
  /\ square_mirror (square_mirror s) = s
  /\ square_file (square_mirror s) = square_file s
  /\ square_rank (square_mirror s) = 7 - square_rank s.
Proof.
  intros Hs. pose proof (on_all_squares _ square_mirror_checked s Hs) as H.
  unfold square_mirror_ok in H.
  split_checks.
  repeat split; lia.
Qed.

(** X3. [square_mirror] reflects the board in its horizontal middle line:
    it keeps the file, sends rank [r] to rank [7 - r], stays on the board,
    and applying it twice gives the square back. *)
Theorem square_mirror_reflects_ranks (s : Square) :
  0 <= s < 64 ->
  0 <= square_mirror s < 64
  /\ square_mirror (square_mirror s) = s
  /\ square_file (square_mirror s) = square_file s
  /\ square_rank (square_mirror s) = 7 - square_rank s.
Proof. exact (square_mirror_facts s). Qed.

Lemma square_mirror_reflects_ranks_witness :
  0 <= square_mirror 12 < 64
  /\ square_mirror (square_mirror 12) = 12
  /\ square_file (square_mirror 12) = square_file 12
  /\ square_rank (square_mirror 12) = 7 - square_rank 12.
Proof. apply (square_mirror_reflects_ranks 12). lia. Defined.

(** ** Flipping a bitboard *)

(** The bit of a square in a 64-bit value, and equality of 64-bit values
    square by square. *)
Lemma testbit_u64 x i : 0 <= i -> Z.testbit (u64 x) i = (i <? 64) && Z.testbit x i.
Proof.
  intros Hi. rewrite u64_mod. destruct (Z.ltb_spec i 64).
  - rewrite Z.mod_pow2_bits_low by lia. reflexivity.
  - rewrite Z.mod_pow2_bits_high by lia. reflexivity.
Qed.

Lemma testbit_shl x k i : 0 <= i ->
  Z.testbit (u64 (Z.shiftl x k)) i = (i <? 64) && Z.testbit x (i - k).
Proof. intros Hi. rewrite testbit_u64, Z.shiftl_spec by lia. reflexivity. Qed.

Lemma wf_bb_squares x y : wf_bb x -> wf_bb y ->
  (forall s, 0 <= s < 64 -> Z.testbit x s = Z.testbit y s) -> x = y.
Proof.
  intros Hx Hy H. apply Z.bits_inj'. intros i Hi.
  destruct (Z.ltb_spec i 64).
  - apply H. lia.
  - rewrite !wf_bb_high by (assumption || lia). reflexivity.
Qed.

Lemma wf_bb_shiftr x k : wf_bb x -> 0 <= k -> wf_bb (Z.shiftr x k).
Proof.
  intros [H0 H64] Hk. rewrite Z.shiftr_div_pow2 by lia.
  pose proof (Z.pow_pos_nonneg 2 k ltac:(lia) Hk).
  split; [apply Z.div_pos; lia|].
  apply Z.div_lt_upper_bound; [lia|]. nia.
Qed.

Lemma swap_stage_bit bb c k i : 0 <= i < 64 -> swap_stage_ok c k i = true ->
  Z.testbit (swap_stage bb c k) i = Z.testbit bb (swap_source c k i).
Proof.
  intros Hi Hok. unfold swap_stage, swap_stage_ok, swap_source in *.
  rewrite Z.lor_spec, Z.land_spec, Z.shiftr_spec, testbit_shl, Z.land_spec by lia.
  replace (i <? 64) with true by (symmetry; apply Z.ltb_lt; lia).
  destruct (Z.testbit c i), (Z.testbit c (i - k)); try discriminate;
    cbn; rewrite ?andb_true_r, ?andb_false_r, ?orb_false_r; reflexivity.
Qed.

Lemma wf_bb_swap_stage bb c k : wf_bb bb -> 0 <= c -> 0 <= k -> wf_bb (swap_stage bb c k).
Proof.
  intros Hbb Hc Hk. unfold swap_stage. apply wf_bb_lor.
  - apply wf_bb_land_l; [apply wf_bb_shiftr; assumption | exact Hc].
  - apply wf_bb_u64.
Qed.

(** The last step of [flip_vertical] has no mask on its right shift. *)
Lemma swap_halves_bit bb i : wf_bb bb -> 0 <= i < 64 ->
  Z.testbit (Z.lor (Z.shiftr bb 32) (u64 (Z.shiftl (Z.land bb 0x00000000ffffffff) 32))) i
  = Z.testbit bb (if i <? 32 then i + 32 else i - 32).
Proof.
  intros Hbb Hi.
  rewrite Z.lor_spec, Z.shiftr_spec, testbit_shl, Z.land_spec by lia.
  replace (i <? 64) with true by (symmetry; apply Z.ltb_lt; lia).
  destruct (Z.ltb_spec i 32).
  - rewrite (Z.testbit_neg_r _ (i - 32)) by lia. cbn. apply orb_false_r.
  - rewrite (wf_bb_high bb (i + 32)) by (assumption || lia).
    change 0x00000000ffffffff with (Z.ones 32).
    rewrite Z.ones_spec_low by lia. cbn. apply andb_true_r.
Qed.

Lemma flip_vertical_checked : forallb flip_vertical_ok SQUARES = true.
Proof. vm_compute. reflexivity. Qed.

Lemma flip_vertical_stages bb :
  flip_vertical bb
  = (let b2 := swap_stage (swap_stage bb 0x00ff00ff00ff00ff 8) 0x0000ffff0000ffff 16 in
     Z.lor (Z.shiftr b2 32) (u64 (Z.shiftl (Z.land b2 0x00000000ffffffff) 32))).
Proof. reflexivity. Qed.

Lemma flip_vertical_bit bb i : wf_bb bb -> 0 <= i < 64 ->
  Z.testbit (flip_vertical bb) i = Z.testbit bb (square_mirror i).
Proof.
  intros Hbb Hi. rewrite flip_vertical_stages. cbv zeta.
  pose proof (on_all_squares _ flip_vertical_checked i Hi) as H.
  unfold flip_vertical_ok in H. cbv zeta in H.
  split_checks.
  rewrite swap_halves_bit
    by (repeat apply wf_bb_swap_stage; (assumption || lia)).
  rewrite swap_stage_bit by (assumption || lia).
  rewrite swap_stage_bit by (assumption || lia).
  f_equal. lia.
Qed.

Lemma wf_bb_flip_vertical bb : wf_bb bb -> wf_bb (flip_vertical bb).
Proof.
  intros Hbb. rewrite flip_vertical_stages. cbv zeta. apply wf_bb_lor.
  - apply wf_bb_shiftr; [|lia]. repeat apply wf_bb_swap_stage; (assumption || lia).
  - apply wf_bb_u64.
Qed.

Lemma flip_vertical_involutive bb : wf_bb bb -> flip_vertical (flip_vertical bb) = bb.
Proof.
  intros Hbb.
  apply wf_bb_squares; [repeat apply wf_bb_flip_vertical; assumption | assumption |].
  intros i Hi. destruct (square_mirror_facts i Hi) as (Hm & Hmm & _).
  rewrite !flip_vertical_bit, Hmm by (try apply wf_bb_flip_vertical; assumption).
  reflexivity.
Qed.

(** X4. [flip_vertical] mirrors a bitboard rank by rank: the flipped board
    holds a square exactly when the board holds its mirror image
    ([square_mirror]); flipping twice gives the board back. *)
Theorem flip_vertical_mirrors_squares (bb : Bitboard) (s : Square) :
  wf_bb bb -> 0 <= s < 64 ->
  Z.testbit (flip_vertical bb) s = Z.testbit bb (square_mirror s)
  /\ flip_vertical (flip_vertical bb) = bb.
Proof.
  intros Hbb Hs. split; [apply flip_vertical_bit; assumption|].
  apply flip_vertical_involutive, Hbb.
Qed.

Lemma flip_vertical_mirrors_squares_witness :
  Z.testbit (flip_vertical 0xff00) 52 = Z.testbit 0xff00 (square_mirror 52)
  /\ flip_vertical (flip_vertical 0xff00) = 0xff00.
Proof. apply (flip_vertical_mirrors_squares 0xff00 52); unfold wf_bb; lia. Defined.

Lemma flip_horizontal_checked : forallb flip_horizontal_ok SQUARES = true.
Proof. vm_compute. reflexivity. Qed.

Lemma flip_horizontal_stages bb :
  flip_horizontal bb
  = swap_stage (swap_stage (swap_stage bb 0x5555555555555555 1) 0x3333333333333333 2)
               0x0f0f0f0f0f0f0f0f 4.
Proof. reflexivity. Qed.

Lemma flip_horizontal_bit bb i : 0 <= i < 64 ->
  Z.testbit (flip_horizontal bb) i
  = Z.testbit bb (square (7 - square_file i) (square_rank i)).
Proof.
  intros Hi. rewrite flip_horizontal_stages.
  pose proof (on_all_squares _ flip_horizontal_checked i Hi) as H.
  unfold flip_horizontal_ok in H. cbv zeta in H. split_checks.
  rewrite swap_stage_bit by (assumption || lia).
  rewrite swap_stage_bit by (assumption || lia).
  rewrite swap_stage_bit by (assumption || lia).
  f_equal. lia.
Qed.

Lemma wf_bb_flip_horizontal bb : wf_bb bb -> wf_bb (flip_horizontal bb).
Proof.
  intros Hbb. rewrite flip_horizontal_stages.
  repeat apply wf_bb_swap_stage; (assumption || lia).
Qed.

(** X5. [flip_horizontal] mirrors a bitboard file by file: the flipped
    board holds the square of file [f] and rank [r] exactly when the board
    holds the square of file [7 - f] and rank [r]; flipping twice gives the
    board back. *)
Theorem flip_horizontal_mirrors_files (bb : Bitboard) (f r : Z) :
  wf_bb bb -> 0 <= f < 8 -> 0 <= r < 8 ->
  Z.testbit (flip_horizontal bb) (square f r) = Z.testbit bb (square (7 - f) r)
  /\ flip_horizontal (flip_horizontal bb) = bb.
Proof.
  intros Hbb Hf Hr. split.
  - destruct (coords_square f r Hf Hr) as (Hs & Ef & Er).
    rewrite flip_horizontal_bit, Ef, Er by exact Hs. reflexivity.
  - apply wf_bb_squares; [repeat apply wf_bb_flip_horizontal; assumption | assumption |].
    intros i Hi. destruct (square_coords i Hi) as (Hfi & Hri & Ei).
    rewrite flip_horizontal_bit by exact Hi.
    destruct (coords_square (7 - square_file i) (square_rank i)) as (Hs & Ef & Er);
      [lia | lia |].
    rewrite flip_horizontal_bit by exact Hs.
    rewrite Ef, Er. replace (7 - (7 - square_file i)) with (square_file i) by lia.
    rewrite Ei. reflexivity.
Qed.

Lemma flip_horizontal_mirrors_files_witness :
  Z.testbit (flip_horizontal 0x0101) (square 7 1) = Z.testbit 0x0101 (square (7 - 7) 1)
  /\ flip_horizontal (flip_horizontal 0x0101) = 0x0101.
Proof. apply (flip_horizontal_mirrors_files 0x0101 7 1); unfold wf_bb; lia. Defined.

Lemma delta_stage_bit bb c k i : 0 <= k -> 0 <= i < 64 -> delta_stage_ok c k i = true ->
  Z.testbit (delta_stage bb c k) i = Z.testbit bb (delta_source c k i).
Proof.
  intros Hk Hi Hok. unfold delta_stage, delta_stage_ok, delta_source in *. cbv zeta.
  rewrite !Z.lxor_spec, Z.shiftr_spec, !Z.land_spec, !Z.lxor_spec, !testbit_shl by lia.
  replace (i <? 64) with true by (symmetry; apply Z.ltb_lt; lia).
  replace (i + k - k) with i by lia.
  destruct (Z.testbit c i), (Z.testbit c (i + k)); cbn in Hok; try discriminate.
  - cbn. rewrite !andb_true_r, !andb_false_r, xorb_false_r.
    rewrite <- xorb_assoc, xorb_nilpotent. apply xorb_false_l.
  - rewrite Hok. cbn. rewrite !andb_true_r, !andb_false_r. cbn.
    rewrite xorb_comm, xorb_assoc, xorb_nilpotent. apply xorb_false_r.
  - cbn. rewrite !andb_false_r. cbn. apply xorb_false_r.
Qed.

Lemma wf_bb_delta_stage bb c k : wf_bb bb -> 0 <= c -> 0 <= k -> wf_bb (delta_stage bb c k).
Proof.
  intros Hbb Hc Hk. unfold delta_stage. cbv zeta.
  assert (wf_bb (Z.land (Z.lxor bb (u64 (Z.shiftl bb k))) c)).
  { apply wf_bb_land_l; [|exact Hc]. apply wf_bb_lxor; [assumption | apply wf_bb_u64]. }
  repeat apply wf_bb_lxor; try assumption. apply wf_bb_shiftr; assumption.
Qed.

Lemma flip_diagonal_checked : forallb flip_diagonal_ok SQUARES = true.
Proof. vm_compute. reflexivity. Qed.

Lemma flip_diagonal_stages bb :
  flip_diagonal bb
  = delta_stage (delta_stage (delta_stage bb 0x0f0f0f0f00000000 28) 0x3333000033330000 14)
                0x5500550055005500 7.
Proof. reflexivity. Qed.

Lemma flip_diagonal_bit bb i : 0 <= i < 64 ->
  Z.testbit (flip_diagonal bb) i = Z.testbit bb (square (square_rank i) (square_file i)).
Proof.
  intros Hi. rewrite flip_diagonal_stages.
  pose proof (on_all_squares _ flip_diagonal_checked i Hi) as H.
  unfold flip_diagonal_ok in H. cbv zeta in H. split_checks.
  rewrite delta_stage_bit by (assumption || lia).
  rewrite delta_stage_bit by (assumption || lia).
  rewrite delta_stage_bit by (assumption || lia).
  f_equal. lia.
Qed.

Lemma wf_bb_flip_diagonal bb : wf_bb bb -> wf_bb (flip_diagonal bb).
Proof.
  intros Hbb. rewrite flip_diagonal_stages.
  repeat apply wf_bb_delta_stage; (assumption || lia).
Qed.

(** X6. [flip_diagonal] transposes a bitboard: the flipped board holds the
    square of file [f] and rank [r] exactly when the board holds the square
    of file [r] and rank [f]; flipping twice gives the board back. *)
Theorem flip_diagonal_transposes (bb : Bitboard) (f r : Z) :
  wf_bb bb -> 0 <= f < 8 -> 0 <= r < 8 ->
  Z.testbit (flip_diagonal bb) (square f r) = Z.testbit bb (square r f)
  /\ flip_diagonal (flip_diagonal bb) = bb.
Proof.
  intros Hbb Hf Hr. split.
  - destruct (coords_square f r Hf Hr) as (Hs & Ef & Er).
    rewrite flip_diagonal_bit, Ef, Er by exact Hs. reflexivity.
  - apply wf_bb_squares; [repeat apply wf_bb_flip_diagonal; assumption | assumption |].
    intros i Hi. destruct (square_coords i Hi) as (Hfi & Hri & Ei).
    rewrite flip_diagonal_bit by exact Hi.
    destruct (coords_square (square_rank i) (square_file i) Hri Hfi) as (Hs & Ef & Er).
    rewrite flip_diagonal_bit, Ef, Er, Ei by exact Hs. reflexivity.
Qed.

Lemma flip_diagonal_transposes_witness :
  Z.testbit (flip_diagonal 0xff) (square 0 5) = Z.testbit 0xff (square 5 0)
  /\ flip_diagonal (flip_diagonal 0xff) = 0xff.
Proof. apply (flip_diagonal_transposes 0xff 0 5); unfold wf_bb; lia. Defined.

Lemma quarter_stage_bit bb i : wf_bb bb -> 0 <= i < 64 -> quarter_stage_ok i = true ->
  Z.testbit (quarter_stage bb) i = Z.testbit bb (quarter_source i).
Proof.
  intros Hbb Hi Hok. unfold quarter_stage, quarter_stage_ok, quarter_source in *. cbv zeta.
  rewrite !Z.lxor_spec, Z.land_spec, !Z.lxor_spec, Z.shiftr_spec, testbit_shl by lia.
  replace (i <? 64) with true by (symmetry; apply Z.ltb_lt; lia).
  destruct (Z.testbit 0xf0f0f0f00f0f0f0f i); cbn in Hok |- *.
  - rewrite andb_true_r. destruct (Z.ltb_spec i 36).
    + rewrite (Z.testbit_neg_r _ (i - 36)) by lia.
      rewrite xorb_false_r, <- xorb_assoc, xorb_nilpotent. apply xorb_false_l.
    + rewrite (wf_bb_high bb (i + 36)) by (assumption || lia).
      rewrite xorb_false_r, <- xorb_assoc, xorb_nilpotent. apply xorb_false_l.
  - rewrite andb_false_r. apply xorb_false_r.
Qed.

Lemma wf_bb_quarter_stage bb : wf_bb bb -> wf_bb (quarter_stage bb).
Proof.
  intros Hbb. unfold quarter_stage. cbv zeta.
  apply wf_bb_lxor; [assumption|]. apply wf_bb_land_l; [|lia].
  repeat apply wf_bb_lxor; try assumption; [apply wf_bb_u64 | apply wf_bb_shiftr; (assumption || lia)].
Qed.

Lemma flip_anti_diagonal_checked : forallb flip_anti_diagonal_ok SQUARES = true.
Proof. vm_compute. reflexivity. Qed.

Lemma flip_anti_diagonal_stages bb :
  flip_anti_diagonal bb
  = delta_stage (delta_stage (quarter_stage bb) 0xcccc0000cccc0000 18)
                0xaa00aa00aa00aa00 9.
Proof. reflexivity. Qed.

Lemma flip_anti_diagonal_bit bb i : wf_bb bb -> 0 <= i < 64 ->
  Z.testbit (flip_anti_diagonal bb) i
  = Z.testbit bb (square (7 - square_rank i) (7 - square_file i)).
Proof.
  intros Hbb Hi. rewrite flip_anti_diagonal_stages.
  pose proof (on_all_squares _ flip_anti_diagonal_checked i Hi) as H.
  unfold flip_anti_diagonal_ok in H. cbv zeta in H. split_checks.
  rewrite delta_stage_bit by (assumption || lia).
  rewrite delta_stage_bit by (assumption || lia).
  rewrite quarter_stage_bit by (assumption || lia).
  f_equal. lia.
Qed.

Lemma wf_bb_flip_anti_diagonal bb : wf_bb bb -> wf_bb (flip_anti_diagonal bb).
Proof.
  intros Hbb. rewrite flip_anti_diagonal_stages.
  repeat apply wf_bb_delta_stage; try lia. apply wf_bb_quarter_stage, Hbb.
Qed.

(** X7. [flip_anti_diagonal] reflects a bitboard in its other diagonal: the
    flipped board holds the square of file [f] and rank [r] exactly when
    the board holds the square of file [7 - r] and rank [7 - f]; flipping
    twice gives the board back. *)
Theorem flip_anti_diagonal_reflects (bb : Bitboard) (f r : Z) :
  wf_bb bb -> 0 <= f < 8 -> 0 <= r < 8 ->
  Z.testbit (flip_anti_diagonal bb) (square f r) = Z.testbit bb (square (7 - r) (7 - f))
  /\ flip_anti_diagonal (flip_anti_diagonal bb) = bb.
Proof.
  intros Hbb Hf Hr. split.
  - destruct (coords_square f r Hf Hr) as (Hs & Ef & Er).
    rewrite flip_anti_diagonal_bit, Ef, Er by assumption. reflexivity.
  - apply wf_bb_squares; [repeat apply wf_bb_flip_anti_diagonal; assumption | assumption |].
    intros i Hi. destruct (square_coords i Hi) as (Hfi & Hri & Ei).
    rewrite flip_anti_diagonal_bit by (try apply wf_bb_flip_anti_diagonal; assumption).
    destruct (coords_square (7 - square_rank i) (7 - square_file i)) as (Hs & Ef & Er);
      [lia | lia |].
    rewrite flip_anti_diagonal_bit, Ef, Er by assumption.
    replace (7 - (7 - square_file i)) with (square_file i) by lia.
    replace (7 - (7 - square_rank i)) with (square_rank i) by lia.
    rewrite Ei. reflexivity.
Qed.

Lemma flip_anti_diagonal_reflects_witness :
  Z.testbit (flip_anti_diagonal 0xff) (square 7 2) = Z.testbit 0xff (square (7 - 2) (7 - 7))
  /\ flip_anti_diagonal (flip_anti_diagonal 0xff) = 0xff.
Proof. apply (flip_anti_diagonal_reflects 0xff 7 2); unfold wf_bb; lia. Defined.

Lemma file_masks_checked :
  forallb (fun f => forallb (file_mask_ok f) SQUARES) [0; 1; 2; 3; 4; 5; 6; 7] = true.
Proof. vm_compute. reflexivity. Qed.

Lemma testbit_BB_FILES f i : 0 <= f < 8 -> 0 <= i < 64 ->
  Z.testbit (BB_FILES f) i = (square_file i =? f).
Proof.
  intros Hf Hi. pose proof file_masks_checked as H.
  rewrite forallb_forall in H.
  assert (In f [0; 1; 2; 3; 4; 5; 6; 7]) as Hin by (cbn; lia).
  apply eqb_prop. exact (on_all_squares _ (H f Hin) i Hi).
Qed.

Lemma testbit_not_file f i : 0 <= f < 8 -> 0 <= i < 64 ->
  Z.testbit (bb_not (BB_FILES f)) i = negb (square_file i =? f).
Proof.
  intros Hf Hi. rewrite testbit_bb_not, testbit_BB_FILES by lia.
  replace (i <? 64) with true by (symmetry; apply Z.ltb_lt; lia). reflexivity.
Qed.

Lemma testbit_BB_ALL i : 0 <= i < 64 -> Z.testbit BB_ALL i = true.
Proof. intros Hi. change BB_ALL with (Z.ones 64). apply Z.ones_spec_low. lia. Qed.

Lemma wf_bb_bit_range b i : wf_bb b -> Z.testbit b i = true -> 0 <= i < 64.
Proof.
  intros Hb H. destruct (Z.ltb_spec i 0).
  - rewrite Z.testbit_neg_r in H by lia. discriminate.
  - destruct (Z.ltb_spec i 64); [lia|].
    rewrite wf_bb_high in H by (assumption || lia). discriminate.
Qed.

Ltac shift_bits Hb Ht :=
  unfold stepped, BB_FILE_A, BB_FILE_B, BB_FILE_G, BB_FILE_H; cbv zeta;
  rewrite ?Z.land_spec, ?testbit_shl, ?Z.shiftr_spec, ?testbit_not_file, ?testbit_BB_ALL
    by lia;
  let E := fresh "E" in
  destruct (square_coords _ Ht) as (? & ? & E); unfold square in E |- *;
  apply eq_iff_eq_true; split; intros; split_checks;
  match goal with
  | H : Z.testbit _ ?i = true |- _ =>
      pose proof (wf_bb_bit_range _ i Hb H);
      repeat (apply andb_true_iff; split); try lia;
      match goal with
      | |- Z.testbit _ ?j = true => replace j with i by lia; exact H
      end
  end.

(** X8. The twelve shifts move every square of a bitboard by one fixed step
    and drop the squares whose step would leave the board; nothing wraps
    round an edge.  [shift_up] moves one rank up, [shift_right] one file to
    the right, and so on for the others. *)
Theorem shifts_step_without_wrapping (b : Bitboard) (t : Square) :
  wf_bb b -> 0 <= t < 64 ->
  Z.testbit (shift_up b) t = stepped 0 1 b t
  /\ Z.testbit (shift_2_up b) t = stepped 0 2 b t
  /\ Z.testbit (shift_down b) t = stepped 0 (-1) b t
  /\ Z.testbit (shift_2_down b) t = stepped 0 (-2) b t
  /\ Z.testbit (shift_right b) t = stepped 1 0 b t
  /\ Z.testbit (shift_2_right b) t = stepped 2 0 b t
  /\ Z.testbit (shift_left b) t = stepped (-1) 0 b t
  /\ Z.testbit (shift_2_left b) t = stepped (-2) 0 b t
  /\ Z.testbit (shift_up_left b) t = stepped (-1) 1 b t
  /\ Z.testbit (shift_up_right b) t = stepped 1 1 b t
  /\ Z.testbit (shift_down_left b) t = stepped (-1) (-1) b t
  /\ Z.testbit (shift_down_right b) t = stepped 1 (-1) b t.
Proof.
  intros Hb Ht.
  repeat split;
    [ unfold shift_up | unfold shift_2_up | unfold shift_down | unfold shift_2_down
    | unfold shift_right | unfold shift_2_right | unfold shift_left | unfold shift_2_left
    | unfold shift_up_left | unfold shift_up_right | unfold shift_down_left
    | unfold shift_down_right ];
    shift_bits Hb Ht.
Qed.

Lemma shifts_step_without_wrapping_witness :
  Z.testbit (shift_up 0x8001) 9 = stepped 0 1 0x8001 9
  /\ Z.testbit (shift_2_up 0x8001) 9 = stepped 0 2 0x8001 9
  /\ Z.testbit (shift_down 0x8001) 9 = stepped 0 (-1) 0x8001 9
  /\ Z.testbit (shift_2_down 0x8001) 9 = stepped 0 (-2) 0x8001 9
  /\ Z.testbit (shift_right 0x8001) 9 = stepped 1 0 0x8001 9
  /\ Z.testbit (shift_2_right 0x8001) 9 = stepped 2 0 0x8001 9
  /\ Z.testbit (shift_left 0x8001) 9 = stepped (-1) 0 0x8001 9
  /\ Z.testbit (shift_2_left 0x8001) 9 = stepped (-2) 0 0x8001 9
  /\ Z.testbit (shift_up_left 0x8001) 9 = stepped (-1) 1 0x8001 9
  /\ Z.testbit (shift_up_right 0x8001) 9 = stepped 1 1 0x8001 9
  /\ Z.testbit (shift_down_left 0x8001) 9 = stepped (-1) (-1) 0x8001 9
  /\ Z.testbit (shift_down_right 0x8001) 9 = stepped 1 (-1) 0x8001 9.
Proof. apply (shifts_step_without_wrapping 0x8001 9); unfold wf_bb; lia. Defined.

Lemma step_table_lookup table step s t :
  step_table_ok table step = true -> 0 <= s < 64 -> 0 <= t < 64 ->
  Z.testbit (array_get table s) t = step s t.
Proof.
  unfold step_table_ok, array_get. destruct table as [l|]; [|discriminate].
  intros H Hs Ht. apply eqb_prop.
  exact (on_all_square_pairs
           (fun s t => Bool.eqb (Z.testbit (nth (Z.to_nat s) l 0) t) (step s t)) H s t Hs Ht).
Qed.

Lemma king_table_checked :
  step_table_ok BB_KING_ATTACKS_array (fun s t => square_distance s t =? 1) = true.
Proof. vm_compute. reflexivity. Qed.

Lemma knight_table_checked : step_table_ok BB_KNIGHT_ATTACKS_array knight_step = true.
Proof. vm_compute. reflexivity. Qed.

Lemma BB_KING_ATTACKS_bit s t : 0 <= s < 64 -> 0 <= t < 64 ->
  Z.testbit (BB_KING_ATTACKS s) t = (square_distance s t =? 1).
Proof.
  intros Hs Ht. unfold BB_KING_ATTACKS.
  exact (step_table_lookup _ _ s t king_table_checked Hs Ht).
Qed.

Lemma BB_KNIGHT_ATTACKS_bit s t : 0 <= s < 64 -> 0 <= t < 64 ->
  Z.testbit (BB_KNIGHT_ATTACKS s) t = knight_step s t.
Proof.
  intros Hs Ht. unfold BB_KNIGHT_ATTACKS.
  exact (step_table_lookup _ _ s t knight_table_checked Hs Ht).
Qed.

(** X9. The two step tables hold the steps of their piece and nothing
    else.  [BB_KING_ATTACKS[s]] holds exactly the squares at distance 1
    from [s], its neighbours on the board; [BB_KNIGHT_ATTACKS[s]] holds
    exactly the squares one file and two ranks, or two files and one rank,
    away from [s].  Neither holds [s] itself or a square across an edge. *)
Theorem step_tables_hold_the_steps (s t : Square) :
  0 <= s < 64 -> 0 <= t < 64 ->
  Z.testbit (BB_KING_ATTACKS s) t = (square_distance s t =? 1)
  /\ Z.testbit (BB_KNIGHT_ATTACKS s) t = knight_step s t.
Proof.
  intros Hs Ht. split; [apply BB_KING_ATTACKS_bit | apply BB_KNIGHT_ATTACKS_bit]; assumption.
Qed.

Lemma step_tables_hold_the_steps_witness :
  Z.testbit (BB_KING_ATTACKS 6) 12 = (square_distance 6 12 =? 1)
  /\ Z.testbit (BB_KNIGHT_ATTACKS 6) 12 = knight_step 6 12.
Proof. apply (step_tables_hold_the_steps 6 12); lia. Defined.

Lemma _rays_checked : rays_ok _rays = true.
Proof. vm_compute. reflexivity. Qed.

Lemma rays_ok_lookup rays a b t :
  rays_ok rays = true -> 0 <= a < 64 -> 0 <= b < 64 -> 0 <= t < 64 ->
  let rows := built rays in
  Z.testbit (rays_get rows a b) t = on_line a b t
  /\ Z.testbit (between_in rows a b) t = strictly_between a b t.
Proof.
  intros H Ha Hb Ht. unfold rays_ok in H.
  destruct rays as [rows|]; [|discriminate]. cbn [built].
  apply andb_true_iff in H as [_ H].
  pose proof (on_all_square_pairs _ H a b Ha Hb) as Hab. cbv beta zeta in Hab.
  apply andb_true_iff in Hab as [_ Hab].
  pose proof (on_all_squares _ Hab t Ht) as Ht'. cbv beta in Ht'.
  apply andb_true_iff in Ht' as [H1 H2].
  apply eqb_prop in H1, H2. split; [exact H1|].
  rewrite H2, H1. reflexivity.
Qed.

Lemma rays_entry_facts a b t : 0 <= a < 64 -> 0 <= b < 64 -> 0 <= t < 64 ->
  Z.testbit (ray a b) t = on_line a b t
  /\ Z.testbit (between a b) t = strictly_between a b t.
Proof.
  intros Ha Hb Ht. unfold ray, between, BB_RAYS.
  exact (rays_ok_lookup _rays a b t _rays_checked Ha Hb Ht).
Qed.

(** X10. [ray(a, b)] is the whole line through two aligned squares: for
    distinct squares on a common file, rank or diagonal it holds exactly
    the squares of that line, both ends included; for any other pair it is
    empty. *)
Theorem ray_is_the_line_through_both_squares (a b t : Square) :
  0 <= a < 64 -> 0 <= b < 64 -> 0 <= t < 64 ->
  Z.testbit (ray a b) t = on_line a b t.
Proof. intros Ha Hb Ht. exact (proj1 (rays_entry_facts a b t Ha Hb Ht)). Qed.

Lemma ray_is_the_line_through_both_squares_witness :
  Z.testbit (ray 12 33) 26 = on_line 12 33 26.
Proof. apply (ray_is_the_line_through_both_squares 12 33 26); lia. Defined.

(** X11. [between(a, b)] holds exactly the squares of the line through two
    aligned squares that lie strictly between them; it is empty when the
    squares are not aligned, equal or adjacent. *)
Theorem between_is_the_open_segment (a b t : Square) :
  0 <= a < 64 -> 0 <= b < 64 -> 0 <= t < 64 ->
  Z.testbit (between a b) t = strictly_between a b t.
Proof. intros Ha Hb Ht. exact (proj2 (rays_entry_facts a b t Ha Hb Ht)). Qed.

Lemma between_is_the_open_segment_witness :
  Z.testbit (between 12 33) 26 = strictly_between 12 33 26.
Proof. apply (between_is_the_open_segment 12 33 26); lia. Defined.

Lemma filter_none {A} (f : A -> bool) (l : list A) :
  (forall x, In x l -> f x = false) -> filter f l = [].
Proof.
  induction l as [|x l IH]; intros H; cbn [filter]; [reflexivity|].
  rewrite (H x) by (left; reflexivity). apply IH. intros y Hy. apply H. right. exact Hy.
Qed.

Lemma squares_from_range a n s : In s (map Z.of_nat (seq a n)) ->
  Z.of_nat a <= s < Z.of_nat a + Z.of_nat n.
Proof. intros H. apply in_map_iff in H as (k & <- & Hk). apply in_seq in Hk. lia. Qed.

(** [SQUARES] cut at a square [c]. *)
Lemma SQUARES_split c : 0 <= c < 64 ->
  SQUARES = map Z.of_nat (seq 0 (Z.to_nat c)) ++ c
            :: map Z.of_nat (seq (S (Z.to_nat c)) (63 - Z.to_nat c)).
Proof.
  intros Hc. unfold SQUARES.
  replace 64%nat with (Z.to_nat c + S (63 - Z.to_nat c))%nat by lia.
  rewrite seq_app, map_app. cbn [seq map Nat.add].
  replace (Z.of_nat (Z.to_nat c)) with c by lia. reflexivity.
Qed.

(** Taking the lowest square [c] out of a set of squares. *)
Lemma filter_without_lowest (f g : Z -> bool) c : 0 <= c < 64 ->
  f c = true -> g c = false ->
  (forall i, 0 <= i < c -> f i = false /\ g i = false) ->
  (forall i, c < i -> f i = g i) ->
  filter f SQUARES = c :: filter g SQUARES.
Proof.
  intros Hc Hf Hg Hlow Hhigh. rewrite (SQUARES_split c Hc), !filter_app.
  cbn [filter]. rewrite Hf, Hg.
  rewrite (filter_none f (map Z.of_nat (seq 0 _))),
          (filter_none g (map Z.of_nat (seq 0 _))).
  - cbn [app]. f_equal. apply filter_ext_in. intros i Hi. apply Hhigh.
    apply squares_from_range in Hi. lia.
  - intros i Hi. apply squares_from_range in Hi. apply Hlow. lia.
  - intros i Hi. apply squares_from_range in Hi. apply Hlow. lia.
Qed.

(** Taking the highest square [c] out of a set of squares. *)
Lemma filter_without_highest (f g : Z -> bool) c : 0 <= c < 64 ->
  f c = true -> g c = false ->
  (forall i, c < i < 64 -> f i = false /\ g i = false) ->
  (forall i, 0 <= i < c -> f i = g i) ->
  filter f SQUARES = filter g SQUARES ++ [c].
Proof.
  intros Hc Hf Hg Hhigh Hlow. rewrite (SQUARES_split c Hc), !filter_app.
  cbn [filter]. rewrite Hf, Hg.
  rewrite (filter_none f (map Z.of_nat (seq (S (Z.to_nat c)) _))),
          (filter_none g (map Z.of_nat (seq (S (Z.to_nat c)) _))).
  - rewrite app_nil_r. f_equal. apply filter_ext_in. intros i Hi. apply Hlow.
    apply squares_from_range in Hi. lia.
  - intros i Hi. apply squares_from_range in Hi. apply Hhigh. lia.
  - intros i Hi. apply squares_from_range in Hi. apply Hhigh. lia.
Qed.

Lemma pos_ctz_low p i : 0 <= i < pos_ctz p -> Z.testbit (Zpos p) i = false.
Proof.
  revert i. induction p as [q IH|q IH|]; cbn [pos_ctz]; intros i Hi; try lia.
  pose proof (pos_ctz_nonneg q).
  change (Zpos q~0) with (2 * Zpos q).
  destruct (Z.eq_dec i 0) as [->|Hne]; [apply Z.testbit_even_0|].
  replace i with (Z.succ (i - 1)) by lia.
  rewrite Z.testbit_even_succ by lia. apply IH. lia.
Qed.

(** [bb & (bb - 1)] is [bb] without its lowest square. *)
Lemma clear_lowest_bits bb : wf_bb bb -> bb <> 0 ->
  let bb' := Z.land bb (u64 (bb - 1)) in
  wf_bb bb' /\ 0 <= lsb bb < 64 /\ Z.testbit bb (lsb bb) = true
  /\ (forall i, 0 <= i < lsb bb -> Z.testbit bb i = false)
  /\ (forall i, Z.testbit bb' i = Z.testbit bb i && negb (i =? lsb bb)).
Proof.
  intros Hbb Hne. cbv zeta. destruct bb as [|p|p]; [congruence| |destruct Hbb; lia].
  unfold lsb, __builtin_ctzll.
  pose proof (pos_ctz_testbit p) as Hset. pose proof (pos_ctz_nonneg p) as Hnn.
  assert (pos_ctz p < 64) as Hlt.
  { destruct (Z.ltb_spec (pos_ctz p) 64); [assumption|].
    rewrite wf_bb_high in Hset by (assumption || lia). discriminate. }
  rewrite u64_mod, Z.mod_small by (destruct Hbb; lia).
  assert (Z.land (Zpos p) (Zpos p - 1) = Z.ldiff (Zpos p) (2 ^ pos_ctz p)) as E.
  { rewrite pos_clear_lowest. apply Z.sub_nocarry_ldiff.
    apply Z.bits_inj'. intros i Hi. rewrite Z.ldiff_spec, Z.bits_0, Z.pow2_bits_eqb by lia.
    destruct (Z.eqb_spec (pos_ctz p) i) as [<-|]; [rewrite Hset|]; reflexivity. }
  split; [apply wf_bb_land_l; [exact Hbb | lia]|].
  rewrite E. split; [lia|]. split; [exact Hset|]. split.
  - intros i Hi. apply pos_ctz_low. lia.
  - intros i. destruct (Z.ltb_spec i 0).
    + rewrite !Z.testbit_neg_r by lia. reflexivity.
    + rewrite Z.ldiff_spec, Z.pow2_bits_eqb by lia. rewrite (Z.eqb_sym i). reflexivity.
Qed.

Lemma squares_of_empty : squares_of 0 = [].
Proof. apply filter_none. intros i _. apply Z.bits_0. Qed.

Lemma squares_of_lowest bb : wf_bb bb -> bb <> 0 ->
  squares_of bb = lsb bb :: squares_of (Z.land bb (u64 (bb - 1))).
Proof.
  intros Hbb Hne. destruct (clear_lowest_bits bb Hbb Hne) as (_ & Hc & Hset & Hlow & Hbits).
  unfold squares_of. apply filter_without_lowest; try assumption.
  - rewrite Hbits, Z.eqb_refl. apply andb_false_r.
  - intros i Hi. rewrite Hbits, (Hlow i Hi). split; reflexivity.
  - intros i Hi. rewrite Hbits.
    replace (i =? lsb bb) with false by (symmetry; apply Z.eqb_neq; lia).
    symmetry. apply andb_true_r.
Qed.

Lemma scan_forward_loop_squares fuel : forall bb, wf_bb bb ->
  (List.length (squares_of bb) <= fuel)%nat ->
  scan_forward_loop fuel bb = squares_of bb.
Proof.
  induction fuel as [|fuel IH]; intros bb Hbb Hlen; cbn [scan_forward_loop].
  - destruct (squares_of bb); [reflexivity | cbn in Hlen; lia].
  - unfold BB_EMPTY. destruct (Z.eqb_spec bb 0) as [->|Hne].
    + symmetry. apply squares_of_empty.
    + rewrite (squares_of_lowest bb Hbb Hne) in Hlen |- *. cbn [List.length] in Hlen.
      change (__builtin_ctzll bb) with (lsb bb). f_equal. apply IH; [|lia].
      apply (clear_lowest_bits bb Hbb Hne).
Qed.

Lemma squares_of_length bb : (List.length (squares_of bb) <= 64)%nat.
Proof.
  unfold squares_of. etransitivity; [apply filter_length_le|].
  unfold SQUARES. rewrite length_map, length_seq. lia.
Qed.

Lemma In_squares_of bb s : In s (squares_of bb) <-> 0 <= s < 64 /\ Z.testbit bb s = true.
Proof.
  unfold squares_of. rewrite filter_In. split; intros [H1 H2]; split; try assumption.
  - apply SQUARES_range, H1.
  - apply In_SQUARES, H1.
Qed.

Lemma clear_highest_bits bb : wf_bb bb -> bb <> 0 ->
  let h := 63 - __builtin_clzll bb in
  let bb' := Z.lxor bb (BB_SQUARES h) in
  wf_bb bb' /\ 0 <= h < 64 /\ Z.testbit bb h = true
  /\ (forall i, h < i -> Z.testbit bb i = false)
  /\ (forall i, Z.testbit bb' i = Z.testbit bb i && negb (i =? h)).
Proof.
  intros Hbb Hne. cbv zeta. destruct bb as [|p|p]; [congruence| |destruct Hbb; lia].
  unfold __builtin_clzll.
  replace (63 - (63 - Z.log2 (Zpos p))) with (Z.log2 (Zpos p)) by lia.
  pose proof (Z.log2_nonneg (Zpos p)) as Hnn. pose proof (wf_bb_log2 _ Hbb) as Hlt.
  pose proof (Z.bit_log2 (Zpos p) ltac:(lia)) as Hset.
  split; [apply wf_bb_lxor; [exact Hbb | apply wf_bb_BB_SQUARES]|].
  split; [lia|]. split; [exact Hset|]. split.
  - intros i Hi. apply Z.bits_above_log2; lia.
  - intros i. rewrite toggled_bit by lia. rewrite (Z.eqb_sym i).
    destruct (Z.eqb_spec (Z.log2 (Zpos p)) i) as [<-|_].
    + rewrite Hset. reflexivity.
    + rewrite xorb_false_r, andb_true_r. reflexivity.
Qed.

Lemma squares_of_highest bb : wf_bb bb -> bb <> 0 ->
  squares_of bb
  = squares_of (Z.lxor bb (BB_SQUARES (63 - __builtin_clzll bb)))
    ++ [63 - __builtin_clzll bb].
Proof.
  intros Hbb Hne. destruct (clear_highest_bits bb Hbb Hne) as (_ & Hc & Hset & Hhigh & Hbits).
  unfold squares_of. apply filter_without_highest; try assumption.
  - rewrite Hbits, Z.eqb_refl. apply andb_false_r.
  - intros i Hi. rewrite Hbits, (Hhigh i) by lia. split; reflexivity.
  - intros i Hi. rewrite Hbits.
    replace (i =? 63 - __builtin_clzll bb) with false by (symmetry; apply Z.eqb_neq; lia).
    symmetry. apply andb_true_r.
Qed.

Lemma scan_reversed_loop_squares fuel : forall bb, wf_bb bb ->
  (List.length (squares_of bb) <= fuel)%nat ->
  scan_reversed_loop fuel bb = rev (squares_of bb).
Proof.
  induction fuel as [|fuel IH]; intros bb Hbb Hlen; cbn [scan_reversed_loop].
  - destruct (squares_of bb); [reflexivity | cbn in Hlen; lia].
  - unfold BB_EMPTY. destruct (Z.eqb_spec bb 0) as [->|Hne].
    + rewrite squares_of_empty. reflexivity.
    + rewrite (squares_of_highest bb Hbb Hne) in Hlen |- *.
      rewrite length_app in Hlen. cbn [List.length] in Hlen.
      rewrite rev_app_distr. cbn [rev app]. f_equal. apply IH; [|lia].
      apply (clear_highest_bits bb Hbb Hne).
Qed.

(** X12. The two scans yield exactly the squares of the bitboard
    ([squares_of]: the squares whose bit is set, in the order of
    [SQUARES]), each once: [scan_forward] from the lowest to the highest,
    [scan_reversed] from the highest to the lowest. *)
Theorem scans_list_the_squares_in_order (bb : Bitboard) :
  wf_bb bb ->
  scan_forward bb = squares_of bb
  /\ scan_reversed bb = rev (squares_of bb).
Proof.
  intros Hbb. unfold scan_reversed, scan_forward. split.
  - exact (scan_forward_loop_squares 64 bb Hbb (squares_of_length bb)).
  - exact (scan_reversed_loop_squares 64 bb Hbb (squares_of_length bb)).
Qed.

Lemma scans_list_the_squares_in_order_witness :
  scan_forward 0x8100000000000081 = squares_of 0x8100000000000081
  /\ scan_reversed 0x8100000000000081 = rev (squares_of 0x8100000000000081).
Proof. apply (scans_list_the_squares_in_order 0x8100000000000081). unfold wf_bb. lia. Defined.

(** ** Counting the squares of a bitboard *)

Lemma popcount_double x : 0 <= x -> __builtin_popcountll (2 * x) = __builtin_popcountll x.
Proof. intros Hx. destruct x as [|p|p]; try lia; reflexivity. Qed.

Lemma pos_popcount_clear_lowest p :
  pos_popcount p = 1 + __builtin_popcountll (Zpos p - 2 ^ pos_ctz p).
Proof.
  induction p as [q IH|q IH|]; cbn [pos_ctz]; try reflexivity.
  pose proof (pos_ctz_nonneg q).
  change (pos_popcount q~0) with (pos_popcount q).
  change (Zpos q~0) with (2 * Zpos q).
  replace (2 * Zpos q - 2 ^ (1 + pos_ctz q)) with (2 * (Zpos q - 2 ^ pos_ctz q))
    by (rewrite Z.pow_add_r by lia; change (2 ^ 1) with 2;
        generalize (2 ^ pos_ctz q); intros; lia).
  rewrite popcount_double; [exact IH|].
  rewrite <- pos_clear_lowest. apply Z.land_nonneg. lia.
Qed.

Lemma popcount_clear_lowest bb : wf_bb bb -> bb <> 0 ->
  popcount bb = 1 + popcount (Z.land bb (u64 (bb - 1))).
Proof.
  intros Hbb Hne. destruct bb as [|p|p]; [congruence| |destruct Hbb; lia].
  rewrite u64_mod, Z.mod_small by (destruct Hbb; lia).
  rewrite pos_clear_lowest. unfold popcount. cbn [__builtin_popcountll].
  apply pos_popcount_clear_lowest.
Qed.

Lemma popcount_squares n : forall bb, wf_bb bb ->
  List.length (squares_of bb) = n -> popcount bb = Z.of_nat n.
Proof.
  induction n as [|n IH]; intros bb Hbb Hlen.
  - destruct (Z.eq_dec bb 0) as [->|Hne]; [reflexivity|].
    rewrite (squares_of_lowest bb Hbb Hne) in Hlen. discriminate.
  - destruct (Z.eq_dec bb 0) as [->|Hne]; [rewrite squares_of_empty in Hlen; discriminate|].
    rewrite (squares_of_lowest bb Hbb Hne) in Hlen. cbn [List.length] in Hlen.
    rewrite (popcount_clear_lowest bb Hbb Hne).
    rewrite (IH (Z.land bb (u64 (bb - 1)))); [lia | apply (clear_lowest_bits bb Hbb Hne) | lia].
Qed.

(** ** SquareSet *)

Lemma contains_bit s sq : 0 <= sq < 64 ->
  SquareSet.contains s sq = Z.testbit (SquareSet.mask s) sq.
Proof.
  intros H. unfold SquareSet.contains. rewrite Z.land_comm. apply nonzero_land_square, H.
Qed.

Lemma NoDup_map_of_nat l : NoDup l -> NoDup (map Z.of_nat l).
Proof.
  induction 1 as [|x l Hx _ IH]; cbn [map]; constructor; [|exact IH].
  intros Hin. apply in_map_iff in Hin as (y & Hy & Hin).
  apply Nat2Z.inj in Hy. subst y. exact (Hx Hin).
Qed.

Lemma NoDup_squares_of bb : NoDup (squares_of bb).
Proof. apply NoDup_filter, NoDup_map_of_nat, seq_NoDup. Qed.

(** X13. [size] (and [__len__]) is the number of squares the iteration
    over the set yields; the iteration yields every square of the set, and
    no square twice. *)
Theorem size_counts_the_iterated_squares (s : SquareSet.t) (sq : Square) :
  wf_bb (SquareSet.mask s) -> 0 <= sq < 64 ->
  SquareSetOps.size s = Z.of_nat (List.length (SquareSetOps.__iter__ s))
  /\ SquareSetOps.__len__ s = SquareSetOps.size s
  /\ NoDup (SquareSetOps.__iter__ s)
  /\ (In sq (SquareSetOps.__iter__ s) <-> SquareSet.contains s sq = true).
Proof.
  intros Hwf Hsq. unfold SquareSetOps.size, SquareSetOps.__len__, SquareSetOps.__iter__, scan_forward.
  rewrite (scan_forward_loop_squares 64 _ Hwf (squares_of_length _)).
  split; [apply (popcount_squares _ _ Hwf); reflexivity|].
  split; [reflexivity|]. split; [apply NoDup_squares_of|].
  rewrite In_squares_of, contains_bit by exact Hsq. tauto.
Qed.

Lemma size_counts_the_iterated_squares_witness :
  SquareSetOps.size (SquareSet.SquareSet 0x0100000000000001)
  = Z.of_nat (List.length (SquareSetOps.__iter__ (SquareSet.SquareSet 0x0100000000000001)))
  /\ SquareSetOps.__len__ (SquareSet.SquareSet 0x0100000000000001)
     = SquareSetOps.size (SquareSet.SquareSet 0x0100000000000001)
  /\ NoDup (SquareSetOps.__iter__ (SquareSet.SquareSet 0x0100000000000001))
  /\ (In 56 (SquareSetOps.__iter__ (SquareSet.SquareSet 0x0100000000000001))
      <-> SquareSet.contains (SquareSet.SquareSet 0x0100000000000001) 56 = true).
Proof.
  apply (size_counts_the_iterated_squares (SquareSet.SquareSet 0x0100000000000001) 56);
    [cbn; unfold wf_bb; lia | lia].
Defined.

Lemma set_operator_bits (s other : SquareSet.t) (sq : Square) :
  0 <= sq < 64 ->
  SquareSet.contains (SquareSetOps.operator_or s other) sq
    = SquareSet.contains s sq || SquareSet.contains other sq
  /\ SquareSet.contains (SquareSetOps.operator_and s other) sq
    = SquareSet.contains s sq && SquareSet.contains other sq
  /\ SquareSet.contains (SquareSetOps.operator_sub s other) sq
    = SquareSet.contains s sq && negb (SquareSet.contains other sq)
  /\ SquareSet.contains (SquareSetOps.operator_xor s other) sq
    = xorb (SquareSet.contains s sq) (SquareSet.contains other sq)
  /\ SquareSet.contains (SquareSetOps.operator_not s) sq
    = negb (SquareSet.contains s sq).
Proof.
  intros Hsq. rewrite !contains_bit by exact Hsq.
  unfold SquareSetOps.operator_or, SquareSetOps.operator_and, SquareSetOps.operator_sub,
    SquareSetOps.operator_xor, SquareSetOps.operator_not.
  cbn [SquareSet.mask].
  rewrite Z.lor_spec, !Z.land_spec, Z.lxor_spec, !testbit_bb_not by lia.
  replace (sq <? 64) with true by (symmetry; apply Z.ltb_lt; lia).
  destruct (Z.testbit (SquareSet.mask s) sq), (Z.testbit (SquareSet.mask other) sq);
    repeat split; reflexivity.
Qed.

(** X14. The set operators act square by square: [|] is union, [&]
    intersection, [-] difference, [^] symmetric difference and [~] the
    complement on the board. *)
Theorem set_operators_act_square_by_square (s other : SquareSet.t) (sq : Square) :
  0 <= sq < 64 ->
  SquareSet.contains (SquareSetOps.operator_or s other) sq
    = SquareSet.contains s sq || SquareSet.contains other sq
  /\ SquareSet.contains (SquareSetOps.operator_and s other) sq
    = SquareSet.contains s sq && SquareSet.contains other sq
  /\ SquareSet.contains (SquareSetOps.operator_sub s other) sq
    = SquareSet.contains s sq && negb (SquareSet.contains other sq)
  /\ SquareSet.contains (SquareSetOps.operator_xor s other) sq
    = xorb (SquareSet.contains s sq) (SquareSet.contains other sq)
  /\ SquareSet.contains (SquareSetOps.operator_not s) sq
    = negb (SquareSet.contains s sq).
Proof. exact (set_operator_bits s other sq). Qed.

Lemma set_operators_act_square_by_square_witness :
  SquareSet.contains (SquareSetOps.operator_or (SquareSet.SquareSet 3) (SquareSet.SquareSet 6)) 1
    = SquareSet.contains (SquareSet.SquareSet 3) 1 || SquareSet.contains (SquareSet.SquareSet 6) 1
  /\ SquareSet.contains (SquareSetOps.operator_and (SquareSet.SquareSet 3) (SquareSet.SquareSet 6)) 1
    = SquareSet.contains (SquareSet.SquareSet 3) 1 && SquareSet.contains (SquareSet.SquareSet 6) 1
  /\ SquareSet.contains (SquareSetOps.operator_sub (SquareSet.SquareSet 3) (SquareSet.SquareSet 6)) 1
    = SquareSet.contains (SquareSet.SquareSet 3) 1
      && negb (SquareSet.contains (SquareSet.SquareSet 6) 1)
  /\ SquareSet.contains (SquareSetOps.operator_xor (SquareSet.SquareSet 3) (SquareSet.SquareSet 6)) 1
    = xorb (SquareSet.contains (SquareSet.SquareSet 3) 1)
           (SquareSet.contains (SquareSet.SquareSet 6) 1)
  /\ SquareSet.contains (SquareSetOps.operator_not (SquareSet.SquareSet 3)) 1
    = negb (SquareSet.contains (SquareSet.SquareSet 3) 1).
Proof.
  apply (set_operators_act_square_by_square (SquareSet.SquareSet 3) (SquareSet.SquareSet 6) 1).
  lia.
Defined.

Lemma no_squares_iff_zero x : wf_bb x ->
  x = 0 <-> (forall sq, 0 <= sq < 64 -> Z.testbit x sq = false).
Proof.
  intros Hx. split.
  - intros -> sq _. apply Z.bits_0.
  - intros H. apply wf_bb_squares; [exact Hx | unfold wf_bb; lia |].
    intros sq Hsq. rewrite Z.bits_0. apply H, Hsq.
Qed.

Lemma operator_bool_false s : wf_bb (SquareSet.mask s) ->
  SquareSetOps.operator_bool s = false
  <-> (forall sq, 0 <= sq < 64 -> SquareSet.contains s sq = false).
Proof.
  intros Hwf. unfold SquareSetOps.operator_bool, nonzero.
  rewrite negb_false_iff, Z.eqb_eq, (no_squares_iff_zero _ Hwf).
  split; intros H sq Hsq; [rewrite contains_bit by exact Hsq | rewrite <- contains_bit by exact Hsq];
    apply H, Hsq.
Qed.

(** X15. What the three comparisons of sets compute.  [isdisjoint] holds
    when no square is in both sets.  [issubset(other)] holds when every
    square of [other] is in this set, and [issuperset(other)] when every
    square of this set is in [other]: each of the two tests the inclusion
    its name gives to the other. *)
Theorem set_comparisons_computed (s other : SquareSet.t) :
  wf_bb (SquareSet.mask s) -> wf_bb (SquareSet.mask other) ->
  (SquareSetOps.isdisjoint s other = true
   <-> forall sq, 0 <= sq < 64 ->
         SquareSet.contains s sq = true -> SquareSet.contains other sq = false)
  /\ (SquareSetOps.issubset s other = true
      <-> forall sq, 0 <= sq < 64 ->
            SquareSet.contains other sq = true -> SquareSet.contains s sq = true)
  /\ (SquareSetOps.issuperset s other = true
      <-> forall sq, 0 <= sq < 64 ->
            SquareSet.contains s sq = true -> SquareSet.contains other sq = true).
Proof.
  intros Hs Ho.
  assert (Hand : forall a b, wf_bb (SquareSet.mask a) -> wf_bb (SquareSet.mask b) ->
                 wf_bb (SquareSet.mask (SquareSetOps.operator_and a b))).
  { intros a b Ha Hb. cbn. apply wf_bb_land_l; [exact Hb | destruct Ha; lia]. }
  assert (Hnot : forall a, wf_bb (SquareSet.mask (SquareSetOps.operator_not a))).
  { intros a. apply wf_bb_bb_not. }
  unfold SquareSetOps.isdisjoint, SquareSetOps.issubset, SquareSetOps.issuperset.
  rewrite !negb_true_iff, !operator_bool_false by (apply Hand; try apply Hnot; assumption).
  repeat split; intros H sq Hsq; specialize (H sq Hsq);
    destruct (set_operator_bits s other sq Hsq) as (_ & E1 & _);
    destruct (set_operator_bits (SquareSetOps.operator_not s) other sq Hsq) as (_ & E2 & _);
    destruct (set_operator_bits s (SquareSetOps.operator_not other) sq Hsq) as (_ & E3 & _);
    destruct (set_operator_bits s other sq Hsq) as (_ & _ & _ & _ & E4);
    destruct (set_operator_bits other s sq Hsq) as (_ & _ & _ & _ & E5);
    rewrite ?E1, ?E2, ?E3, ?E4, ?E5 in *;
    destruct (SquareSet.contains s sq), (SquareSet.contains other sq);
    cbn in *; try reflexivity; try discriminate; try (intros; discriminate);
    try (specialize (H eq_refl); discriminate).
Qed.

Lemma set_comparisons_computed_witness :
  (SquareSetOps.isdisjoint (SquareSet.SquareSet 7) (SquareSet.SquareSet 3) = true
   <-> forall sq, 0 <= sq < 64 ->
         SquareSet.contains (SquareSet.SquareSet 7) sq = true ->
         SquareSet.contains (SquareSet.SquareSet 3) sq = false)
  /\ (SquareSetOps.issubset (SquareSet.SquareSet 7) (SquareSet.SquareSet 3) = true
      <-> forall sq, 0 <= sq < 64 ->
            SquareSet.contains (SquareSet.SquareSet 3) sq = true ->
            SquareSet.contains (SquareSet.SquareSet 7) sq = true)
  /\ (SquareSetOps.issuperset (SquareSet.SquareSet 7) (SquareSet.SquareSet 3) = true
      <-> forall sq, 0 <= sq < 64 ->
            SquareSet.contains (SquareSet.SquareSet 7) sq = true ->
            SquareSet.contains (SquareSet.SquareSet 3) sq = true).
Proof.
  apply (set_comparisons_computed (SquareSet.SquareSet 7) (SquareSet.SquareSet 3));
    cbn; unfold wf_bb; lia.
Defined.

Lemma add_discard_bits s a sq : wf_bb (SquareSet.mask s) -> 0 <= a < 64 -> 0 <= sq < 64 ->
  SquareSet.contains (SquareSet.add s a) sq = SquareSet.contains s sq || (a =? sq)
  /\ SquareSet.contains (SquareSet.discard s a) sq = SquareSet.contains s sq && negb (a =? sq).
Proof.
  intros Hwf Ha Hsq. rewrite !contains_bit by exact Hsq.
  unfold SquareSet.add, SquareSet.discard. cbn [SquareSet.mask].
  rewrite raised_bit, masked_bit by (assumption || lia). split; reflexivity.
Qed.

Lemma wf_bb_discard s a : wf_bb (SquareSet.mask s) ->
  wf_bb (SquareSet.mask (SquareSet.discard s a)).
Proof.
  intros Hwf. cbn. apply wf_bb_land_l; [exact Hwf|].
  destruct (wf_bb_bb_not (BB_SQUARES a)). lia.
Qed.

(** X16. [add] and [discard] change the membership of the one square they
    are given and of no other; [remove] does what [discard] does on a
    square of the set and throws [invalid_argument], with the square's
    number as its message, on a square that is not in the set. *)
Theorem add_discard_remove_one_square (s : SquareSet.t) (a sq : Square) :
  wf_bb (SquareSet.mask s) -> 0 <= a < 64 -> 0 <= sq < 64 ->
  SquareSet.contains (SquareSet.add s a) sq = SquareSet.contains s sq || (a =? sq)
  /\ SquareSet.contains (SquareSet.discard s a) sq = SquareSet.contains s sq && negb (a =? sq)
  /\ SquareSet.remove s a
     = if SquareSet.contains s a then Returns (SquareSet.discard s a)
       else Throws (invalid_argument (to_string a)).
Proof.
  intros Hwf Ha Hsq. destruct (add_discard_bits s a sq Hwf Ha Hsq) as (E1 & E2).
  split; [exact E1|]. split; [exact E2|].
  unfold SquareSet.remove. cbv zeta.
  rewrite nonzero_land_square, contains_bit by exact Ha.
  destruct (Z.testbit (SquareSet.mask s) a) eqn:Hbit; [|reflexivity].
  f_equal. unfold SquareSet.discard. f_equal.
  apply wf_bb_squares.
  - apply wf_bb_lxor; [exact Hwf | apply wf_bb_BB_SQUARES].
  - apply (wf_bb_discard s a Hwf).
  - intros i Hi. rewrite toggled_bit, masked_bit by (assumption || lia).
    destruct (Z.eqb_spec a i) as [<-|_].
    + rewrite Hbit. reflexivity.
    + rewrite xorb_false_r, andb_true_r. reflexivity.
Qed.

Lemma add_discard_remove_one_square_witness :
  SquareSet.contains (SquareSet.add (SquareSet.SquareSet 5) 1) 1
    = SquareSet.contains (SquareSet.SquareSet 5) 1 || (1 =? 1)
  /\ SquareSet.contains (SquareSet.discard (SquareSet.SquareSet 5) 1) 1
    = SquareSet.contains (SquareSet.SquareSet 5) 1 && negb (1 =? 1)
  /\ SquareSet.remove (SquareSet.SquareSet 5) 1
     = if SquareSet.contains (SquareSet.SquareSet 5) 1
       then Returns (SquareSet.discard (SquareSet.SquareSet 5) 1)
       else Throws (invalid_argument (to_string 1)).
Proof.
  apply (add_discard_remove_one_square (SquareSet.SquareSet 5) 1 1);
    [cbn; unfold wf_bb; lia | lia | lia].
Defined.

(** X17. On a set that is not empty, [pop] returns the lowest square of
    the set and leaves the set without that square, as [discard] would. *)
Theorem pop_takes_the_lowest_square (s : SquareSet.t) :
  wf_bb (SquareSet.mask s) -> SquareSet.mask s <> 0 ->
  exists square,
    SquareSet.pop s = Returns (square, SquareSet.discard s square)
    /\ 0 <= square < 64
    /\ SquareSet.contains s square = true
    /\ forall sq, 0 <= sq < 64 -> SquareSet.contains s sq = true -> square <= sq.
Proof.
  intros Hwf Hne.
  destruct (clear_lowest_bits _ Hwf Hne) as (Hwf' & Hc & Hset & Hlow & Hbits).
  exists (lsb (SquareSet.mask s)). split; [|split; [exact Hc|split]].
  - unfold SquareSet.pop. cbv zeta. f_equal. f_equal. unfold SquareSet.discard. f_equal.
    apply wf_bb_squares; [exact Hwf' | apply (wf_bb_discard s _ Hwf) |].
    intros i Hi. rewrite Hbits, masked_bit by (assumption || lia).
    rewrite (Z.eqb_sym i). reflexivity.
  - rewrite contains_bit by exact Hc. exact Hset.
  - intros sq Hsq Hin. rewrite contains_bit in Hin by exact Hsq.
    destruct (Z.le_gt_cases (lsb (SquareSet.mask s)) sq) as [|Hlt]; [assumption|].
    rewrite Hlow in Hin by lia. discriminate.
Qed.

Lemma pop_takes_the_lowest_square_witness :
  exists square,
    SquareSet.pop (SquareSet.SquareSet 0x0ff0)
    = Returns (square, SquareSet.discard (SquareSet.SquareSet 0x0ff0) square)
    /\ 0 <= square < 64
    /\ SquareSet.contains (SquareSet.SquareSet 0x0ff0) square = true
    /\ forall sq, 0 <= sq < 64 ->
         SquareSet.contains (SquareSet.SquareSet 0x0ff0) sq = true -> square <= sq.
Proof.
  apply (pop_takes_the_lowest_square (SquareSet.SquareSet 0x0ff0));
    [cbn; unfold wf_bb; lia | cbn; lia].
Defined.

Lemma land_pair a c b d :
  Z.land (2 * a + Z.b2z c) (2 * b + Z.b2z d) = 2 * Z.land a b + Z.b2z (c && d).
Proof.
  apply Z.bits_inj'. intros i Hi. rewrite Z.land_spec.
  destruct (Z.eq_dec i 0) as [->|Hne].
  - rewrite !Z.testbit_0_r. reflexivity.
  - replace i with (Z.succ (i - 1)) by lia.
    rewrite !Z.testbit_succ_r, Z.land_spec by lia. reflexivity.
Qed.

Lemma land_even_even a b : Z.land (2 * a) (2 * b) = 2 * Z.land a b.
Proof.
  pose proof (land_pair a false b false) as H. cbn [Z.b2z andb] in H.
  rewrite !Z.add_0_r in H. exact H.
Qed.

Lemma land_even_odd a b : Z.land (2 * a) (2 * b + 1) = 2 * Z.land a b.
Proof.
  pose proof (land_pair a false b true) as H. cbn [Z.b2z andb] in H.
  rewrite !Z.add_0_r in H. exact H.
Qed.

Lemma land_odd_odd a b : Z.land (2 * a + 1) (2 * b + 1) = 2 * Z.land a b + 1.
Proof. exact (land_pair a true b true). Qed.

Lemma land_odd_even a b : Z.land (2 * a + 1) (2 * b) = 2 * Z.land a b.
Proof.
  pose proof (land_pair a true b false) as H. cbn [Z.b2z andb] in H.
  rewrite !Z.add_0_r in H. exact H.
Qed.

(** Below a subset [s] of [m], the complement of [m - s] meets [m] in [s]. *)
Lemma land_below_subset s m : Z.land s m = s -> Z.land (s - m - 1) m = s.
Proof.
  intros Hsub.
  assert (Z.ldiff s m = 0) as Hd.
  { apply Z.bits_inj'. intros i Hi. rewrite Z.ldiff_spec, Z.bits_0.
    rewrite <- Hsub, Z.land_spec. destruct (Z.testbit s i), (Z.testbit m i); reflexivity. }
  replace (s - m - 1) with (Z.lnot (m - s)) by (unfold Z.lnot; lia).
  rewrite (Z.sub_nocarry_ldiff m s Hd).
  apply Z.bits_inj'. intros i Hi.
  rewrite Z.land_spec, Z.lnot_spec, Z.ldiff_spec by lia.
  rewrite <- Hsub at 2. rewrite Z.land_spec.
  destruct (Z.testbit s i), (Z.testbit m i); reflexivity.
Qed.

Local Abbreviation next_in m := (fun s => Z.land (s - m) m).

Lemma follows_even m l : forall x,
  follows (next_in m) x l -> follows (next_in (2 * m)) (2 * x) (map (fun s => 2 * s) l).
Proof.
  induction l as [|y l IH]; intros x; cbn [follows map].
  - intros H. replace (2 * x - 2 * m) with (2 * (x - m)) by lia.
    rewrite land_even_even, H. reflexivity.
  - intros (H & Hy & Hl). replace (2 * x - 2 * m) with (2 * (x - m)) by lia.
    rewrite land_even_even, H. split; [reflexivity|]. split; [lia|]. apply IH, Hl.
Qed.

Lemma follows_odd m l : 0 <= m -> forall x,
  Z.land x m = x -> Forall (fun s => Z.land s m = s) l -> 0 <= x ->
  follows (next_in m) x l ->
  follows (next_in (2 * m + 1)) (2 * x)
          ((2 * x + 1) :: flat_map (fun s => [2 * s; 2 * s + 1]) l).
Proof.
  intros Hm. induction l as [|y l IH]; intros x Hx Hl H0 H; cbn [follows flat_map app].
  - cbn [follows] in H. split; [|split; [lia|]].
    + replace (2 * x - (2 * m + 1)) with (2 * (x - m - 1) + 1) by lia.
      rewrite land_odd_odd, (land_below_subset x m Hx). reflexivity.
    + replace (2 * x + 1 - (2 * m + 1)) with (2 * (x - m)) by lia.
      rewrite land_even_odd, H. reflexivity.
  - cbn [follows] in H. destruct H as (H & Hy & Hrest).
    apply Forall_cons_iff in Hl as (Hysub & Hl).
    assert (0 <= y) as Hy0.
    { rewrite <- Hysub. apply Z.land_nonneg. right. exact Hm. }
    split; [|split; [lia|split; [|split; [lia|]]]].
    + replace (2 * x - (2 * m + 1)) with (2 * (x - m - 1) + 1) by lia.
      rewrite land_odd_odd, (land_below_subset x m Hx). reflexivity.
    + replace (2 * x + 1 - (2 * m + 1)) with (2 * (x - m)) by lia.
      rewrite land_even_odd, H. reflexivity.
    + exact (IH y Hysub Hl Hy0 Hrest).
Qed.

Lemma subsets_pos_spec p : forall x,
  In x (subsets_pos p) <-> 0 <= x /\ Z.land x (Zpos p) = x.
Proof.
  induction p as [q IH|q IH|]; intros x; cbn [subsets_pos].
  - change (Zpos q~1) with (2 * Zpos q + 1). rewrite in_flat_map. split.
    + intros (s & Hs & Hx). apply IH in Hs as (Hs0 & Hsub).
      destruct Hx as [<-|[<-|[]]].
      * rewrite land_even_odd, Hsub. lia.
      * rewrite land_odd_odd, Hsub. lia.
    + intros (Hx0 & Hsub). exists (Z.div2 x).
      pose proof (Z.div2_odd x) as Hx. rewrite Hx in Hsub at 1.
      pose proof (land_pair (Z.div2 x) (Z.odd x) (Zpos q) true) as Hp.
      change (2 * Zpos q + Z.b2z true) with (2 * Zpos q + 1) in Hp.
      rewrite Hp, andb_true_r in Hsub.
      split.
      * apply IH. destruct (Z.odd x); cbn [Z.b2z] in *; lia.
      * destruct (Z.odd x); cbn [Z.b2z] in *; cbn [In]; lia.
  - change (Zpos q~0) with (2 * Zpos q). rewrite in_map_iff. split.
    + intros (s & <- & Hs). apply IH in Hs as (Hs0 & Hsub).
      rewrite land_even_even, Hsub. lia.
    + intros (Hx0 & Hsub). exists (Z.div2 x).
      pose proof (Z.div2_odd x) as Hx. rewrite Hx in Hsub at 1.
      pose proof (land_pair (Z.div2 x) (Z.odd x) (Zpos q) false) as Hp.
      change (2 * Zpos q + Z.b2z false) with (2 * Zpos q + 0) in Hp.
      rewrite Z.add_0_r in Hp. rewrite Hp, andb_false_r in Hsub. cbn [Z.b2z] in Hsub.
      split.
      * destruct (Z.odd x); cbn [Z.b2z] in *; lia.
      * apply IH. destruct (Z.odd x); cbn [Z.b2z] in *; lia.
  - split.
    + intros [<-|[<-|[]]]; split; (lia || reflexivity).
    + intros (Hx0 & Hsub).
      pose proof (Z.div2_odd x) as Hx. rewrite Hx in Hsub at 1.
      pose proof (land_pair (Z.div2 x) (Z.odd x) 0 true) as Hp.
      change (2 * 0 + Z.b2z true) with 1 in Hp.
      rewrite Hp, Z.land_0_r, andb_true_r in Hsub.
      destruct (Z.odd x); cbn [Z.b2z] in *; cbn [In]; lia.
Qed.

Lemma subsets_pos_head p : exists l, subsets_pos p = 0 :: l.
Proof.
  induction p as [q [l IH]|q [l IH]|]; cbn [subsets_pos].
  - rewrite IH. cbn [flat_map app]. eexists. reflexivity.
  - rewrite IH. cbn [map]. eexists. reflexivity.
  - eexists. reflexivity.
Qed.

Lemma subsets_pos_follows p : forall l,
  subsets_pos p = 0 :: l -> follows (next_in (Zpos p)) 0 l.
Proof.
  induction p as [q IH|q IH|]; intros l Hl; cbn [subsets_pos] in Hl.
  - destruct (subsets_pos_head q) as [l' Hq]. rewrite Hq in Hl.
    cbn [flat_map app] in Hl. injection Hl as <-.
    change (Zpos q~1) with (2 * Zpos q + 1).
    apply (follows_odd (Zpos q) l' ltac:(lia) 0); try lia.
    + apply Z.land_0_l.
    + apply Forall_forall. intros s Hs. apply (subsets_pos_spec q).
      rewrite Hq. right. exact Hs.
    + apply IH, Hq.
  - destruct (subsets_pos_head q) as [l' Hq]. rewrite Hq in Hl.
    cbn [map] in Hl. injection Hl as <-.
    change (Zpos q~0) with (2 * Zpos q).
    apply (follows_even (Zpos q) l' 0). apply IH, Hq.
  - injection Hl as <-. cbn. repeat split. discriminate.
Qed.

Lemma land_u64_l x mask : wf_bb mask -> Z.land (u64 x) mask = Z.land x mask.
Proof.
  intros Hm. unfold u64. rewrite <- Z.land_assoc. f_equal.
  apply wf_bb_squares.
  - rewrite Z.land_comm. apply wf_bb_land_l; [exact Hm | lia].
  - exact Hm.
  - intros s Hs. rewrite Z.land_spec.
    change 0xffffffffffffffff with (Z.ones 64). rewrite Z.ones_spec_low by lia. reflexivity.
Qed.

Lemma _carry_rippler_loop_follows mask : wf_bb mask -> forall l x fuel,
  follows (next_in mask) x l -> (List.length l < fuel)%nat ->
  _carry_rippler_loop fuel mask x = Some (x :: l).
Proof.
  intros Hm. induction l as [|y l IH]; intros x fuel H Hfuel;
    (destruct fuel as [|fuel]; [cbn in Hfuel; lia|]);
    cbn [_carry_rippler_loop]; cbv zeta; rewrite (land_u64_l _ _ Hm); cbn [follows] in H.
  - rewrite H. reflexivity.
  - destruct H as (H & Hy & Hrest). rewrite H.
    replace (y =? 0) with false by (symmetry; apply Z.eqb_neq; exact Hy).
    rewrite (IH y fuel Hrest) by (cbn [List.length] in Hfuel; lia). reflexivity.
Qed.

Lemma pos_popcount_pos p : 0 < pos_popcount p.
Proof. induction p; cbn [pos_popcount]; lia. Qed.

Lemma flat_map_pair_length {A} (f g : A -> A) (l : list A) :
  List.length (flat_map (fun s => [f s; g s]) l) = (2 * List.length l)%nat.
Proof. induction l as [|x l IH]; cbn [flat_map app List.length]; lia. Qed.

Lemma subsets_pos_length p : Z.of_nat (List.length (subsets_pos p)) = 2 ^ pos_popcount p.
Proof.
  induction p as [q IH|q IH|]; cbn [subsets_pos pos_popcount].
  - rewrite (flat_map_pair_length (fun s => 2 * s) (fun s => 2 * s + 1)).
    pose proof (pos_popcount_pos q).
    rewrite Z.pow_add_r by lia. change (2 ^ 1) with 2. lia.
  - rewrite length_map. exact IH.
  - reflexivity.
Qed.

Lemma NoDup_doubles l : NoDup l -> NoDup (map (fun s => 2 * s) l).
Proof.
  induction 1 as [|x l Hx _ IH]; cbn [map]; constructor; [|exact IH].
  intros Hin. apply in_map_iff in Hin as (y & Hy & Hin).
  assert (y = x) by lia. subst y. exact (Hx Hin).
Qed.

Lemma NoDup_pairs l : NoDup l -> NoDup (flat_map (fun s => [2 * s; 2 * s + 1]) l).
Proof.
  induction 1 as [|x l Hx _ IH]; cbn [flat_map app]; [constructor|].
  constructor; [|constructor; [|exact IH]].
  - intros [Hin|Hin]; [lia|].
    apply in_flat_map in Hin as (y & Hy & [E|[E|[]]]); assert (y = x) by lia; subst y;
      exact (Hx Hy).
  - intros Hin.
    apply in_flat_map in Hin as (y & Hy & [E|[E|[]]]); assert (y = x) by lia; subst y;
      exact (Hx Hy).
Qed.

Lemma NoDup_subsets_pos p : NoDup (subsets_pos p).
Proof.
  induction p as [q IH|q IH|]; cbn [subsets_pos].
  - apply NoDup_pairs, IH.
  - apply NoDup_doubles, IH.
  - constructor; [intros [H|[]]; discriminate|]. constructor; [intros []|constructor].
Qed.

(** X18. The Carry-Rippler iteration over the subsets of a mask ends, and
    it has then yielded every subset of the mask exactly once:
    [2 ^ popcount(mask)] values, beginning with the empty subset. *)
Theorem carry_rippler_yields_every_subset_once (mask : Bitboard) :
  wf_bb mask ->
  exists l,
    _carry_rippler mask = Some (0 :: l)
    /\ NoDup (0 :: l)
    /\ (forall x, In x (0 :: l) <-> 0 <= x /\ Z.land x mask = x)
    /\ Z.of_nat (List.length (0 :: l)) = 2 ^ popcount mask.
Proof.
  intros Hm. destruct mask as [|p|p]; [| |destruct Hm; lia].
  - exists []. split; [reflexivity|]. split; [repeat constructor; intros []|].
    split; [|reflexivity].
    intros x. rewrite Z.land_0_r. cbn [In]. split; [intros [<-|[]]; lia | intros [_ <-]; auto].
  - destruct (subsets_pos_head p) as [l Hl]. exists l.
    pose proof (subsets_pos_length p) as Hlen. rewrite Hl in Hlen.
    split.
    + unfold _carry_rippler, popcount, BB_EMPTY. cbn [__builtin_popcountll].
      apply (_carry_rippler_loop_follows _ Hm); [apply subsets_pos_follows, Hl|].
      cbn [List.length] in Hlen. lia.
    + rewrite <- Hl. split; [apply NoDup_subsets_pos|].
      split; [apply subsets_pos_spec|]. rewrite Hl. exact Hlen.
Qed.

Lemma carry_rippler_yields_every_subset_once_witness :
  exists l,
    _carry_rippler 0x0000000000240800 = Some (0 :: l)
    /\ NoDup (0 :: l)
    /\ (forall x, In x (0 :: l) <-> 0 <= x /\ Z.land x 0x0000000000240800 = x)
    /\ Z.of_nat (List.length (0 :: l)) = 2 ^ popcount 0x0000000000240800.
Proof. apply (carry_rippler_yields_every_subset_once 0x0000000000240800). unfold wf_bb. lia. Defined.

Lemma testbit_mask_of l t : Forall (fun i => 0 <= i) l ->
  Z.testbit (mask_of l) t = existsb (Z.eqb t) l.
Proof.
  induction 1 as [|q l Hq _ IH]; cbn [mask_of existsb]; [apply Z.bits_0|].
  rewrite Z.lor_spec, Z.pow2_bits_eqb, IH by exact Hq. rewrite (Z.eqb_sym q). reflexivity.
Qed.

Lemma _sliding_walk_visible occ delta fuel : forall sq acc,
  (List.length (ray_squares fuel delta sq) < fuel)%nat ->
  _sliding_walk fuel occ delta sq acc
  = Some (Z.lor acc (mask_of (visible occ (ray_squares fuel delta sq)))).
Proof.
  induction fuel as [|fuel IH]; intros sq acc Hlen; [cbn in Hlen; lia|].
  cbn [_sliding_walk ray_squares] in *. fold (walk_stops delta sq) in *.
  destruct (walk_stops delta sq) eqn:Hs.
  - cbn [visible mask_of]. rewrite Z.lor_0_r. reflexivity.
  - pose proof (walk_stops_range _ _ Hs) as Hr.
    rewrite nonzero_land_square by lia. cbn [visible mask_of].
    rewrite BB_SQUARES_pow2 by lia.
    destruct (Z.testbit occ (sq + delta)).
    + cbn [mask_of]. rewrite Z.lor_0_r. reflexivity.
    + rewrite IH by (cbn [List.length] in Hlen; lia). rewrite Z.lor_assoc. reflexivity.
Qed.

Lemma ray_check_range rays s : forall l seen,
  ray_check rays s seen l = true -> Forall (fun q => 0 <= q < 64) l.
Proof.
  induction l as [|q l IH]; intros seen H; [constructor|].
  cbn [ray_check] in H. split_checks. constructor; [lia|]. eapply IH. eassumption.
Qed.

Lemma ray_check_covers rays s : forall l seen t,
  ray_check rays s seen l = true -> In t l ->
  Z.land (between_in rays s t) seen = seen.
Proof.
  induction l as [|q l IH]; intros seen t H Hin; [destruct Hin|].
  cbn [ray_check] in H. split_checks. destruct Hin as [<-|Hin].
  - replace (between_in rays s q) with seen by lia. apply Z.land_diag.
  - pose proof (IH _ t ltac:(eassumption) Hin) as Hc.
    apply Z.bits_inj'. intros i Hi. rewrite Z.land_spec.
    apply (f_equal (fun z => Z.testbit z i)) in Hc.
    rewrite Z.land_spec, Z.lor_spec in Hc.
    destruct (Z.testbit seen i); [|apply andb_false_r].
    cbn [orb] in Hc. rewrite andb_true_r in Hc |- *. exact Hc.
Qed.

Lemma visible_between rays s occ : forall l seen t,
  ray_check rays s seen l = true -> Z.land seen occ = 0 ->
  existsb (Z.eqb t) (visible occ l)
  = existsb (Z.eqb t) l && (Z.land (between_in rays s t) occ =? 0).
Proof.
  induction l as [|q l IH]; intros seen t H Hseen; [reflexivity|].
  pose proof (ray_check_covers rays s (q :: l) seen) as Hcov.
  cbn [ray_check] in H. split_checks.
  cbn [visible existsb].
  destruct (Z.eqb_spec t q) as [->|Hne].
  - replace (between_in rays s q) with seen by lia. rewrite Hseen. reflexivity.
  - cbn [orb]. destruct (Z.testbit occ q) eqn:Hq.
    + cbn [existsb]. symmetry.
      destruct (existsb (Z.eqb t) l) eqn:Hin; [|reflexivity]. cbn [andb].
      apply Z.eqb_neq. intros Hz.
      apply existsb_exists in Hin as (t' & Hin & E). apply Z.eqb_eq in E. subst t'.
      pose proof (ray_check_covers rays s l _ t ltac:(eassumption) Hin) as Hc.
      apply (f_equal (fun z => Z.testbit z q)) in Hc, Hz.
      rewrite Z.land_spec, Z.lor_spec, Z.pow2_bits_true in Hc by lia.
      rewrite Z.land_spec, Hq, Z.bits_0, andb_true_r in Hz.
      rewrite Hz, orb_true_r in Hc. discriminate.
    + apply (IH (Z.lor seen (2 ^ q))); [assumption|].
      rewrite Z.land_lor_distr_l, Hseen, Z.lor_0_l, Z.land_comm, land_pow2, Hq by lia.
      reflexivity.
Qed.

Lemma _sliding_deltas_visible rays occ s : forall deltas acc,
  forallb (fun delta =>
             let l := ray_squares walk_fuel delta s in
             (List.length l <? walk_fuel)%nat && ray_check rays s 0 l) deltas = true ->
  exists a,
    _sliding_deltas s occ deltas acc = Some a
    /\ forall t,
         Z.testbit a t
         = Z.testbit acc t
           || (existsb (fun delta => existsb (Z.eqb t) (ray_squares walk_fuel delta s)) deltas
               && (Z.land (between_in rays s t) occ =? 0)).
Proof.
  induction deltas as [|delta rest IH]; intros acc H; cbn [_sliding_deltas existsb].
  - exists acc. split; [reflexivity|]. intros t. rewrite orb_false_r. reflexivity.
  - cbn [forallb] in H. cbv zeta in H. split_checks.
    rewrite _sliding_walk_visible by (apply Nat.ltb_lt; assumption).
    destruct (IH (Z.lor acc (mask_of (visible occ (ray_squares walk_fuel delta s))))
                ltac:(assumption)) as (a & Ha & Hbits).
    exists a. split; [exact Ha|]. intros t. rewrite Hbits, Z.lor_spec.
    pose proof (ray_check_range _ _ _ _ ltac:(eassumption)) as Hrange.
    rewrite testbit_mask_of.
    + rewrite (visible_between rays s occ _ 0 t) by (assumption || apply Z.land_0_l).
      destruct (Z.testbit acc t), (existsb (Z.eqb t) (ray_squares walk_fuel delta s)),
        (Z.land (between_in rays s t) occ =? 0),
        (existsb (fun delta0 => existsb (Z.eqb t) (ray_squares walk_fuel delta0 s)) rest);
        reflexivity.
    + clear -Hrange. induction Hrange as [|q l Hq _ IHl]; cbn [visible]; [constructor|].
      constructor; [lia|]. destruct (Z.testbit occ q); [constructor | exact IHl].
Qed.

Lemma sliding_attacks_on_lines deltas line s t occ :
  all_walks_ok deltas line = true -> 0 <= s < 64 -> 0 <= t < 64 ->
  exists a,
    _sliding_attacks s occ deltas = Some a
    /\ Z.testbit a t = line s t && (Z.land (between s t) occ =? 0).
Proof.
  intros Hok Hs Ht. unfold all_walks_ok in Hok. cbv zeta in Hok.
  pose proof (on_all_squares _ Hok s Hs) as H. unfold walks_ok in H.
  apply andb_true_iff in H as [Hwalks Hline].
  destruct (_sliding_deltas_visible BB_RAYS occ s deltas BB_EMPTY Hwalks) as (a & Ha & Hbits).
  exists a. split; [exact Ha|].
  pose proof (on_all_squares _ Hline t Ht) as E. cbv beta in E. apply eqb_prop in E.
  rewrite Hbits, E. unfold BB_EMPTY, between. rewrite Z.bits_0. reflexivity.
Qed.

Lemma diagonal_walks_checked : all_walks_ok _DIAG on_diagonal = true.
Proof. vm_compute. reflexivity. Qed.

Lemma rank_walks_checked : all_walks_ok _RANK on_rank = true.
Proof. vm_compute. reflexivity. Qed.

Lemma file_walks_checked : all_walks_ok _FILE on_file = true.
Proof. vm_compute. reflexivity. Qed.

(** X19. A slider reaches along its lines until the first occupied square:
    for every occupancy, [_sliding_attacks] with the deltas of the
    diagonals, of the ranks or of the files returns, and the bitboard it
    returns holds a square [t] exactly when [t] is on such a line through
    [s], [s] itself left out, and no square between [s] and [t] is
    occupied. *)
Theorem sliding_attacks_reach_until_blocked (s t : Square) (occ : Bitboard) :
  0 <= s < 64 -> 0 <= t < 64 ->
  exists d r f,
    _sliding_attacks s occ _DIAG = Some d
    /\ _sliding_attacks s occ _RANK = Some r
    /\ _sliding_attacks s occ _FILE = Some f
    /\ Z.testbit d t = on_diagonal s t && (Z.land (between s t) occ =? 0)
    /\ Z.testbit r t = on_rank s t && (Z.land (between s t) occ =? 0)
    /\ Z.testbit f t = on_file s t && (Z.land (between s t) occ =? 0).
Proof.
  intros Hs Ht.
  destruct (sliding_attacks_on_lines _ _ s t occ diagonal_walks_checked Hs Ht) as (d & Hd & Ed).
  destruct (sliding_attacks_on_lines _ _ s t occ rank_walks_checked Hs Ht) as (r & Hr & Er).
  destruct (sliding_attacks_on_lines _ _ s t occ file_walks_checked Hs Ht) as (f & Hf & Ef).
  exists d, r, f. repeat split; assumption.
Qed.

Lemma sliding_attacks_reach_until_blocked_witness :
  exists d r f,
    _sliding_attacks 27 0x0000201000000200 _DIAG = Some d
    /\ _sliding_attacks 27 0x0000201000000200 _RANK = Some r
    /\ _sliding_attacks 27 0x0000201000000200 _FILE = Some f
    /\ Z.testbit d 54 = on_diagonal 27 54 && (Z.land (between 27 54) 0x0000201000000200 =? 0)
    /\ Z.testbit r 54 = on_rank 27 54 && (Z.land (between 27 54) 0x0000201000000200 =? 0)
    /\ Z.testbit f 54 = on_file 27 54 && (Z.land (between 27 54) 0x0000201000000200 =? 0).
Proof. apply (sliding_attacks_reach_until_blocked 27 54 0x0000201000000200); lia. Defined.

(** ** Names of squares *)

Lemma index_range l v : 0 <= index l v <= Z.of_nat (List.length l).
Proof.
  induction l as [|x l IH]; cbn [index List.length]; [lia|].
  destruct (String.eqb x v); lia.
Qed.

Lemma index_absent l v : ~ In v l -> index l v = Z.of_nat (List.length l).
Proof.
  induction l as [|x l IH]; intros H; cbn [index List.length]; [reflexivity|].
  destruct (String.eqb_spec x v) as [->|_]; [exfalso; apply H; left; reflexivity|].
  rewrite IH by (intros Hin; apply H; right; exact Hin). lia.
Qed.

Lemma index_present l v : In v l ->
  index l v < Z.of_nat (List.length l)
  /\ nth (Z.to_nat (index l v)) l ""%string = v.
Proof.
  induction l as [|x l IH]; intros H; [destruct H|]. cbn [index List.length].
  destruct (String.eqb_spec x v) as [->|Hne]; [split; [lia | reflexivity]|].
  destruct H as [H|H]; [congruence|]. destruct (IH H) as (Hlt & Hnth).
  pose proof (index_range l v).
  split; [lia|]. replace (Z.to_nat (1 + index l v)) with (S (Z.to_nat (index l v))) by lia.
  exact Hnth.
Qed.

Lemma square_names_checked : forallb square_name_ok SQUARES = true.
Proof. vm_compute. reflexivity. Qed.

(** X20. [parse_square] and [square_name] are inverse to each other on
    the 64 squares and their names, and [parse_square] answers 64, one
    past the last square, for every string that is not one of the names. *)
Theorem parse_square_inverts_square_name (s : Square) (name : string) :
  0 <= s < 64 ->
  parse_square (square_name s) = s
  /\ (In name SQUARE_NAMES ->
        0 <= parse_square name < 64 /\ square_name (parse_square name) = name)
  /\ (~ In name SQUARE_NAMES -> parse_square name = 64).
Proof.
  intros Hs. split; [|split].
  - pose proof (on_all_squares _ square_names_checked s Hs) as H.
    unfold square_name_ok in H. lia.
  - intros Hin. unfold parse_square, square_name.
    destruct (index_present _ _ Hin) as (Hlt & Hnth).
    pose proof (index_range SQUARE_NAMES name). split; [|exact Hnth].
    change (Z.of_nat (List.length SQUARE_NAMES)) with 64 in *. lia.
  - intros Hout. unfold parse_square. rewrite (index_absent _ _ Hout). reflexivity.
Qed.

Lemma parse_square_inverts_square_name_witness :
  parse_square (square_name 9) = 9
  /\ (In "a1"%string SQUARE_NAMES ->
        0 <= parse_square "a1" < 64 /\ square_name (parse_square "a1") = "a1"%string)
  /\ (~ In "a1"%string SQUARE_NAMES -> parse_square "a1" = 64).
Proof. apply (parse_square_inverts_square_name 9 "a1"). lia. Defined.

Lemma option_Z_eqb_eq a b : option_Z_eqb a b = true -> a = b.
Proof.
  destruct a, b; cbn; intros H; try discriminate; [|reflexivity].
  apply Z.eqb_eq in H. congruence.
Qed.

Lemma returns_move_eq r m : returns_move r m = true -> r = Returns m.
Proof.
  destruct r as [m'|]; [|discriminate]. unfold returns_move, Move_eqb. intros H.
  split_checks. destruct m' as [f1 t1 p1 d1], m as [f2 t2 p2 d2].
  cbn [from_square to_square promotion drop] in *.
  repeat match goal with
         | H : option_Z_eqb _ _ = true |- _ => apply option_Z_eqb_eq in H
         | H : (_ =? _) = true |- _ => apply Z.eqb_eq in H
         end.
  congruence.
Qed.

Lemma uci_checked : forallb (fun from => forallb (uci_ok from) SQUARES) SQUARES = true.
Proof. vm_compute. reflexivity. Qed.

Lemma In_promotions promo :
  match promo with Some p => 1 <= p <= 6 | None => True end -> In promo promotions.
Proof.
  destruct promo as [p|]; [|intros _; left; reflexivity].
  intros Hp. unfold promotions, PAWN, KNIGHT, BISHOP, ROOK, QUEEN, KING.
  assert (p = 1 \/ p = 2 \/ p = 3 \/ p = 4 \/ p = 5 \/ p = 6) as Hc by lia.
  cbn [In]. intuition (subst; auto).
Qed.

(** X21. A move between two different squares, promoting or not, is read
    back by [from_uci] from the string [uci] writes for it; the null move
    is read back from ["0000"]; any other move from a square to the same
    square is written by [uci] and refused by [from_uci]. *)
Theorem uci_round_trip (from to : Square) (promo : option PieceType) :
  0 <= from < 64 -> 0 <= to < 64 ->
  match promo with Some p => 1 <= p <= 6 | None => True end ->
  let m := mkMove from to promo None in
  (from <> to -> Move_.from_uci (MoveOps.uci m) = Returns m)
  /\ (from = to -> Move_.__bool__ m = true ->
        is_thrown (Move_.from_uci (MoveOps.uci m)) = true)
  /\ Move_.from_uci (MoveOps.uci Move_.null) = Returns Move_.null.
Proof.
  intros Hfrom Hto Hpromo m.
  pose proof (on_all_square_pairs _ uci_checked from to Hfrom Hto) as H.
  unfold uci_ok in H. rewrite forallb_forall in H.
  specialize (H promo (In_promotions promo Hpromo)). cbv zeta in H. fold m in H.
  split; [|split].
  - intros Hne. apply returns_move_eq.
    destruct (Z.eqb_spec from to); [contradiction | exact H].
  - intros E Hbool. subst to. rewrite Z.eqb_refl in H.
    destruct promo as [p|]; [exact H|].
    destruct (Z.eqb_spec from 0) as [E|_]; [subst from; discriminate Hbool | exact H].
  - reflexivity.
Qed.

Lemma uci_round_trip_witness :
  let m := mkMove 12 28 (Some QUEEN) None in
  (12 <> 28 -> Move_.from_uci (MoveOps.uci m) = Returns m)
  /\ (12 = 28 -> Move_.__bool__ m = true ->
        is_thrown (Move_.from_uci (MoveOps.uci m)) = true)
  /\ Move_.from_uci (MoveOps.uci Move_.null) = Returns Move_.null.
Proof. apply (uci_round_trip 12 28 (Some QUEEN)); [lia | lia | unfold QUEEN; lia]. Defined.

(** ** Letters and piece symbols *)

Lemma case_conversions c :
  strtools.is_not_lowercase (strtools.tolower c) = true
  /\ strtools.is_not_uppercase (strtools.toupper c) = true
  /\ (strtools.is_not_lowercase c = false -> strtools.toupper c = c)
  /\ (strtools.is_not_uppercase c = false -> strtools.tolower c = c)
  /\ (strtools.is_not_lowercase c = true ->
        strtools.toupper c = strtools.char_of_int (Z.of_N (N_of_ascii c) - 32))
  /\ (strtools.is_not_uppercase c = true ->
        strtools.tolower c = strtools.char_of_int (Z.of_N (N_of_ascii c) + 32)).
Proof.
  destruct c as [b0 b1 b2 b3 b4 b5 b6 b7].
  destruct b0, b1, b2, b3, b4, b5, b6, b7;
    (split; [vm_compute; reflexivity|]); (split; [vm_compute; reflexivity|]);
    repeat split; intros H; solve [reflexivity | discriminate H].
Qed.

(** X22. [strtools::tolower] never returns a lower-case letter and
    [strtools::toupper] never an upper-case letter.  [toupper] leaves the
    lower-case letters as they are and takes 32 from every other character
    (modulo 256); [tolower] leaves the upper-case letters as they are and
    adds 32 to every other character. *)
Theorem case_conversions_miss_their_letters (c : ascii) :
  strtools.is_not_lowercase (strtools.tolower c) = true
  /\ strtools.is_not_uppercase (strtools.toupper c) = true
  /\ (strtools.is_not_lowercase c = false -> strtools.toupper c = c)
  /\ (strtools.is_not_uppercase c = false -> strtools.tolower c = c)
  /\ (strtools.is_not_lowercase c = true ->
        strtools.toupper c = strtools.char_of_int (Z.of_N (N_of_ascii c) - 32))
  /\ (strtools.is_not_uppercase c = true ->
        strtools.tolower c = strtools.char_of_int (Z.of_N (N_of_ascii c) + 32)).
Proof. exact (case_conversions c). Qed.

Lemma tolower_string_not_lowercase s :
  strtools.isupper (strtools.tolower_string s) = true.
Proof.
  unfold strtools.isupper, strtools.tolower_string.
  induction s as [|c s IH]; cbn [strtools.transform strtools.all_of]; [reflexivity|].
  rewrite (proj1 (case_conversions c)), IH. reflexivity.
Qed.

Lemma index_found l v : index l v < Z.of_nat (List.length l) ->
  nth (Z.to_nat (index l v)) l ""%string = v.
Proof.
  intros H. destruct (in_dec string_dec v l) as [Hin|Hout].
  - apply index_present, Hin.
  - rewrite (index_absent l v Hout) in H. lia.
Qed.

(** X23. Piece symbols do not tell the colours apart.  [symbol] is the
    lower-case letter of the piece type for a piece of either colour, and
    [from_symbol] returns a piece type between [PAWN] and [KING] for no
    string at all: a letter in lower case is not found once [tolower] is
    through with it, a letter in upper case is not in [PIECE_SYMBOLS]. *)
Theorem piece_symbols_ignore_the_colour (pt : PieceType) (c : Color) (symbol : string) :
  1 <= pt <= 6 ->
  Piece_.symbol (mkPiece pt c) = piece_symbol pt
  /\ ~ (1 <= piece_type (Piece_.from_symbol symbol) <= 6).
Proof.
  intros Hpt. split.
  - assert (pt = 1 \/ pt = 2 \/ pt = 3 \/ pt = 4 \/ pt = 5 \/ pt = 6) as Hc by lia.
    destruct c; [|reflexivity].
    destruct Hc as [E|[E|[E|[E|[E|E]]]]]; subst pt; reflexivity.
  - unfold Piece_.from_symbol. cbv zeta. cbn [piece_type]. intros Hi.
    pose proof (tolower_string_not_lowercase symbol) as Hup.
    pose proof (index_found PIECE_SYMBOLS (strtools.tolower_string symbol)) as Hnth.
    change (Z.of_nat (List.length PIECE_SYMBOLS)) with 7 in Hnth.
    specialize (Hnth ltac:(lia)).
    set (i := index PIECE_SYMBOLS (strtools.tolower_string symbol)) in *.
    assert (i = 1 \/ i = 2 \/ i = 3 \/ i = 4 \/ i = 5 \/ i = 6) as Hc by lia.
    rewrite <- Hnth in Hup.
    destruct Hc as [E|[E|[E|[E|[E|E]]]]]; rewrite E in Hup; discriminate Hup.
Qed.

Lemma piece_symbols_ignore_the_colour_witness :
  Piece_.symbol (mkPiece QUEEN BLACK) = piece_symbol QUEEN
  /\ ~ (1 <= piece_type (Piece_.from_symbol "Q") <= 6).
Proof. apply (piece_symbols_ignore_the_colour QUEEN BLACK "Q"). unfold QUEEN. lia. Defined.

Lemma getline_spec sep : forall ss,
  let '(substr, ss') := strtools.getline ss sep in
  strtools.contains substr sep = false
  /\ match ss' with
     | Some rest =>
         ss = (substr ++ String sep rest)%string
         /\ (String.length rest < String.length ss)%nat
         /\ separators ss sep = S (separators rest sep)
     | None => ss = substr /\ separators ss sep = O
     end.
Proof.
  induction ss as [|c ss IH]; cbn [strtools.getline]; [repeat split|].
  destruct (Ascii.eqb_spec c sep) as [->|Hne].
  - cbn [strtools.contains append String.length separators]. rewrite Ascii.eqb_refl.
    repeat split. lia.
  - destruct (strtools.getline ss sep) as [substr [rest|]].
    + destruct IH as (Hc & -> & Hlen & Hsep).
      cbn [strtools.contains append String.length separators].
      replace (Ascii.eqb c sep) with false by (symmetry; apply Ascii.eqb_neq; exact Hne).
      repeat split; try assumption. lia.
    + destruct IH as (Hc & -> & Hsep).
      cbn [strtools.contains separators].
      replace (Ascii.eqb c sep) with false by (symmetry; apply Ascii.eqb_neq; exact Hne).
      repeat split; assumption.
Qed.

Lemma split_loop_spec sep fuel : forall ss, (String.length ss < fuel)%nat ->
  String.concat (String sep EmptyString) (strtools.split_loop fuel ss sep) = ss
  /\ Forall (fun part => strtools.contains part sep = false) (strtools.split_loop fuel ss sep)
  /\ List.length (strtools.split_loop fuel ss sep) = S (separators ss sep)
  /\ strtools.split_loop fuel ss sep <> [].
Proof.
  induction fuel as [|fuel IH]; intros ss Hlen; [lia|].
  cbn [strtools.split_loop]. pose proof (getline_spec sep ss) as Hg.
  destruct (strtools.getline ss sep) as [substr [rest|]].
  - destruct Hg as (Hc & -> & Hl & Hsep).
    destruct (IH rest ltac:(lia)) as (Hcat & Hall & Hcount & Hne).
    split; [|split; [|split]].
    + cbn [String.concat]. destruct (strtools.split_loop fuel rest sep) as [|p ps] eqn:E;
        [congruence|]. rewrite Hcat. reflexivity.
    + constructor; assumption.
    + cbn [List.length]. rewrite Hcount, Hsep. reflexivity.
    + discriminate.
  - destruct Hg as (Hc & -> & Hsep). split; [|split; [|split]].
    + reflexivity.
    + constructor; [assumption | constructor].
    + rewrite Hsep. reflexivity.
    + discriminate.
Qed.

(** X24. [split] cuts a string at every separator: the parts hold no
    separator, there is one part more than there are separators in the
    string (so one empty part for the empty string), and the parts joined
    by the separator give the string back. *)
Theorem split_cuts_at_every_separator (s : string) (sep : ascii) :
  String.concat (String sep EmptyString) (strtools.split s sep) = s
  /\ Forall (fun part => strtools.contains part sep = false) (strtools.split s sep)
  /\ List.length (strtools.split s sep) = S (separators s sep).
Proof.
  destruct (split_loop_spec sep (S (String.length s)) s ltac:(lia)) as (H1 & H2 & H3 & _).
  unfold strtools.split. repeat split; assumption.
Qed.

(** ** Pieces on the board *)

Lemma color_at_bits b sq : 0 <= sq < 64 ->
  color_at b sq =
    let s := bits_at b sq in
    if bit_w s then Some WHITE else if bit_bl s then Some BLACK else None.
Proof.
  intros H. unfold color_at, occupied_co, WHITE, BLACK.
  rewrite !nonzero_land_square by exact H. reflexivity.
Qed.

(** What [piece_type_at] and [color_at] answer is read off the bits of the
    square. *)
Lemma lookups_by_bits b b' sq sq' : 0 <= sq < 64 -> 0 <= sq' < 64 ->
  bits_at b sq = bits_at b' sq' ->
  piece_type_at b sq = piece_type_at b' sq' /\ color_at b sq = color_at b' sq'.
Proof.
  intros Hsq Hsq' E. rewrite !piece_type_at_bits, !color_at_bits by assumption.
  rewrite E. split; reflexivity.
Qed.

Lemma placed_piece_lookups b sq pt c pr : 0 <= sq < 64 -> 1 <= pt <= 6 ->
  bits_at b sq = placed_bits pt c pr ->
  piece_type_at b sq = Some pt /\ color_at b sq = Some c.
Proof.
  intros Hsq Hpt E. rewrite piece_type_at_bits, color_at_bits by assumption.
  rewrite E. unfold placed_bits, PAWN, KNIGHT, BISHOP, ROOK, QUEEN, KING, WHITE, BLACK.
  assert (pt = 1 \/ pt = 2 \/ pt = 3 \/ pt = 4 \/ pt = 5 \/ pt = 6) as Hc by lia.
  destruct Hc as [H|[H|[H|[H|[H|H]]]]]; subst pt; destruct c; split; reflexivity.
Qed.

Lemma empty_square_lookups b sq : 0 <= sq < 64 ->
  bits_at b sq = no_bits -> piece_type_at b sq = None /\ color_at b sq = None.
Proof.
  intros Hsq E. rewrite piece_type_at_bits, color_at_bits by assumption.
  rewrite E. split; reflexivity.
Qed.

(** X25. After [set_piece_at] has put a piece on a square, [piece_type_at]
    and [color_at] answer that piece's type and colour for the square,
    whatever stood there before, and what they answer for every other
    square has not changed. *)
Theorem set_piece_at_then_lookup
    (b : BaseBoard) (sq sq' : Square) (pt : PieceType) (c : Color) (was_promoted : bool) :
  wf_board b -> invariants b -> 0 <= sq < 64 -> 0 <= sq' < 64 -> 1 <= pt <= 6 ->
  let b' := set_piece_at b sq (Some (mkPiece pt c)) was_promoted in
  piece_type_at b' sq = Some pt
  /\ color_at b' sq = Some c
  /\ (sq' <> sq ->
        piece_type_at b' sq' = piece_type_at b sq' /\ color_at b' sq' = color_at b sq').
Proof.
  intros Hwf Hinv Hsq Hsq' Hpt b'. subst b'. unfold set_piece_at. cbn [piece_type color].
  destruct (_set_piece_at_bits b sq pt c was_promoted Hwf Hinv Hsq) as [_ Hbits].
  pose proof (Hbits sq ltac:(lia)) as E. rewrite Z.eqb_refl in E.
  destruct (placed_piece_lookups _ sq pt c was_promoted Hsq Hpt E) as (H1 & H2).
  split; [exact H1|]. split; [exact H2|].
  intros Hne. apply lookups_by_bits; try assumption.
  rewrite Hbits by lia.
  replace (sq' =? sq) with false by (symmetry; apply Z.eqb_neq; exact Hne). reflexivity.
Qed.

Lemma set_piece_at_then_lookup_witness :
  let b' := set_piece_at _reset_board 12 (Some (mkPiece QUEEN BLACK)) false in
  piece_type_at b' 12 = Some QUEEN
  /\ color_at b' 12 = Some BLACK
  /\ (4 <> 12 ->
        piece_type_at b' 4 = piece_type_at _reset_board 4
        /\ color_at b' 4 = color_at _reset_board 4).
Proof.
  apply (set_piece_at_then_lookup _reset_board 12 4 QUEEN BLACK false);
    [exact starting_position_wf | exact starting_position_invariants
    | lia | lia | unfold QUEEN; lia].
Defined.

Lemma _remove_piece_at_returns b sq : fst (_remove_piece_at b sq) = piece_type_at b sq.
Proof.
  unfold _remove_piece_at. cbv zeta.
  assert (piece_type_at b sq = None \/ piece_type_at b sq = Some PAWN
          \/ piece_type_at b sq = Some KNIGHT \/ piece_type_at b sq = Some BISHOP
          \/ piece_type_at b sq = Some ROOK \/ piece_type_at b sq = Some QUEEN
          \/ piece_type_at b sq = Some KING) as Hc.
  { unfold piece_type_at. cbv zeta.
    repeat match goal with
           | |- context [if ?c then _ else _] => destruct c
           end; tauto. }
  destruct Hc as [E|[E|[E|[E|[E|[E|E]]]]]]; rewrite E; reflexivity.
Qed.

(** X26. [remove_piece_at] returns a piece of the type [piece_type_at]
    answered for the square, or nothing where the square was empty; after
    it the square is empty for [piece_type_at] and [color_at], every other
    square is as before, and removing from the same square again returns
    nothing and changes nothing. *)
Theorem remove_piece_at_empties_the_square (b : BaseBoard) (sq sq' : Square) :
  wf_board b -> invariants b -> 0 <= sq < 64 -> 0 <= sq' < 64 ->
  let piece := fst (remove_piece_at b sq) in
  let b' := snd (remove_piece_at b sq) in
  option_map piece_type piece = piece_type_at b sq
  /\ piece_type_at b' sq = None
  /\ color_at b' sq = None
  /\ (sq' <> sq ->
        piece_type_at b' sq' = piece_type_at b sq' /\ color_at b' sq' = color_at b sq')
  /\ remove_piece_at b' sq = (None, b').
Proof.
  intros Hwf Hinv Hsq Hsq'. cbv zeta.
  destruct (_remove_piece_at_bits b sq Hwf Hinv Hsq) as [_ Hbits].
  pose proof (_remove_piece_at_returns b sq) as Hret.
  assert (snd (remove_piece_at b sq) = snd (_remove_piece_at b sq)
          /\ option_map piece_type (fst (remove_piece_at b sq)) = fst (_remove_piece_at b sq))
    as (Eb & Ep).
  { unfold remove_piece_at. destruct (_remove_piece_at b sq) as [[pt|] b1]; split; reflexivity. }
  rewrite Eb, Ep, Hret.
  pose proof (Hbits sq ltac:(lia)) as E. rewrite Z.eqb_refl in E.
  destruct (empty_square_lookups _ sq Hsq E) as (H1 & H2).
  split; [reflexivity|]. split; [exact H1|]. split; [exact H2|]. split.
  - intros Hne. apply lookups_by_bits; try assumption.
    rewrite Hbits by lia.
    replace (sq' =? sq) with false by (symmetry; apply Z.eqb_neq; exact Hne). reflexivity.
  - set (b1 := snd (_remove_piece_at b sq)) in *.
    assert (_remove_piece_at b1 sq = (None, b1)) as Hnone
      by (unfold _remove_piece_at; rewrite H1; reflexivity).
    unfold remove_piece_at. rewrite Hnone. reflexivity.
Qed.

Lemma remove_piece_at_empties_the_square_witness :
  let piece := fst (remove_piece_at _reset_board 12) in
  let b' := snd (remove_piece_at _reset_board 12) in
  option_map piece_type piece = piece_type_at _reset_board 12
  /\ piece_type_at b' 12 = None
  /\ color_at b' 12 = None
  /\ (4 <> 12 ->
        piece_type_at b' 4 = piece_type_at _reset_board 4
        /\ color_at b' 4 = color_at _reset_board 4)
  /\ remove_piece_at b' 12 = (None, b').
Proof.
  apply (remove_piece_at_empties_the_square _reset_board 12 4);
    [exact starting_position_wf | exact starting_position_invariants | lia | lia].
Defined.

Lemma clear_board_wf : wf_board _clear_board.
Proof.
  unfold wf_board. repeat (apply Forall_cons; [vm_compute; split; [discriminate | reflexivity]|]).
  apply Forall_nil.
Qed.

Lemma clear_board_invariants : invariants _clear_board.
Proof. split; [reflexivity | repeat constructor | reflexivity | reflexivity | reflexivity]. Qed.

Lemma apply_edit_preserves b e : wf_board b -> invariants b -> 0 <= edit_square e < 64 ->
  wf_board (apply_edit b e) /\ invariants (apply_edit b e).
Proof.
  intros Hwf Hinv Hsq. destruct e as [square [p|] pr|square]; cbn [apply_edit edit_square] in *.
  - apply _set_piece_at_preserves; assumption.
  - apply _remove_piece_at_preserves; assumption.
  - unfold remove_piece_at.
    pose proof (_remove_piece_at_preserves b square Hwf Hinv Hsq) as H.
    destruct (_remove_piece_at b square) as [[pt|] b']; exact H.
Qed.

(** X27. Every board built from the empty board or from the starting
    position by any sequence of [set_piece_at] and [remove_piece_at] on
    squares of the board satisfies the invariants of the data model, and
    its fields are 64-bit values. *)
Theorem edited_boards_keep_the_invariants (start : BaseBoard) (edits : list edit) :
  start = _clear_board \/ start = _reset_board ->
  Forall (fun e => 0 <= edit_square e < 64) edits ->
  wf_board (fold_left apply_edit edits start)
  /\ invariants (fold_left apply_edit edits start).
Proof.
  intros Hstart Hedits.
  assert (wf_board start /\ invariants start) as Hbase.
  { destruct Hstart as [->| ->];
      [split; [exact clear_board_wf | exact clear_board_invariants]
      |split; [exact starting_position_wf | exact starting_position_invariants]]. }
  clear Hstart. revert start Hbase.
  induction Hedits as [|e edits He _ IH]; intros start [Hwf Hinv]; cbn [fold_left].
  - split; assumption.
  - apply IH. apply apply_edit_preserves; assumption.
Qed.

Lemma edited_boards_keep_the_invariants_witness :
  wf_board (fold_left apply_edit
              [RemovePiece 12; SetPiece 28 (Some (mkPiece PAWN WHITE)) false] _reset_board)
  /\ invariants (fold_left apply_edit
                   [RemovePiece 12; SetPiece 28 (Some (mkPiece PAWN WHITE)) false]
                   _reset_board).
Proof.
  apply (edited_boards_keep_the_invariants _reset_board
           [RemovePiece 12; SetPiece 28 (Some (mkPiece PAWN WHITE)) false]).
  - right. reflexivity.
  - repeat constructor; cbn; lia.
Defined.

Lemma pawn_tables_checked :
  forallb (fun up => forallb (fun s => forallb (pawn_table_ok up s) SQUARES) SQUARES)
          [true; false] = true.
Proof. vm_compute. reflexivity. Qed.

Lemma BB_PAWN_ATTACKS_bit up s t : 0 <= s < 64 -> 0 <= t < 64 ->
  Z.testbit (BB_PAWN_ATTACKS up s) t = pawn_step up s t.
Proof.
  intros Hs Ht. pose proof pawn_tables_checked as H. rewrite forallb_forall in H.
  assert (In up [true; false]) as Hin by (destruct up; cbn; auto).
  apply eqb_prop. exact (on_all_square_pairs _ (H up Hin) s t Hs Ht).
Qed.

Lemma nonzero_square_land x sq : 0 <= sq < 64 ->
  nonzero (Z.land (BB_SQUARES sq) x) = Z.testbit x sq.
Proof. intros H. rewrite Z.land_comm. apply nonzero_land_square, H. Qed.

Lemma lookup_in_sliding pair deltas s O :
  pair = _attack_table deltas -> rows_ok deltas = true -> 0 <= s < 64 ->
  exists a, lookup_in pair s O = Some a /\ _sliding_attacks s O deltas = Some a.
Proof.
  intros Hpair Hok Hs.
  destruct (table_lookup_matches pair deltas s O Hpair Hok Hs) as (table & a & E & Hl & Hsl).
  exists a. rewrite E. cbn [lookup_in]. split; assumption.
Qed.

(** The three lookups of [attacks_mask] and [_attackers_mask] return, and
    what they return is read on the lines through the square. *)
Lemma line_lookups s t occ : 0 <= s < 64 -> 0 <= t < 64 ->
  exists d r f,
    lookup_in _DIAG_PAIR s occ = Some d
    /\ lookup_in _RANK_PAIR s occ = Some r
    /\ lookup_in _FILE_PAIR s occ = Some f
    /\ Z.testbit d t = on_diagonal s t && (Z.land (between s t) occ =? 0)
    /\ Z.testbit r t = on_rank s t && (Z.land (between s t) occ =? 0)
    /\ Z.testbit f t = on_file s t && (Z.land (between s t) occ =? 0).
Proof.
  intros Hs Ht.
  destruct (lookup_in_sliding _DIAG_PAIR _DIAG s occ _DIAG_PAIR_eq rows_ok_DIAG Hs)
    as (d & Hd & Hd').
  destruct (lookup_in_sliding _RANK_PAIR _RANK s occ _RANK_PAIR_eq rows_ok_RANK Hs)
    as (r & Hr & Hr').
  destruct (lookup_in_sliding _FILE_PAIR _FILE s occ _FILE_PAIR_eq rows_ok_FILE Hs)
    as (f & Hf & Hf').
  destruct (sliding_attacks_on_lines _ _ s t occ diagonal_walks_checked Hs Ht) as (d' & Ed & Bd).
  destruct (sliding_attacks_on_lines _ _ s t occ rank_walks_checked Hs Ht) as (r' & Er & Br).
  destruct (sliding_attacks_on_lines _ _ s t occ file_walks_checked Hs Ht) as (f' & Ef & Bf).
  assert (d' = d) by congruence. assert (r' = r) by congruence. assert (f' = f) by congruence.
  subst d' r' f'. exists d, r, f.
  exact (conj Hd (conj Hr (conj Hf (conj Bd (conj Br Bf))))).
Qed.

Ltac absurd_bits Hok :=
  exfalso; revert Hok;
  repeat lazymatch goal with
         | |- context [Z.testbit ?x ?i] => destruct (Z.testbit x i)
         end;
  let H := fresh in intros H; discriminate H.

Ltac piece_case :=
  cbn [negb orb andb PAWN KNIGHT BISHOP ROOK QUEEN KING WHITE BLACK Z.eqb Pos.eqb].

(** X28. [attacks_mask] returns for every square of a board that satisfies
    the invariants, and the bitboard it returns holds the squares the
    piece on that square attacks: the steps of a knight or king, the lines
    of a bishop, rook or queen up to the first occupied square, no square
    when the square is empty, and for a pawn its two capture squares taken
    down the board (towards rank 1) whatever the colour of the pawn; the
    one pawn that gets the square up the board is a pawn of
    [occupied_co[WHITE]] on a1, the only square whose mask survives the
    conversion to [Color]. *)
Theorem attacks_mask_follows_the_piece (b : BaseBoard) (s t : Square) :
  invariants b -> 0 <= s < 64 -> 0 <= t < 64 ->
  exists a,
    attacks_mask b s = Some a
    /\ Z.testbit a t
       = piece_attacks (piece_type_at b s)
                       ((s =? 0) && Z.testbit (occupied_co b WHITE) 0) (occupied b) s t.
Proof.
  intros Hinv Hs Ht.
  pose proof (proj1 (invariants_pointwise b) Hinv s (proj1 Hs)) as Hok.
  destruct (line_lookups s t (occupied b) Hs Ht) as (d & r & f & Hd & Hr & Hf & Bd & Br & Bf).
  set (up := (s =? 0) && Z.testbit (occupied_co b WHITE) 0).
  pose proof (BB_PAWN_ATTACKS_bit up s t Hs Ht) as Pw.
  pose proof (BB_KING_ATTACKS_bit s t Hs Ht) as Kg.
  pose proof (BB_KNIGHT_ATTACKS_bit s t Hs Ht) as Kn.
  unfold attacks_mask. cbv zeta.
  rewrite (Z.land_comm (BB_SQUARES s) (occupied_co b WHITE)).
  rewrite Color_of_int_land_square by exact Hs. fold up.
  rewrite !nonzero_square_land, Hd, Hr, Hf by exact Hs.
  rewrite piece_type_at_bits by exact Hs.
  unfold bits_at in Hok |- *. cbv zeta.
  cbn [bit_o bit_p bit_n bit_b bit_r bit_q bit_k bit_w bit_bl].
  set (clear := Z.land (between s t) (occupied b) =? 0) in *.
  unfold piece_attacks. fold clear.
  destruct (Z.testbit (pawns b) s); [
    destruct (Z.testbit (occupied b) s); [|absurd_bits Hok];
    eexists; split; [reflexivity|]; piece_case; exact Pw |].
  destruct (Z.testbit (knights b) s); [
    destruct (Z.testbit (occupied b) s); [|absurd_bits Hok];
    eexists; split; [reflexivity|]; piece_case; exact Kn |].
  destruct (Z.testbit (kings b) s); [
    destruct (Z.testbit (occupied b) s); [|absurd_bits Hok];
    destruct (Z.testbit (bishops b) s); [absurd_bits Hok|];
    destruct (Z.testbit (rooks b) s); [absurd_bits Hok|];
    destruct (Z.testbit (queens b) s); [absurd_bits Hok|];
    eexists; split; [reflexivity|]; piece_case; exact Kg |].
  destruct (Z.testbit (bishops b) s), (Z.testbit (rooks b) s), (Z.testbit (queens b) s),
    (Z.testbit (occupied b) s);
    first [ solve [ (eexists; split; [reflexivity|]); piece_case;
                    rewrite ?Z.lor_spec, ?Z.bits_0, ?Bd, ?Br, ?Bf;
                    destruct (on_diagonal s t), (on_rank s t), (on_file s t), clear;
                    reflexivity ]
          | absurd_bits Hok ].
Qed.

Lemma attacks_mask_follows_the_piece_witness :
  exists a,
    attacks_mask _reset_board 1 = Some a
    /\ Z.testbit a 16
       = piece_attacks (piece_type_at _reset_board 1)
                       ((1 =? 0) && Z.testbit (occupied_co _reset_board WHITE) 0)
                       (occupied _reset_board) 1 16.
Proof.
  apply (attacks_mask_follows_the_piece _reset_board 1 16);
    [exact starting_position_invariants | lia | lia].
Defined.

Lemma steps_symmetric_checked : all_steps_symmetric BB_RAYS = true.
Proof. vm_compute. reflexivity. Qed.

Lemma steps_symmetric_in rays s t :
  all_steps_symmetric rays = true -> 0 <= s < 64 -> 0 <= t < 64 ->
  knight_step t s = knight_step s t
  /\ (square_distance t s =? 1) = (square_distance s t =? 1)
  /\ on_diagonal t s = on_diagonal s t
  /\ on_rank t s = on_rank s t
  /\ on_file t s = on_file s t
  /\ between_in rays t s = between_in rays s t
  /\ (forall up, pawn_step up t s = pawn_step (negb up) s t).
Proof.
  intros H Hs Ht. unfold all_steps_symmetric in H.
  pose proof (on_all_square_pairs _ H s t Hs Ht) as Hst. unfold steps_symmetric_ok in Hst.
  apply andb_true_iff in Hst as [Hst H8]. apply andb_true_iff in Hst as [Hst H7].
  apply andb_true_iff in Hst as [Hst H6]. apply andb_true_iff in Hst as [Hst H5].
  apply andb_true_iff in Hst as [Hst H4]. apply andb_true_iff in Hst as [Hst H3].
  apply andb_true_iff in Hst as [H1 H2].
  apply eqb_prop in H1, H2, H3, H4, H5, H7, H8. apply Z.eqb_eq in H6.
  refine (conj H1 (conj H2 (conj H3 (conj H4 (conj H5 (conj H6 _)))))).
  intros [|]; [exact H7 | exact H8].
Qed.

Lemma steps_symmetric s t : 0 <= s < 64 -> 0 <= t < 64 ->
  knight_step t s = knight_step s t
  /\ (square_distance t s =? 1) = (square_distance s t =? 1)
  /\ on_diagonal t s = on_diagonal s t
  /\ on_rank t s = on_rank s t
  /\ on_file t s = on_file s t
  /\ between t s = between s t
  /\ (forall up, pawn_step up t s = pawn_step (negb up) s t).
Proof.
  intros Hs Ht. unfold between.
  exact (steps_symmetric_in BB_RAYS s t steps_symmetric_checked Hs Ht).
Qed.

(** The bits [_attackers_mask] puts together for one square, against the
    attacks of the piece the bits of that square stand for. *)
Lemma attackers_formula (w bl p n bi r q k pr o : bool) (occ_c : bool)
    (kn kg dg rk fl clear pw : bool) :
  square_ok (mkBits w bl p n bi r q k pr o) = true ->
  (kg && k || kn && n || rk && clear && (q || r) || fl && clear && (q || r)
   || dg && clear && (q || bi) || pw && p) && occ_c
  = occ_c
    && match
         (if negb o then None
          else if p then Some PAWN
          else if n then Some KNIGHT
          else if bi then Some BISHOP
          else if r then Some ROOK
          else if q then Some QUEEN
          else Some KING)
       with
       | Some pt =>
           if pt =? PAWN then pw
           else if pt =? KNIGHT then kn
           else if pt =? BISHOP then dg && clear
           else if pt =? ROOK then (rk || fl) && clear
           else if pt =? QUEEN then (dg || rk || fl) && clear
           else kg
       | None => false
       end.
Proof.
  intros Hok.
  destruct occ_c; [|rewrite andb_false_r; reflexivity].
  rewrite andb_true_r, andb_true_l.
  destruct p, n, bi, r, q, k, o; try (destruct w, bl, pr; discriminate Hok);
    piece_case; destruct kn, kg, dg, rk, fl, clear, pw; reflexivity.
Qed.

(** X29. [attackers_mask] returns for every square of a board that
    satisfies the invariants, and the bitboard it returns holds the
    squares of the pieces of [occupied_co[color]] that attack the square:
    a knight, bishop, rook, queen or king by its steps or lines, as in
    [attacks_mask], and a pawn when the square is one file to either side
    and one rank down the board from the pawn for [WHITE], one rank up for
    [BLACK]. *)
Theorem attackers_mask_reads_the_attacks (b : BaseBoard) (c : Color) (s t : Square) :
  invariants b -> 0 <= s < 64 -> 0 <= t < 64 ->
  exists a,
    attackers_mask b c s = Some a
    /\ Z.testbit a t
       = Z.testbit (occupied_co b c) t
         && piece_attacks (piece_type_at b t) c (occupied b) t s.
Proof.
  intros Hinv Hs Ht.
  pose proof (proj1 (invariants_pointwise b) Hinv t (proj1 Ht)) as Hok.
  destruct (line_lookups s t (occupied b) Hs Ht) as (d & r & f & Hd & Hr & Hf & Bd & Br & Bf).
  pose proof (BB_PAWN_ATTACKS_bit (negb c) s t Hs Ht) as Pw.
  pose proof (BB_KING_ATTACKS_bit s t Hs Ht) as Kg.
  pose proof (BB_KNIGHT_ATTACKS_bit s t Hs Ht) as Kn.
  destruct (steps_symmetric s t Hs Ht) as (S1 & S2 & S3 & S4 & S5 & S6 & S7).
  unfold attackers_mask, _attackers_mask. cbv zeta. rewrite Hr, Hf, Hd.
  eexists. split; [reflexivity|].
  rewrite !Z.land_spec, !Z.lor_spec, !Z.land_spec, !Z.lor_spec, Kg, Kn, Br, Bf, Bd, Pw.
  rewrite piece_type_at_bits by exact Ht.
  unfold piece_attacks. rewrite S1, S2, S3, S4, S5, S6, !S7.
  unfold bits_at in Hok |- *. cbv zeta.
  cbn [bit_o bit_p bit_n bit_b bit_r bit_q bit_k bit_w bit_bl].
  set (clear := Z.land (between s t) (occupied b) =? 0).
  set (pw := pawn_step (negb c) s t).
  exact (attackers_formula _ _ _ _ _ _ _ _ _ _ _ _ _ _ _ _ _ _ Hok).
Qed.

Lemma attackers_mask_reads_the_attacks_witness :
  exists a,
    attackers_mask _reset_board WHITE 16 = Some a
    /\ Z.testbit a 1
       = Z.testbit (occupied_co _reset_board WHITE) 1
         && piece_attacks (piece_type_at _reset_board 1) WHITE (occupied _reset_board) 1 16.
Proof.
  apply (attackers_mask_reads_the_attacks _reset_board WHITE 16 1);
    [exact starting_position_invariants | lia | lia].
Defined.

Lemma wf_board_fields b : wf_board b ->
  wf_bb (occupied_co_WHITE b) /\ wf_bb (occupied_co_BLACK b) /\ wf_bb (pawns b)
  /\ wf_bb (knights b) /\ wf_bb (bishops b) /\ wf_bb (rooks b) /\ wf_bb (queens b)
  /\ wf_bb (kings b) /\ wf_bb (promoted b) /\ wf_bb (occupied b).
Proof.
  unfold wf_board. intros H.
  repeat match goal with
         | H : Forall _ (_ :: _) |- _ => apply Forall_cons_iff in H as [? H]
         end.
  repeat match goal with
         | |- _ /\ _ => split
         end; assumption.
Qed.

Lemma mirror_wf b : wf_board b -> wf_board (mirror b).
Proof.
  intros H. apply wf_board_fields in H as (H1 & H2 & H3 & H4 & H5 & H6 & H7 & H8 & H9 & H10).
  unfold wf_board, mirror, apply_mirror, apply_transform. cbn.
  repeat (apply Forall_cons; [apply wf_bb_flip_vertical; assumption|]). apply Forall_nil.
Qed.

Lemma mirror_bits b i : wf_board b -> 0 <= i < 64 ->
  bits_at (mirror b) i = swap_colours (bits_at b (square_mirror i)).
Proof.
  intros H Hi. apply wf_board_fields in H as (H1 & H2 & H3 & H4 & H5 & H6 & H7 & H8 & H9 & H10).
  unfold bits_at, swap_colours, mirror, apply_mirror, apply_transform. cbn.
  rewrite !flip_vertical_bit by assumption. reflexivity.
Qed.

Lemma mirror_involutive b : wf_board b -> mirror (mirror b) = b.
Proof.
  intros H. apply wf_board_fields in H as (H1 & H2 & H3 & H4 & H5 & H6 & H7 & H8 & H9 & H10).
  destruct b. unfold mirror, apply_mirror, apply_transform. cbn in *.
  rewrite !flip_vertical_involutive by assumption. reflexivity.
Qed.

Lemma swap_colours_ok s : square_ok s = true -> square_ok (swap_colours s) = true.
Proof.
  destruct s as [w bl p n b r q k pr o]. unfold swap_colours. cbn [bit_w bit_bl bit_p bit_n bit_b bit_r bit_q bit_k bit_pr bit_o].
  intros H. destruct o, p, n, b, r, q, k; try discriminate H;
    destruct w, bl, pr; try discriminate H; reflexivity.
Qed.

Lemma bits_beyond_board b i : wf_board b -> 64 <= i -> bits_at b i = no_bits.
Proof.
  intros H Hi. apply wf_board_fields in H as (H1 & H2 & H3 & H4 & H5 & H6 & H7 & H8 & H9 & H10).
  unfold bits_at, no_bits. rewrite !wf_bb_high by assumption. reflexivity.
Qed.

Lemma mirror_invariants b : wf_board b -> invariants b -> invariants (mirror b).
Proof.
  intros Hwf Hinv. apply invariants_pointwise. intros i Hi.
  destruct (Z.ltb_spec i 64).
  - rewrite mirror_bits by (assumption || lia). apply swap_colours_ok.
    apply invariants_pointwise; [exact Hinv|].
    destruct (square_mirror_facts i ltac:(lia)) as (Hm & _). lia.
  - rewrite (bits_beyond_board _ i (mirror_wf b Hwf)) by lia. reflexivity.
Qed.

(** X30. [mirror] turns the board upside down and exchanges the colours:
    on the mirrored board a square holds the piece type that the mirror
    image of the square holds on the board, in the other colour.  The
    mirrored board satisfies the invariants again, and mirroring twice
    gives the board back. *)
Theorem mirror_flips_ranks_and_colours (b : BaseBoard) (sq : Square) :
  wf_board b -> invariants b -> 0 <= sq < 64 ->
  piece_type_at (mirror b) sq = piece_type_at b (square_mirror sq)
  /\ color_at (mirror b) sq = option_map negb (color_at b (square_mirror sq))
  /\ invariants (mirror b)
  /\ mirror (mirror b) = b.
Proof.
  intros Hwf Hinv Hsq.
  destruct (square_mirror_facts sq Hsq) as (Hm & _).
  pose proof (proj1 (invariants_pointwise b) Hinv (square_mirror sq) (proj1 Hm)) as Hok.
  pose proof (mirror_bits b sq Hwf Hsq) as E.
  rewrite !piece_type_at_bits, !color_at_bits by assumption. rewrite E.
  destruct (bits_at b (square_mirror sq)) as [w bl p n bi r q k pr o].
  unfold swap_colours. cbv zeta.
  cbn [bit_w bit_bl bit_p bit_n bit_b bit_r bit_q bit_k bit_pr bit_o].
  split; [reflexivity|]. split.
  - destruct o, p, n, bi, r, q, k; try discriminate Hok;
      destruct w, bl, pr; try discriminate Hok; reflexivity.
  - split; [apply mirror_invariants; assumption | apply mirror_involutive; assumption].
Qed.

Lemma mirror_flips_ranks_and_colours_witness :
  piece_type_at (mirror _reset_board) 12 = piece_type_at _reset_board (square_mirror 12)
  /\ color_at (mirror _reset_board) 12
     = option_map negb (color_at _reset_board (square_mirror 12))
  /\ invariants (mirror _reset_board)
  /\ mirror (mirror _reset_board) = _reset_board.
Proof.
  apply (mirror_flips_ranks_and_colours _reset_board 12);
    [exact starting_position_wf | exact starting_position_invariants | lia].
Defined.
